(** * Claude Flow CSP: the discovery core, embedded and verified

    A shallow embedding of the CSP packages
    ([@claude-flow-csp/core], [verify], [workflows], [cli]) together with
    the platform functions they call (IEEE-754 binary64 arithmetic,
    [Number::toString], [JSON.stringify], [JSON.parse], SHA-256), followed
    by the theorems that settle the specification's claims. *)

From Stdlib Require Import ZArith QArith Qround Qabs Qpower Qfield String Ascii List Bool Lia Lqa.
From Stdlib Require Import Permutation Sorted.
From Stdlib Require OrderedTypeEx.
Import ListNotations.

Set Warnings "-register-all".

Local Open Scope string_scope.
Local Open Scope Z_scope.

(* ================================================================== *)
(** * Strings and lists, as the JavaScript library has them *)

Module JsString.

(** [Array.prototype.join]. *)
Fixpoint join (sep : string) (l : list string) : string :=
  match l with
  | [] => ""
  | [x] => x
  | x :: tl => x ++ sep ++ join sep tl
  end.

(** [String.prototype.charCodeAt]: strings are sequences of code units;
    the model keeps the code units below 256. *)
Definition charCode (c : ascii) : Z := Z.of_N (N_of_ascii c).

Definition char_of_code (n : Z) : ascii := ascii_of_N (Z.to_N n).

Definition digit_char (d : Z) : ascii := char_of_code (48 + d).

(** Lowercase digit of a radix up to 16, as [Number.prototype.toString(16)]
    prints it. *)
Definition hex_digit (d : Z) : ascii :=
  if d <? 10 then char_of_code (48 + d) else char_of_code (87 + d).

(** Decimal digits of a non-negative integer, most significant first. *)
Fixpoint digits_fuel (fuel : nat) (n : Z) (acc : string) : string :=
  match fuel with
  | O => acc
  | S f =>
      let acc' := String (digit_char (n mod 10)) acc in
      if n <? 10 then acc' else digits_fuel f (n / 10) acc'
  end.

Definition nat_digits (n : Z) : string :=
  digits_fuel (S (Z.to_nat (Z.log2 n))) n "".

(** An integer in plain decimal notation, the way JavaScript prints a safe
    integer (below 2^53 in absolute value). *)
Definition of_Z (n : Z) : string :=
  if n <? 0 then "-" ++ nat_digits (- n) else nat_digits n.

Fixpoint repeat_char (c : ascii) (n : nat) : string :=
  match n with
  | O => ""
  | S k => String c (repeat_char c k)
  end.

(** [String.prototype.padStart(width, '0')]. *)
Definition padStart0 (width : nat) (s : string) : string :=
  repeat_char "0" (width - String.length s) ++ s.

(** [String.prototype.endsWith] together with the removal of the suffix:
    [Some stem] when [s = stem ++ suffix]. *)
Fixpoint strip_suffix (suffix s : string) : option string :=
  if String.eqb s suffix then Some ""
  else match s with
       | EmptyString => None
       | String c tl =>
           match strip_suffix suffix tl with
           | Some stem => Some (String c stem)
           | None => None
           end
       end.

(** [Some rest] when [s = pre ++ rest]. *)
Fixpoint strip_prefix (pre s : string) : option string :=
  match pre, s with
  | EmptyString, _ => Some s
  | String a p, String b t => if Ascii.eqb a b then strip_prefix p t else None
  | String _ _, EmptyString => None
  end.

Fixpoint contains_char (c : ascii) (s : string) : bool :=
  match s with
  | EmptyString => false
  | String d tl => Ascii.eqb c d || contains_char c tl
  end.

End JsString.

(** [Array.prototype.sort] with a comparator.  The sort is stable
    (ECMAScript 2019); for a consistent comparator its result is the one of
    a stable insertion sort, which is how it is modelled.  [gtb a b] is
    [comparefn(a, b) > 0]. *)
Module JsSort.
Section Sort.
Context {A : Type} (gtb : A -> A -> bool).

Fixpoint insert (x : A) (l : list A) : list A :=
  match l with
  | [] => [x]
  | y :: tl => if gtb x y then y :: insert x tl else x :: y :: tl
  end.

Fixpoint sort (l : list A) : list A :=
  match l with
  | [] => []
  | x :: tl => insert x (sort tl)
  end.
End Sort.
End JsSort.

(* ================================================================== *)
(** * Numbers

    A JavaScript number is an IEEE-754 binary64.  The model carries a finite
    number as its exact rational value; an arithmetic operation is the exact
    operation followed by rounding to the nearest binary64, ties to even,
    which is how IEEE-754 defines it.  Comparisons are exact.  The two zeros
    are identified (they compare equal and print alike in all the code
    below), and overflow to an infinity is outside the model. *)

Module JsNumber.
Local Open Scope Q_scope.

Definition number := Q.

Definition two_pow (e : Z) : Q := Qpower (2 # 1) e.
Definition ten_pow (e : Z) : Q := Qpower (10 # 1) e.

(** Nearest integer, ties to even. *)
Definition round_half_even (x : Q) : Z :=
  let f := Qfloor x in
  match Qcompare (x - inject_Z f) (1 # 2) with
  | Lt => f
  | Gt => (f + 1)%Z
  | Eq => if Z.even f then f else (f + 1)%Z
  end.

(** [floor (log2 x)] for [x > 0]. *)
Definition ilog2 (x : Q) : Z :=
  let e := (Z.log2 (Qnum x) - Z.log2 (Zpos (Qden x)))%Z in
  if Qle_bool (two_pow e) x then e else (e - 1)%Z.

(** Rounding to binary64: 53 bits of precision, least exponent -1074. *)
Definition binary64 (x : Q) : number :=
  match Qcompare x 0 with
  | Eq => 0
  | c =>
      let a := Qabs x in
      let e := Z.max (ilog2 a - 52) (-1074)%Z in
      let m := round_half_even (a / two_pow e) in
      let v := inject_Z m * two_pow e in
      Qred (match c with Lt => - v | _ => v end)
  end.

Definition fadd (a b : number) : number := binary64 (a + b).
Definition fsub (a b : number) : number := binary64 (a - b).
Definition fmul (a b : number) : number := binary64 (a * b).

(** A decimal literal of the source text, [n / 10^d]. *)
Definition lit (n : Z) (d : Z) : number := binary64 (inject_Z n / ten_pow d).

Definition of_int (n : Z) : number := binary64 (inject_Z n).

Definition ltb (a b : number) : bool := negb (Qle_bool b a).
Definition leb (a b : number) : bool := Qle_bool a b.
Definition gtb (a b : number) : bool := ltb b a.
Definition geb (a b : number) : bool := leb b a.
Definition eqb (a b : number) : bool := Qeq_bool a b.

(** [Math.max] and [Math.floor]. *)
Definition max (a b : number) : number := if ltb a b then b else a.
Definition floor (a : number) : Z := Qfloor a.

(** [Number(x.toFixed(4))]: the integer [n] nearest to [|x| * 10^4], the
    larger one on a tie, then the binary64 nearest to [n / 10^4]. *)
Definition toFixed4 (x : number) : number :=
  let n := Qfloor (Qabs x * inject_Z 10000 + (1 # 2)) in
  let v := binary64 (inject_Z n / inject_Z 10000) in
  if ltb x 0 then Qred (- v) else v.

(** [clamp] of utils.ts, with its default bounds. *)
Definition clamp (value : number) : number :=
  if ltb value 0 then 0 else if gtb value 1 then 1 else value.

(** ** [Number::toString] (radix 10)

    For [x > 0] the standard takes integers [n], [k >= 1] and [s] with
    [10^(k-1) <= s < 10^k], such that [s * 10^(n-k)] denotes [x] and [k] is
    as small as possible, the [s] closest to [x] when there is a choice;
    it then lays the digits of [s] out according to [n]. *)

(** The [n] with [10^(n-1) <= x < 10^n], for [x > 0]. *)
Definition dec_exp (x : Q) : Z :=
  let e0 := (ilog2 x * 30103 / 100000)%Z in
  let down e := if Qle_bool (ten_pow e) x then e else (e - 1)%Z in
  let up e := if Qle_bool (ten_pow (e + 1)) x then (e + 1)%Z else e in
  (up (up (down (down e0))) + 1)%Z.

(** The least [k], from [k] on, with a [k]-digit decimal that denotes [x],
    and that decimal as an integer [s] scaled by [10^(n-k)]. *)
Fixpoint shortest (fuel : nat) (k : Z) (x : Q) (n : Z) : Z * Z :=
  let scale := ten_pow (n - k) in
  let lo := Qfloor (x / scale) in
  let hi := (lo + 1)%Z in
  let ok s := Qeq_bool (binary64 (inject_Z s * scale)) x in
  match fuel with
  | O => (lo, k)
  | S f =>
      match ok lo, ok hi with
      | true, false => (lo, k)
      | false, true => (hi, k)
      | true, true =>
          match Qcompare (x - inject_Z lo * scale) (inject_Z hi * scale - x) with
          | Lt => (lo, k)
          | Gt => (hi, k)
          | Eq => if Z.even lo then (lo, k) else (hi, k)
          end
      | false, false => shortest f (k + 1)%Z x n
      end
  end.

Fixpoint strip_zeros_rev (s : list ascii) : list ascii :=
  match s with
  | "0"%char :: tl => strip_zeros_rev tl
  | _ => s
  end.

(** The digits of [s] without trailing zeros. *)
Definition significant (s : Z) : string :=
  string_of_list_ascii
    (rev (strip_zeros_rev (rev (list_ascii_of_string (JsString.nat_digits s))))).

(** The layout of the digits [ds] of a number [0.ds * 10^n]. *)
Definition layout (ds : string) (n : Z) : string :=
  let k := Z.of_nat (String.length ds) in
  if ((k <=? n) && (n <=? 21))%Z then
    ds ++ JsString.repeat_char "0" (Z.to_nat (n - k))
  else if ((0 <? n) && (n <=? 21))%Z then
    substring 0 (Z.to_nat n) ds ++ "." ++ substring (Z.to_nat n) (Z.to_nat (k - n)) ds
  else if ((-6 <? n) && (n <=? 0))%Z then
    "0." ++ JsString.repeat_char "0" (Z.to_nat (- n)) ++ ds
  else
    let e := (n - 1)%Z in
    let es := (if (e <? 0)%Z then "-" else "+") ++ JsString.nat_digits (Z.abs e) in
    if (k =? 1)%Z then ds ++ "e" ++ es
    else substring 0 1 ds ++ "." ++ substring 1 (Z.to_nat (k - 1)) ds ++ "e" ++ es.

Definition positive_to_string (x : Q) : string :=
  let n := dec_exp x in
  let (s, k) := shortest 17 1 x n in
  (* [s] has [k] digits, or is [10^k] *)
  let n' := (n + (Z.of_nat (String.length (JsString.nat_digits s)) - k))%Z in
  layout (significant s) n'.

Definition to_string (x : number) : string :=
  match Qcompare x 0 with
  | Eq => "0"
  | Gt => positive_to_string x
  | Lt => "-" ++ positive_to_string (- x)
  end.

End JsNumber.

(* ================================================================== *)
(** * 32-bit integer operations *)

Module U32.

Definition wrap (x : Z) : Z := x mod 4294967296.

(** [Math.imul], on the unsigned representative of its result. *)
Definition imul (a b : Z) : Z := wrap (wrap a * wrap b).

(** [a ^ b], [a | b] and [a >>> n] on unsigned representatives. *)
Definition xor (a b : Z) : Z := Z.lxor (wrap a) (wrap b).
Definition or (a b : Z) : Z := Z.lor (wrap a) (wrap b).
Definition shru (a n : Z) : Z := Z.shiftr (wrap a) n.

End U32.

(* ================================================================== *)
(** * core/src/prng.ts *)

Module Prng.
Import JsNumber.

(** [normalizeSeed], for an integral seed. *)
Definition normalizeSeed (seed : Z) : Z :=
  let normalized := U32.wrap seed in
  if normalized =? 0 then 1 else normalized.

Fixpoint fnv1a (hash : Z) (input : string) : Z :=
  match input with
  | EmptyString => hash
  | String c tl => fnv1a (U32.imul (U32.xor hash (JsString.charCode c)) 16777619) tl
  end.

Definition hashStringToSeed (input : string) : Z :=
  normalizeSeed (U32.wrap (fnv1a 2166136261 input)).

Definition seedFromString (value : string) : Z := hashStringToSeed value.

(** The state of a [SeededRng]. *)
Record SeededRng := mkRng { state : Z }.

Definition new (seed : Z) : SeededRng := mkRng (normalizeSeed seed).

(** [next]: the 32-bit output word and the generator after the draw.  The
    JavaScript result is the word divided by 2^32. *)
Definition next_word (r : SeededRng) : Z * SeededRng :=
  let t0 := state r + 1831565813 in
  let t1 := U32.imul (U32.xor t0 (U32.shru t0 15)) (U32.or t0 1) in
  let t2 := U32.xor t1 (U32.wrap (t1 + U32.imul (U32.xor t1 (U32.shru t1 7)) (U32.or t1 61))) in
  (U32.xor t2 (U32.shru t2 14), mkRng (U32.wrap t2)).

Definition next (r : SeededRng) : number * SeededRng :=
  let (w, r') := next_word r in
  (Qred (inject_Z w / inject_Z 4294967296), r').

Definition nextFloat (lo hi : number) (r : SeededRng) : number * SeededRng :=
  let (u, r') := next r in
  (fadd lo (fmul (fsub hi lo) u), r').

Definition nextInt (lo hi : Z) (r : SeededRng) : Z * SeededRng :=
  let lower := Z.min lo hi in
  let upper := Z.max lo hi in
  let (x, r') := nextFloat (of_int lower) (fadd (of_int upper) (of_int 1)) r in
  (floor x, r').

Fixpoint nextHex (length : nat) (r : SeededRng) : string * SeededRng :=
  match length with
  | O => ("", r)
  | S k =>
      let (d, r1) := nextInt 0 15 r in
      let (rest, r2) := nextHex k r1 in
      (String (JsString.hex_digit d) rest, r2)
  end.

(** The salt of [fork]: a number or a string. *)
Inductive Salt :=
| SaltNumber (n : Z)
| SaltString (s : string).

(** [fork]: the parent generator is left as it is. *)
Definition fork (salt : Salt) (r : SeededRng) : SeededRng :=
  let saltSeed :=
    match salt with
    | SaltNumber n => normalizeSeed n
    | SaltString s => hashStringToSeed s
    end in
  new (U32.xor (state r) saltSeed).

Definition createSeededRng (seed : Z) : SeededRng := new seed.

End Prng.

(* ================================================================== *)
(** * Objects used as records

    A JavaScript object with string keys is a list of its own properties in
    creation order, without repeated keys.  Enumeration ([Object.keys],
    [Object.entries], [JSON.stringify]) lists the array-index keys first, in
    ascending numeric order, then the other keys in creation order. *)

Module JsObject.

Section Records.
Context {V : Type}.

(** [o[key]]; [None] is [undefined]. *)
Fixpoint get (key : string) (o : list (string * V)) : option V :=
  match o with
  | [] => None
  | (k, v) :: tl => if String.eqb key k then Some v else get key tl
  end.

(** [o[key] = v]: an existing property keeps its place. *)
Fixpoint set (key : string) (v : V) (o : list (string * V)) : list (string * V) :=
  match o with
  | [] => [(key, v)]
  | (k, w) :: tl =>
      if String.eqb key k then (k, v) :: tl else (k, w) :: set key v tl
  end.

Definition is_digit (c : ascii) : bool :=
  (48 <=? JsString.charCode c) && (JsString.charCode c <=? 57).

Fixpoint all_digits (s : string) : bool :=
  match s with
  | EmptyString => true
  | String c tl => is_digit c && all_digits tl
  end.

Fixpoint decimal_value (acc : Z) (s : string) : Z :=
  match s with
  | EmptyString => acc
  | String c tl => decimal_value (10 * acc + (JsString.charCode c - 48)) tl
  end.

(** A key is an array index when it is the canonical decimal form of an
    integer from 0 to 2^32 - 2. *)
Definition array_index (key : string) : option Z :=
  match key with
  | EmptyString => None
  | String c tl =>
      if all_digits key && (negb (Ascii.eqb c "0") || String.eqb tl "") then
        let v := decimal_value 0 key in
        if v <=? 4294967294 then Some v else None
      else None
  end.

Definition is_index (kv : string * V) : bool :=
  match array_index (fst kv) with Some _ => true | None => false end.

Definition index_gtb (a b : string * V) : bool :=
  match array_index (fst a), array_index (fst b) with
  | Some i, Some j => j <? i
  | _, _ => false
  end.

(** [Object.entries]. *)
Definition entries (o : list (string * V)) : list (string * V) :=
  (JsSort.sort index_gtb (filter is_index o)
     ++ filter (fun kv => negb (is_index kv)) o)%list.

(** [Object.keys]. *)
Definition keys (o : list (string * V)) : list string := map fst (entries o).

End Records.

End JsObject.

(* ================================================================== *)
(** * JSON values, [JSON.stringify], [stableStringify] and [JSON.parse] *)

Module Json.
Import JsNumber.

Inductive json : Type :=
| JNull
| JBool (b : bool)
| JNum (n : number)
| JStr (s : string)
| JArr (items : list json)
| JObj (props : list (string * json)).

(** ** [QuoteJSONString] *)

Definition hex4 (n : Z) : string :=
  String (JsString.hex_digit (n / 4096 mod 16))
    (String (JsString.hex_digit (n / 256 mod 16))
       (String (JsString.hex_digit (n / 16 mod 16))
          (String (JsString.hex_digit (n mod 16)) ""))).

Definition quote_char (c : ascii) : string :=
  let n := JsString.charCode c in
  if n =? 8 then "\b"
  else if n =? 9 then "\t"
  else if n =? 10 then "\n"
  else if n =? 12 then "\f"
  else if n =? 13 then "\r"
  else if n =? 34 then String "\" (String c "")
  else if n =? 92 then "\\"
  else if n <? 32 then "\u" ++ hex4 n
  else String c "".

Fixpoint quote_body (s : string) : string :=
  match s with
  | EmptyString => ""
  | String c tl => quote_char c ++ quote_body tl
  end.

Definition dquote : ascii := ascii_of_N 34.

(** [JSON.stringify] of a string. *)
Definition quote (s : string) : string :=
  String dquote (quote_body s ++ String dquote "").

(** ** [JSON.stringify] without indentation *)

Fixpoint stringify (v : json) : string :=
  match v with
  | JNull => "null"
  | JBool true => "true"
  | JBool false => "false"
  | JNum n => to_string n
  | JStr s => quote s
  | JArr items => "[" ++ JsString.join "," (map stringify items) ++ "]"
  | JObj props =>
      let rendered :=
        (fix go (l : list (string * json)) : list (string * string) :=
           match l with
           | [] => []
           | (k, w) :: tl => (k, quote k ++ ":" ++ stringify w) :: go tl
           end) props in
      "{" ++ JsString.join "," (map snd (JsObject.entries rendered)) ++ "}"
  end.

(** ** core/src/utils.ts: [stableStringify]

    The default [sort()] orders the keys by code units.  [record[key]] is
    looked up in the rendered properties. *)

Definition key_gtb (a b : string) : bool := String.ltb b a.

Definition lookup (key : string) (rendered : list (string * string)) : string :=
  match JsObject.get key rendered with
  | Some s => s
  | None => "undefined"
  end.

Fixpoint stableStringify (value : json) : string :=
  match value with
  | JNull => "null"
  | JBool true => "true"
  | JBool false => "false"
  | JNum n => to_string n
  | JStr s => quote s
  | JArr items => "[" ++ JsString.join "," (map stableStringify items) ++ "]"
  | JObj record =>
      let rendered :=
        (fix go (l : list (string * json)) : list (string * string) :=
           match l with
           | [] => []
           | (k, w) :: tl => (k, stableStringify w) :: go tl
           end) record in
      let keys := JsSort.sort key_gtb (JsObject.keys record) in
      let entries := map (fun key => quote key ++ ":" ++ lookup key rendered) keys in
      "{" ++ JsString.join "," entries ++ "}"
  end.

(** ** [JSON.parse]

    A recursive-descent parser of the JSON grammar (ECMA-404).  Object
    members are stored with [JsObject.set], so that a repeated key keeps
    its first place and its last value.  An escape that denotes a code
    unit above 255 is outside the model. *)

Definition is_ws (c : ascii) : bool :=
  let n := JsString.charCode c in
  (n =? 32) || (n =? 9) || (n =? 10) || (n =? 13).

Fixpoint skip_ws (s : string) : string :=
  match s with
  | EmptyString => s
  | String c tl => if is_ws c then skip_ws tl else s
  end.

Definition hex_value (c : ascii) : option Z :=
  let n := JsString.charCode c in
  if (48 <=? n) && (n <=? 57) then Some (n - 48)
  else if (97 <=? n) && (n <=? 102) then Some (n - 87)
  else if (65 <=? n) && (n <=? 70) then Some (n - 55)
  else None.

Definition unescape (c : ascii) : option ascii :=
  let n := JsString.charCode c in
  if n =? 34 then Some c
  else if n =? 92 then Some c
  else if n =? 47 then Some c
  else if n =? 98 then Some (JsString.char_of_code 8)
  else if n =? 102 then Some (JsString.char_of_code 12)
  else if n =? 110 then Some (JsString.char_of_code 10)
  else if n =? 114 then Some (JsString.char_of_code 13)
  else if n =? 116 then Some (JsString.char_of_code 9)
  else None.

(** The characters of a string literal after its opening quote, and the
    text after its closing quote. *)
Fixpoint parse_chars (s : string) : option (string * string) :=
  match s with
  | EmptyString => None
  | String c tl =>
      let n := JsString.charCode c in
      if n =? 34 then Some ("", tl)
      else if n =? 92 then
        match tl with
        | String e tl2 =>
            if JsString.charCode e =? 117 then
              match tl2 with
              | String h1 (String h2 (String h3 (String h4 tl3))) =>
                  match hex_value h1, hex_value h2, hex_value h3, hex_value h4 with
                  | Some a, Some b, Some c', Some d =>
                      let code := ((a * 16 + b) * 16 + c') * 16 + d in
                      if code <? 256 then
                        match parse_chars tl3 with
                        | Some (str, rest) =>
                            Some (String (JsString.char_of_code code) str, rest)
                        | None => None
                        end
                      else None
                  | _, _, _, _ => None
                  end
              | _ => None
              end
            else
              match unescape e with
              | Some ch =>
                  match parse_chars tl2 with
                  | Some (str, rest) => Some (String ch str, rest)
                  | None => None
                  end
              | None => None
              end
        | EmptyString => None
        end
      else if n <? 32 then None
      else
        match parse_chars tl with
        | Some (str, rest) => Some (String c str, rest)
        | None => None
        end
  end.

(** *** Number tokens: [-? int frac? exp?] *)

Definition is_number_char (c : ascii) : bool :=
  let n := JsString.charCode c in
  ((48 <=? n) && (n <=? 57)) || (n =? 45) || (n =? 43) || (n =? 46)
  || (n =? 101) || (n =? 69).

Fixpoint span_number (s : string) : string * string :=
  match s with
  | EmptyString => ("", s)
  | String c tl =>
      if is_number_char c then
        let (tok, rest) := span_number tl in (String c tok, rest)
      else ("", s)
  end.

(** Leading digits: their value continued from [acc], their count, the rest. *)
Fixpoint take_digits (acc : Z) (count : Z) (s : string) : Z * Z * string :=
  match s with
  | EmptyString => (acc, count, s)
  | String c tl =>
      if JsObject.is_digit c
      then take_digits (10 * acc + (JsString.charCode c - 48)) (count + 1) tl
      else (acc, count, s)
  end.

Definition parse_exponent (s : string) : option Z :=
  match s with
  | EmptyString => Some 0
  | String c tl =>
      if (JsString.charCode c =? 101) || (JsString.charCode c =? 69) then
        let (neg, ds) :=
          match tl with
          | String sg tl2 =>
              if JsString.charCode sg =? 45 then (true, tl2)
              else if JsString.charCode sg =? 43 then (false, tl2)
              else (false, tl)
          | EmptyString => (false, tl)
          end in
        match take_digits 0 0 ds with
        | (e, cnt, EmptyString) =>
            if 0 <? cnt then Some (if neg then - e else e) else None
        | _ => None
        end
      else None
  end.

(** The decimal value of the token, then the binary64 nearest to it. *)
Definition parse_unsigned (s : string) : option number :=
  match s with
  | EmptyString => None
  | String c0 _ =>
      match take_digits 0 0 s with
      | (ip, icnt, rest) =>
          if (0 <? icnt) && ((icnt =? 1) || negb (Ascii.eqb c0 "0")) then
            let '(m, fcnt, rest2, okf) :=
              match rest with
              | String d tl =>
                  if JsString.charCode d =? 46 then
                    match take_digits ip 0 tl with
                    | (m, fcnt, r) => (m, fcnt, r, 0 <? fcnt)
                    end
                  else (ip, 0, rest, true)
              | EmptyString => (ip, 0, rest, true)
              end in
            if okf then
              match parse_exponent rest2 with
              | Some e => Some (binary64 (inject_Z m * ten_pow (e - fcnt)))
              | None => None
              end
            else None
          else None
      end
  end.

Definition parse_number (s : string) : option number :=
  match s with
  | String c tl =>
      if JsString.charCode c =? 45 then
        match parse_unsigned tl with
        | Some v => Some (Qred (- v))
        | None => None
        end
      else parse_unsigned s
  | EmptyString => None
  end.

Fixpoint parse_value (fuel : nat) (text : string) : option (json * string) :=
  match fuel with
  | O => None
  | S f =>
      match skip_ws text with
      | EmptyString => None
      | String c tl as s =>
          let n := JsString.charCode c in
          if n =? 110 then
            match JsString.strip_prefix "ull" tl with
            | Some rest => Some (JNull, rest)
            | None => None
            end
          else if n =? 116 then
            match JsString.strip_prefix "rue" tl with
            | Some rest => Some (JBool true, rest)
            | None => None
            end
          else if n =? 102 then
            match JsString.strip_prefix "alse" tl with
            | Some rest => Some (JBool false, rest)
            | None => None
            end
          else if n =? 34 then
            match parse_chars tl with
            | Some (str, rest) => Some (JStr str, rest)
            | None => None
            end
          else if n =? 91 then
            match skip_ws tl with
            | String b tl2 as inner =>
                if JsString.charCode b =? 93 then Some (JArr [], tl2)
                else
                  match parse_elements f inner with
                  | Some (items, rest) => Some (JArr items, rest)
                  | None => None
                  end
            | EmptyString => None
            end
          else if n =? 123 then
            match skip_ws tl with
            | String b tl2 as inner =>
                if JsString.charCode b =? 125 then Some (JObj [], tl2)
                else
                  match parse_members f [] inner with
                  | Some (props, rest) => Some (JObj props, rest)
                  | None => None
                  end
            | EmptyString => None
            end
          else if is_number_char c then
            let (tok, rest) := span_number s in
            match parse_number tok with
            | Some v => Some (JNum v, rest)
            | None => None
            end
          else None
      end
  end

with parse_elements (fuel : nat) (text : string) : option (list json * string) :=
  match fuel with
  | O => None
  | S f =>
      match parse_value f text with
      | Some (v, rest) =>
          match skip_ws rest with
          | String c tl =>
              if JsString.charCode c =? 44 then
                match parse_elements f tl with
                | Some (vs, rest') => Some (v :: vs, rest')
                | None => None
                end
              else if JsString.charCode c =? 93 then Some ([v], tl)
              else None
          | EmptyString => None
          end
      | None => None
      end
  end

with parse_members (fuel : nat) (acc : list (string * json)) (text : string)
  : option (list (string * json) * string) :=
  match fuel with
  | O => None
  | S f =>
      match skip_ws text with
      | String q tl =>
          if JsString.charCode q =? 34 then
            match parse_chars tl with
            | Some (key, rest) =>
                match skip_ws rest with
                | String colon tl2 =>
                    if JsString.charCode colon =? 58 then
                      match parse_value f tl2 with
                      | Some (v, rest2) =>
                          let acc' := JsObject.set key v acc in
                          match skip_ws rest2 with
                          | String c tl3 =>
                              if JsString.charCode c =? 44 then parse_members f acc' tl3
                              else if JsString.charCode c =? 125 then Some (acc', tl3)
                              else None
                          | EmptyString => None
                          end
                      | None => None
                      end
                    else None
                | EmptyString => None
                end
            | None => None
            end
          else None
      | EmptyString => None
      end
  end.

(** [JSON.parse]: one value, then only white space. *)
Definition parse (text : string) : option json :=
  match parse_value (S (String.length text)) text with
  | Some (v, rest) =>
      match skip_ws rest with
      | EmptyString => Some v
      | String _ _ => None
      end
  | None => None
  end.

End Json.

(* ================================================================== *)
(** * SHA-256 (FIPS 180-4), as [createHash('sha256')] of node:crypto
      computes it over the UTF-8 bytes of a string *)

Module Sha256.

(** The first 64 primes. *)
Definition primes : list Z :=
  [ 2; 3; 5; 7; 11; 13; 17; 19; 23; 29; 31; 37; 41; 43; 47; 53; 59; 61; 67; 71;
    73; 79; 83; 89; 97; 101; 103; 107; 109; 113; 127; 131; 137; 139; 149; 151;
    157; 163; 167; 173; 179; 181; 191; 193; 197; 199; 211; 223; 227; 229; 233;
    239; 241; 251; 257; 263; 269; 271; 277; 281; 283; 293; 307; 311 ].

(** The integer cube root, bit by bit from bit [n - 1] down. *)
Fixpoint cube_root (n : nat) (x acc : Z) : Z :=
  match n with
  | O => acc
  | S k =>
      let c := acc + 2 ^ Z.of_nat k in
      if c * c * c <=? x then cube_root k x c else cube_root k x acc
  end.

(** The round constants: the first 32 bits of the fractional parts of the
    cube roots of the first 64 primes. *)
Definition K : list Z :=
  map (fun p => U32.wrap (cube_root 40 (p * 2 ^ 96) 0)) primes.

(** The initial hash value: the first 32 bits of the fractional parts of the
    square roots of the first 8 primes. *)
Definition H0 : list Z :=
  map (fun p => U32.wrap (Z.sqrt (p * 2 ^ 64))) (firstn 8 primes).

Definition add32 (a b : Z) : Z := U32.wrap (a + b).

Definition rotr (x n : Z) : Z :=
  U32.wrap (Z.lor (Z.shiftr x n) (Z.shiftl x (32 - n))).

Definition ch (x y z : Z) : Z :=
  Z.lxor (Z.land x y) (Z.land (Z.lxor x 0xffffffff) z).
Definition maj (x y z : Z) : Z :=
  Z.lxor (Z.lxor (Z.land x y) (Z.land x z)) (Z.land y z).
Definition bsig0 (x : Z) : Z := Z.lxor (Z.lxor (rotr x 2) (rotr x 13)) (rotr x 22).
Definition bsig1 (x : Z) : Z := Z.lxor (Z.lxor (rotr x 6) (rotr x 11)) (rotr x 25).
Definition ssig0 (x : Z) : Z := Z.lxor (Z.lxor (rotr x 7) (rotr x 18)) (Z.shiftr x 3).
Definition ssig1 (x : Z) : Z := Z.lxor (Z.lxor (rotr x 17) (rotr x 19)) (Z.shiftr x 10).

(** UTF-8 encoding of code units below 256. *)
Fixpoint utf8 (s : string) : list Z :=
  match s with
  | EmptyString => []
  | String c tl =>
      let n := JsString.charCode c in
      if n <? 128 then n :: utf8 tl
      else Z.lor 192 (Z.shiftr n 6) :: Z.lor 128 (Z.land n 63) :: utf8 tl
  end.

Definition be_bytes (count : nat) (x : Z) : list Z :=
  map (fun i => Z.land (Z.shiftr x (8 * Z.of_nat i)) 255) (rev (seq 0 count)).

Definition pad (msg : list Z) : list Z :=
  let len := Z.of_nat (List.length msg) in
  let zeros := Z.to_nat ((55 - len) mod 64) in
  (msg ++ [128] ++ repeat 0 zeros ++ be_bytes 8 (8 * len))%list.

Fixpoint words (fuel : nat) (bytes : list Z) : list Z :=
  match fuel, bytes with
  | S f, a :: b :: c :: d :: tl =>
      (((a * 256 + b) * 256 + c) * 256 + d) :: words f tl
  | _, _ => []
  end.

(** The message schedule, most recent word first. *)
Fixpoint schedule (count : nat) (w : list Z) : list Z :=
  match count with
  | O => w
  | S c =>
      let x := add32 (add32 (ssig1 (nth 1 w 0)) (nth 6 w 0))
                     (add32 (ssig0 (nth 14 w 0)) (nth 15 w 0)) in
      schedule c (x :: w)
  end.

Definition round (s : list Z) (kw : Z * Z) : list Z :=
  match s with
  | [a; b; c; d; e; f; g; h] =>
      let t1 := add32 (add32 (add32 h (bsig1 e)) (add32 (ch e f g) (fst kw))) (snd kw) in
      let t2 := add32 (bsig0 a) (maj a b c) in
      [add32 t1 t2; a; b; c; add32 d t1; e; f; g]
  | _ => s
  end.

Definition compress (h : list Z) (block : list Z) : list Z :=
  let w := rev (schedule 48 (rev block)) in
  let s := fold_left round (combine K w) h in
  map (fun p => add32 (fst p) (snd p)) (combine h s).

Fixpoint blocks (fuel : nat) (h : list Z) (ws : list Z) : list Z :=
  match fuel, ws with
  | S f, _ :: _ => blocks f (compress h (firstn 16 ws)) (skipn 16 ws)
  | _, _ => h
  end.

Definition hex8 (x : Z) : string :=
  string_of_list_ascii
    (map (fun i => JsString.hex_digit (Z.land (Z.shiftr x (4 * Z.of_nat i)) 15))
         (rev (seq 0 8))).

Definition digest (msg : list Z) : list Z :=
  let p := pad msg in
  let ws := words (List.length p) p in
  blocks (List.length ws) H0 ws.

(** [sha256Hex] of utils.ts. *)
Definition sha256Hex (input : string) : string :=
  String.concat "" (map hex8 (digest (utf8 input))).

End Sha256.

(* ================================================================== *)
(** * core/src/types.ts *)

Module Types.
Import JsNumber Json.

Inductive QlipSolver := gurobi | cbc | highs.

Record QlipConfig := mkQlipConfig {
  solver : QlipSolver;
  time_limit_s : number;
  max_solutions : number;
  max_atoms : number }.

Record PolicyConfig := mkPolicyConfig {
  max_iters : Z;
  truth_accept_threshold : number;
  relax_order : list string;
  tighten_order : list string }.

Record CspConfig := mkCspConfig {
  workspace_dir : string;
  mcp : list (string * string);
  qlip : QlipConfig;
  policy : PolicyConfig }.

Record ChemistrySuggestion := mkSuggestion {
  cs_chem_system : string;
  cs_rationale : string;
  cs_confidence : number }.

Record ChemistryPriors := mkPriors {
  lattice_prior_symmetry : string;
  density_range : number * number;
  oxidation_state_constraints : list (string * list Z);
  prototypes : list string }.

Inductive Mode := relax | tighten.

(** [action] is [None] where the JavaScript value is [undefined]. *)
Record Adjustment := mkAdjustment {
  adj_iteration : Z;
  adj_mode : Mode;
  adj_action : option string }.

Record ConstraintsSpec := mkConstraints {
  chem_system : string;
  priors : ChemistryPriors;
  overrides : option (list (string * json));
  adjustments : option (list Adjustment) }.

(** [format] is always ['cif']. *)
Record CandidateSpec := mkCandidate {
  candidate_id : string;
  score : number;
  content : string }.

Record ValidationCheck := mkCheck {
  name : string;
  passed : bool;
  value : option number }.

Record ValidationReport := mkReport {
  vr_candidate_id : string;
  truth_score : number;
  accept : bool;
  checks : list ValidationCheck }.

Record ValidationSummary := mkSummary {
  total : Z;
  accepted : Z;
  rejected : Z;
  best_candidate_id : string;
  truth_scores : list (string * number);
  failure_histogram : list (string * Z);
  top_candidates : list (string * number) }.

Inductive Status := running | ok | error.

Record RunManifest := mkManifest {
  rm_run_id : string;
  rm_status : Status;
  rm_objective : string;
  rm_chem_system : string;
  rm_seed : Z;
  rm_created_at : string;
  rm_updated_at : string;
  rm_iteration : Z;
  rm_max_iters : Z;
  rm_selected_candidate_id : option string;
  rm_truth_score : option number;
  rm_config_snapshot : CspConfig }.

Record CspRunResult := mkRunResult {
  run_id : string;
  status : Status;
  res_workspace_dir : string;
  run_dir : string;
  selected_chemistry : string;
  chosen_candidate_id : string;
  res_truth_score : number;
  candidate_ids : list string;
  summary_hash : string;
  iteration : Z }.

Record IterationDecision := mkDecision {
  mode : Mode;
  action : option string }.

Record ExportResult := mkExport {
  er_candidate_id : string;
  er_path : string }.

Definition mode_name (m : Mode) : string :=
  match m with relax => "relax" | tighten => "tighten" end.

Definition status_name (s : Status) : string :=
  match s with running => "running" | ok => "ok" | error => "error" end.

(** The JSON object of a summary, with its properties in the order the
    source creates them. *)
Definition summary_json (s : ValidationSummary) : json :=
  JObj [ ("total", JNum (inject_Z (total s)));
         ("accepted", JNum (inject_Z (accepted s)));
         ("rejected", JNum (inject_Z (rejected s)));
         ("best_candidate_id", JStr (best_candidate_id s));
         ("truth_scores", JObj (map (fun kv => (fst kv, JNum (snd kv))) (truth_scores s)));
         ("failure_histogram",
           JObj (map (fun kv => (fst kv, JNum (inject_Z (snd kv)))) (failure_histogram s)));
         ("top_candidates",
           JArr (map (fun kv => JObj [("candidate_id", JStr (fst kv));
                                      ("truth_score", JNum (snd kv))])
                     (top_candidates s))) ].

End Types.

(* ================================================================== *)
(** * verify/src/index.ts *)

Module Verify.
Import JsNumber Types.

Definition emptyHistogram : list (string * Z) :=
  [ ("parseable", 0); ("min_distance", 0); ("density_in_range", 0);
    ("charge_neutrality_feasible", 0); ("coordination_reasonable", 0);
    ("symmetry_match", 0) ].

(** [failureHistogram[check.name] = (failureHistogram[check.name] || 0) + 1]
    for the checks that did not pass.  The counts are those of the code
    for the names the histogram starts with and for every name that
    [Object.prototype] does not define. *)
Fixpoint countFailures (cs : list ValidationCheck) (h : list (string * Z))
  : list (string * Z) :=
  match cs with
  | [] => h
  | c :: tl =>
      let h' :=
        if passed c then h
        else JsObject.set (name c)
               (match JsObject.get (name c) h with Some n => n | None => 0 end + 1) h in
      countFailures tl h'
  end.

(** The state of the loop over the reports. *)
Record Acc := mkAcc {
  truthScores : list (string * number);
  failureHistogram : list (string * Z);
  bestCandidateId : string;
  bestScore : number }.

(** One turn of the loop.  [truthScores[id] = score] adds or replaces the
    property [id]; the id [__proto__], for which the assignment creates no
    property, is outside the model. *)
Definition step (a : Acc) (report : ValidationReport) : Acc :=
  let better := gtb (truth_score report) (bestScore a) in
  mkAcc (JsObject.set (vr_candidate_id report) (truth_score report) (truthScores a))
        (countFailures (checks report) (failureHistogram a))
        (if better then vr_candidate_id report else bestCandidateId a)
        (if better then truth_score report else bestScore a).

Definition initial : Acc := mkAcc [] emptyHistogram "" (-1)%Q.

(** [a || b] on strings: the empty string is falsy. *)
Definition or_else (a b : string) : string :=
  if String.eqb a "" then b else a.

(** The comparator [(a, b) => b[1] - a[1]] is positive exactly when
    [b[1] > a[1]]: the sign of a rounded difference of two finite numbers
    is the sign of the exact difference. *)
Definition byScoreDesc (a b : string * number) : bool := gtb (snd b) (snd a).

Definition summarizeValidation (reports : list ValidationReport)
           (truthAcceptThreshold : number) : ValidationSummary :=
  let a := fold_left step reports initial in
  let accepted :=
    Z.of_nat (List.length
                (filter (fun r => geb (truth_score r) truthAcceptThreshold) reports)) in
  let n := Z.of_nat (List.length reports) in
  mkSummary n accepted (n - accepted)
    (or_else (bestCandidateId a)
             (or_else (match reports with r :: _ => vr_candidate_id r | [] => "" end) ""))
    (truthScores a)
    (failureHistogram a)
    (JsSort.sort byScoreDesc (JsObject.entries (truthScores a))).

End Verify.

(* ================================================================== *)
(** * core/src/iteration.ts *)

Module Iteration.
Import JsNumber Json Types.

(** [summary.failure_histogram.k || 0]. *)
Definition failures (summary : ValidationSummary) (k : string) : Z :=
  match JsObject.get k (failure_histogram summary) with
  | Some n => n
  | None => 0
  end.

(** [order[i]]: [undefined] outside the array. *)
Definition at_index (order : list string) (i : Z) : option string :=
  if i <? 0 then None else nth_error order (Z.to_nat i).

Definition decideIteration (summary : ValidationSummary) (policy : PolicyConfig)
           (iteration : Z) : IterationDecision :=
  let relaxFailures :=
    failures summary "density_in_range"
    + failures summary "charge_neutrality_feasible"
    + failures summary "symmetry_match" in
  let tightenFailures :=
    failures summary "min_distance" + failures summary "coordination_reasonable" in
  let mode := if relaxFailures >=? tightenFailures then relax else tighten in
  let order := match mode with relax => relax_order policy | tighten => tighten_order policy end in
  let len := Z.of_nat (List.length order) in
  let action :=
    if len >? 0 then at_index order (Z.rem iteration len)
    else match mode with
         | relax => Some "widen_lattice"
         | tighten => Some "increase_min_distance_scale"
         end in
  mkDecision mode action.

(** [{ ...next.overrides, key: typeof next.overrides?.key === 'number' ? old + step : initial }] *)
Definition bump (key : string) (step initial : number)
           (ov : option (list (string * json))) : option (list (string * json)) :=
  let o := match ov with Some o => o | None => [] end in
  let v := match JsObject.get key o with
           | Some (JNum old) => fadd old step
           | _ => initial
           end in
  Some (JsObject.set key (JNum v) o).

Definition with_priors (c : ConstraintsSpec) (p : ChemistryPriors) : ConstraintsSpec :=
  mkConstraints (chem_system c) p (overrides c) (adjustments c).

Definition with_overrides (c : ConstraintsSpec) (o : option (list (string * json)))
  : ConstraintsSpec :=
  mkConstraints (chem_system c) (priors c) o (adjustments c).

Definition with_density (p : ChemistryPriors) (r : number * number) : ChemistryPriors :=
  mkPriors (lattice_prior_symmetry p) r (oxidation_state_constraints p) (prototypes p).

Definition with_prototypes (p : ChemistryPriors) (l : list string) : ChemistryPriors :=
  mkPriors (lattice_prior_symmetry p) (density_range p) (oxidation_state_constraints p) l.

Definition applyIterationDecision (constraints : ConstraintsSpec)
           (decision : IterationDecision) (iteration : Z) : ConstraintsSpec :=
  let adjustments :=
    ((match adjustments constraints with Some l => l | None => [] end)
       ++ [mkAdjustment iteration (mode decision) (action decision)])%list in
  let next := mkConstraints (chem_system constraints) (priors constraints)
                            (overrides constraints) (Some adjustments) in
  let lo := fst (density_range (priors next)) in
  let hi := snd (density_range (priors next)) in
  match action decision with
  | Some a =>
      if String.eqb a "widen_lattice" then
        with_priors next
          (with_density (priors next) (max (lit 1 1) (fmul lo (lit 9 1)), fmul hi (lit 11 1)))
      else if String.eqb a "narrow_density" then
        with_priors next
          (with_density (priors next)
             (fmul lo (lit 105 2), max (fmul lo (lit 11 1)) (fmul hi (lit 95 2))))
      else if String.eqb a "increase_max_atoms" then
        with_overrides next (bump "max_atoms" (of_int 5) (of_int 150) (overrides next))
      else if String.eqb a "increase_min_distance_scale" then
        with_overrides next (bump "min_distance_scale" (lit 5 2) (lit 105 2) (overrides next))
      else if String.eqb a "expand_prototypes" then
        with_priors next
          (with_prototypes (priors next) (prototypes (priors next) ++ ["proto_extra"])%list)
      else if String.eqb a "restrict_prototypes" then
        with_priors next
          (with_prototypes (priors next)
             (firstn (Z.to_nat (Z.max 1 (Z.of_nat (List.length (prototypes (priors next))) - 1)))
                     (prototypes (priors next))))
      else next
  | None => next
  end.

End Iteration.

(* ================================================================== *)
(** * core/src/tool-client.ts *)

Module ToolClient.
Import JsNumber Json Types.

(** The input object of a tool call; the properties each call site sets. *)
Inductive ToolInput :=
| InSuggest (objective : string) (seed : Z)
| InFetchPriors (chem : string) (seed : Z)
| InBuildConstraints (chem : string) (p : ChemistryPriors) (ov : list (string * json))
| InRunQlip (c : ConstraintsSpec) (seed : Z) (run : string) (iteration : option Z)
| InBatchValidate (cands : list CandidateSpec) (c : ConstraintsSpec) (seed : Z)
                  (truth_threshold : number).

(** The output object of a tool call, at the type its call site gives it. *)
Inductive ToolOutput :=
| OutChemistries (chemistries : list ChemistrySuggestion)
| OutPriors (p : ChemistryPriors)
| OutConstraints (c : ConstraintsSpec)
| OutCandidates (cands : list CandidateSpec)
| OutValidation (reports : list ValidationReport) (summary : option ValidationSummary).

(** A rejected promise carries the message of its error. *)
Inductive result (A : Type) :=
| Ok (a : A)
| Err (message : string).
Arguments Ok {A} a.
Arguments Err {A} message.

(** [interface ToolClient]: one method, [call]; an implementation may keep
    state between calls. *)
Record ToolClient := mkClient {
  client_state : Type;
  call : string -> ToolInput -> client_state -> result ToolOutput * client_state }.

(** ** [RealMcpClient] *)

Definition RealMcpClient {S : Type}
           (handler : option (string -> ToolInput -> S -> result ToolOutput * S))
  : ToolClient :=
  mkClient S (fun toolName input s =>
    match handler with
    | None => (Err ("Real MCP client not configured for tool " ++ toolName), s)
    | Some h => h toolName input s
    end).

(** ** The tables of the stub *)

Definition CHEMISTRY_TABLE : list (list ChemistrySuggestion) :=
  [ [ mkSuggestion "Li-Fe-P-O" "Phosphate chemistry with stable frameworks" (lit 78 2);
      mkSuggestion "Na-Cl" "Binary ionic system for baseline CSP" (lit 64 2);
      mkSuggestion "Ti-O" "Oxide system with known polymorphs" (lit 71 2) ];
    [ mkSuggestion "Mg-Si-O" "Silicate chemistry for structural diversity" (lit 75 2);
      mkSuggestion "Al-N" "Nitride system with high symmetry" (lit 62 2);
      mkSuggestion "Ca-Ti-O" "Perovskite-forming chemistry" (lit 82 2) ];
    [ mkSuggestion "Zn-S" "Binary semiconductor baseline" (lit 7 1);
      mkSuggestion "Li-Co-O" "Layered oxide chemistry" (lit 8 1);
      mkSuggestion "Fe-S" "Transition metal sulfide system" (lit 66 2) ] ].

Definition PRIOR_TABLE : list ChemistryPriors :=
  [ mkPriors "any" (lit 28 1, lit 42 1)
      [("Li", [1]); ("Fe", [2; 3]); ("P", [5]); ("O", [-2])]
      ["olivine"; "spinel"; "perovskite"];
    mkPriors "any" (lit 31 1, of_int 5)
      [("Mg", [2]); ("Si", [4]); ("O", [-2]); ("Ca", [2]); ("Ti", [4])]
      ["perovskite"; "rutile"; "rocksalt"];
    mkPriors "any" (of_int 2, lit 36 1)
      [("Zn", [2]); ("S", [-2]); ("Li", [1]); ("Co", [3; 4]); ("Fe", [2; 3])]
      ["zincblende"; "wurtzite"; "layered"] ].

(** ** [StubToolClient] *)

Record Stub := mkStub {
  rng : Prng.SeededRng;
  truthThreshold : number }.

(** [new StubToolClient({ seed, truthThreshold })]. *)
Definition newStub (seed : Z) (truthThreshold : option number) : Stub :=
  mkStub (Prng.new seed)
         (match truthThreshold with Some t => t | None => lit 8 1 end).

Definition with_rng (s : Stub) (r : Prng.SeededRng) : Stub :=
  mkStub r (truthThreshold s).

Definition suggestChemistries (s : Stub) : list ChemistrySuggestion * Stub :=
  let (tableIndex, r) :=
    Prng.nextInt 0 (Z.of_nat (List.length CHEMISTRY_TABLE) - 1) (rng s) in
  (nth (Z.to_nat tableIndex) CHEMISTRY_TABLE [], with_rng s r).

Definition fetchPriors (s : Stub) : option ChemistryPriors * Stub :=
  let (tableIndex, r) :=
    Prng.nextInt 0 (Z.of_nat (List.length PRIOR_TABLE) - 1) (rng s) in
  (nth_error PRIOR_TABLE (Z.to_nat tableIndex), with_rng s r).

Definition buildConstraints (input : ToolInput) : option ConstraintsSpec :=
  match input with
  | InBuildConstraints chem p ov =>
      Some (mkConstraints (Verify.or_else chem "unknown") p (Some ov) None)
  | _ => None
  end.

Definition nl : string := String (ascii_of_N 10) "".

Definition candidateContent (candidateId : string) (i : Z) : string :=
  let cell := "5." ++ JsString.of_Z i ++ "0" in
  "data_" ++ candidateId ++ nl
    ++ "# CIF placeholder for " ++ candidateId ++ nl
    ++ "_cell_length_a " ++ cell ++ nl
    ++ "_cell_length_b " ++ cell ++ nl
    ++ "_cell_length_c " ++ cell ++ nl
    ++ "_cell_angle_alpha 90" ++ nl
    ++ "_cell_angle_beta 90" ++ nl
    ++ "_cell_angle_gamma 90" ++ nl.

(** The loop [for (let i = ...; i <= 5; i++)], [count] rounds from [i]. *)
Fixpoint qlipLoop (count : nat) (i : Z) (r : Prng.SeededRng)
  : list CandidateSpec * Prng.SeededRng :=
  match count with
  | O => ([], r)
  | S k =>
      let candidateId := "cand_" ++ JsString.padStart0 4 (JsString.of_Z i) in
      let (x, r1) := Prng.nextFloat (lit 2 1) (lit 95 2) r in
      let c := mkCandidate candidateId (toFixed4 x) (candidateContent candidateId i) in
      let (rest, r2) := qlipLoop k (i + 1) r1 in
      (c :: rest, r2)
  end.

Definition runQlip (s : Stub) : list CandidateSpec * Stub :=
  let (cands, r) := qlipLoop 5 1 (rng s) in
  (cands, with_rng s r).

Definition baseScores : list number :=
  [lit 85 2; lit 72 2; lit 6 1; lit 48 2; lit 35 2].

Definition stubChecks (truthScore : number) : list ValidationCheck :=
  [ mkCheck "parseable" true None;
    mkCheck "min_distance" (geb truthScore (lit 4 1)) (Some truthScore);
    mkCheck "density_in_range" (geb truthScore (lit 5 1)) (Some truthScore);
    mkCheck "charge_neutrality_feasible" (geb truthScore (lit 55 2)) (Some truthScore);
    mkCheck "coordination_reasonable" (geb truthScore (lit 65 2)) (Some truthScore);
    mkCheck "symmetry_match" (geb truthScore (lit 7 1)) (Some truthScore) ].

(** The state of [candidates.forEach] in [batchValidate]. *)
Record BatchAcc := mkBatch {
  b_rng : Prng.SeededRng;
  b_reports : list ValidationReport;
  b_truthScores : list (string * number);
  b_failureHistogram : list (string * Z);
  b_bestCandidateId : string;
  b_bestScore : number }.

(** One candidate of the loop.  As in [Verify.step], the candidate id
    [__proto__], which [truthScores[id] = score] does not record, is outside
    the model; the check names of the stub are the six of the histogram. *)
Definition batchStep (threshold : number) (a : BatchAcc)
           (ci : CandidateSpec * nat) : BatchAcc :=
  let (candidate, index) := ci in
  let (noise, r) := Prng.nextFloat (lit (-2) 2) (lit 2 2) (b_rng a) in
  let base := nth index baseScores (lit 4 1) in
  let truthScore := clamp (toFixed4 (fadd base noise)) in
  let accept := geb truthScore threshold in
  let checks := stubChecks truthScore in
  let better := gtb truthScore (b_bestScore a) in
  mkBatch r
    (b_reports a ++ [mkReport (candidate_id candidate) truthScore accept checks])%list
    (JsObject.set (candidate_id candidate) truthScore (b_truthScores a))
    (Verify.countFailures checks (b_failureHistogram a))
    (if better then candidate_id candidate else b_bestCandidateId a)
    (if better then truthScore else b_bestScore a).

Definition indexed {A : Type} (l : list A) : list (A * nat) :=
  combine l (seq 0 (List.length l)).

Definition batchValidate (candidates : list CandidateSpec) (s : Stub)
  : (list ValidationReport * ValidationSummary) * Stub :=
  let a := fold_left (batchStep (truthThreshold s)) (indexed candidates)
             (mkBatch (rng s) [] [] Verify.emptyHistogram "" (-1)%Q) in
  let reports := b_reports a in
  let accepted := Z.of_nat (List.length (filter accept reports)) in
  let n := Z.of_nat (List.length reports) in
  let summary :=
    mkSummary n accepted (n - accepted)
      (Verify.or_else (b_bestCandidateId a)
         (match reports with r :: _ => vr_candidate_id r | [] => "" end))
      (b_truthScores a)
      (b_failureHistogram a)
      (JsSort.sort Verify.byScoreDesc (JsObject.entries (b_truthScores a))) in
  ((reports, summary), with_rng s (b_rng a)).

(** [input.candidates || []]. *)
Definition input_candidates (input : ToolInput) : list CandidateSpec :=
  match input with
  | InBatchValidate cands _ _ _ => cands
  | _ => []
  end.

Definition stub_call (toolName : string) (input : ToolInput) (s : Stub)
  : result ToolOutput * Stub :=
  if String.eqb toolName "materials-data-mcp.suggest_chemistries" then
    let (l, s') := suggestChemistries s in (Ok (OutChemistries l), s')
  else if String.eqb toolName "materials-data-mcp.fetch_priors" then
    match fetchPriors s with
    | (Some p, s') => (Ok (OutPriors p), s')
    | (None, s') => (Err "malformed tool output", s')
    end
  else if String.eqb toolName "qlip-mcp.build_constraints" then
    match buildConstraints input with
    | Some c => (Ok (OutConstraints c), s)
    | None => (Err "malformed tool input", s)
    end
  else if String.eqb toolName "qlip-mcp.run_qlip" then
    let (cands, s') := runQlip s in (Ok (OutCandidates cands), s')
  else if String.eqb toolName "csp-validators-mcp.batch_validate" then
    let '((reports, summary), s') := batchValidate (input_candidates input) s in
    (Ok (OutValidation reports (Some summary)), s')
  else (Err ("StubToolClient does not support tool " ++ toolName), s).

Definition StubToolClient : ToolClient := mkClient Stub stub_call.

End ToolClient.

(* ================================================================== *)
(** * Effects: the file system, the tool client, the clock, exceptions

    An [async] function of the source is a state transformer over the world
    it acts on; a thrown error ends it and leaves the world as it is at the
    throw. *)

Module Effects.
Import JsNumber Json Types.
Export ToolClient.

Record IterationArtifact := mkIterationArtifact {
  ia_iteration : Z;
  ia_decision : IterationDecision;
  ia_summary_hash : string;
  ia_chosen_candidate_id : string;
  ia_truth_score : number }.

(** A file holds text or the value whose JSON text the source writes and
    parses back. *)
Inductive File :=
| FText (text : string)
| FManifest (m : RunManifest)
| FConstraints (c : ConstraintsSpec)
| FReport (r : ValidationReport)
| FSummary (s : ValidationSummary)
| FIteration (a : IterationArtifact).

(** Files by path; directories are implicit. *)
Definition FileSystem := list (string * File).

Record World (St : Type) := mkWorld {
  files : FileSystem;
  client : St;
  clock : nat -> string;
  tick : nat }.
Arguments mkWorld {St}.
Arguments files {St}.
Arguments client {St}.
Arguments clock {St}.
Arguments tick {St}.

Definition M (St A : Type) : Type := World St -> result A * World St.

Definition ret {St A} (a : A) : M St A := fun w => (Ok a, w).

Definition throw {St A} (message : string) : M St A := fun w => (Err message, w).

Definition bind {St A B} (m : M St A) (k : A -> M St B) : M St B :=
  fun w =>
    match m w with
    | (Ok a, w') => k a w'
    | (Err e, w') => (Err e, w')
    end.

Declare Scope effect_scope.
Delimit Scope effect_scope with eff.
Notation "x <- m ;; k" := (bind m (fun x => k))
  (at level 61, m at next level, right associativity) : effect_scope.
Notation "m ;;; k" := (bind m (fun _ => k))
  (at level 61, right associativity) : effect_scope.
Local Open Scope effect_scope.

(** [try { m } catch { h }]: the writes of [m] before the throw stay. *)
Definition try_catch {St A} (m : M St A) (h : string -> M St A) : M St A :=
  fun w =>
    match m w with
    | (Ok a, w') => (Ok a, w')
    | (Err e, w') => h e w'
    end.

Definition with_files {St} (w : World St) (fs : FileSystem) : World St :=
  mkWorld fs (client w) (clock w) (tick w).

(** [fs.writeFile], into a directory that exists: every write of the
    workflows follows the [ensureDir] of its directory, and the names
    written hold no [/]. *)
Definition writeFile {St} (path : string) (f : File) : M St unit :=
  fun w => (Ok tt, with_files w (JsObject.set path f (files w))).

(** [fs.readFile]. *)
Definition readFile {St} (path : string) : M St File :=
  fun w =>
    match JsObject.get path (files w) with
    | Some f => (Ok f, w)
    | None => (Err ("ENOENT: no such file or directory, open '" ++ path ++ "'"), w)
    end.

(** [fs.appendFile]. *)
Definition appendFile {St} (path : string) (text : string) : M St unit :=
  fun w =>
    let old := match JsObject.get path (files w) with
               | Some (FText t) => t
               | _ => ""
               end in
    (Ok tt, with_files w (JsObject.set path (FText (old ++ text)) (files w))).

(** [path.join] of a directory and a name, for segments that need no
    normalisation (no [.], [..] or empty segment). *)
Definition join (dir name : string) : string := dir ++ "/" ++ name.

(** [fs.readdir]: the names of the files directly in [dir], which are all
    its entries when [dir] holds no subdirectory. *)
Fixpoint readdir_names (dir : string) (fs : FileSystem) : list string :=
  match fs with
  | [] => []
  | (path, _) :: tl =>
      match JsString.strip_prefix (dir ++ "/") path with
      | Some name =>
          if JsString.contains_char "/" name then readdir_names dir tl
          else name :: readdir_names dir tl
      | None => readdir_names dir tl
      end
  end.

Definition readdir {St} (dir : string) : M St (list string) :=
  fun w => (Ok (readdir_names dir (files w)), w).

(** [fs.mkdir(path, { recursive: true })]. *)
Definition ensureDir {St} (path : string) : M St unit := ret tt.

(** [new Date().toISOString()]. *)
Definition now {St} : M St string :=
  fun w => (Ok (clock w (tick w)), mkWorld (files w) (client w) (clock w) (S (tick w))).

(** [await toolClient.call(toolName, input)]. *)
Definition callTool (tc : ToolClient) (toolName : string) (input : ToolInput)
  : M (client_state tc) ToolOutput :=
  fun w =>
    let (r, s) := call tc toolName input (client w) in
    (r, mkWorld (files w) s (clock w) (tick w)).

(** [for (const x of l) { await body(x) }]. *)
Fixpoint forEach {St A} (l : list A) (body : A -> M St unit) : M St unit :=
  match l with
  | [] => ret tt
  | x :: tl => body x ;;; forEach tl body
  end.

Fixpoint mapM {St A B} (l : list A) (body : A -> M St B) : M St (list B) :=
  match l with
  | [] => ret []
  | x :: tl => y <- body x ;; ys <- mapM tl body ;; ret (y :: ys)
  end.

End Effects.

(* ================================================================== *)
(** * core/src/artifacts.ts *)

Module Artifacts.
Import JsNumber Json Types.
Export Effects.
Local Open Scope effect_scope.

Record RunPaths := mkRunPaths {
  runDir : string;
  manifestPath : string;
  constraintsPath : string;
  eventsPath : string;
  candidatesDir : string;
  validationDir : string;
  exportsDir : string }.

Definition getRunPaths (workspaceDir runId : string) : RunPaths :=
  let runDir := join (join workspaceDir "runs") runId in
  mkRunPaths runDir
    (join runDir "run_manifest.json")
    (join runDir "constraints.json")
    (join runDir "events.jsonl")
    (join runDir "candidates")
    (join runDir "validation")
    (join runDir "exports").

Section Store.
Context {St : Type}.

Definition ensureRunDirectories (paths : RunPaths) : M St unit :=
  ensureDir (runDir paths) ;;;
  ensureDir (candidatesDir paths) ;;;
  ensureDir (validationDir paths) ;;;
  ensureDir (exportsDir paths).

Definition appendEvent (paths : RunPaths) (event : json) : M St unit :=
  ensureDir (runDir paths) ;;;
  appendFile (eventsPath paths) (stringify event ++ nl).

Definition writeManifest (paths : RunPaths) (manifest : RunManifest) : M St unit :=
  writeFile (manifestPath paths) (FManifest manifest).

Definition writeConstraints (paths : RunPaths) (constraints : ConstraintsSpec) : M St unit :=
  writeFile (constraintsPath paths) (FConstraints constraints).

Definition writeCandidates (paths : RunPaths) (candidates : list CandidateSpec) : M St unit :=
  ensureDir (candidatesDir paths) ;;;
  forEach candidates (fun candidate =>
    writeFile (join (candidatesDir paths) (candidate_id candidate ++ ".cif"))
              (FText (content candidate))).

Definition writeValidationReports (paths : RunPaths) (reports : list ValidationReport)
           (summary : ValidationSummary) : M St unit :=
  ensureDir (validationDir paths) ;;;
  forEach reports (fun report =>
    writeFile (join (validationDir paths) ("report_" ++ vr_candidate_id report ++ ".json"))
              (FReport report)) ;;;
  writeFile (join (validationDir paths) "summary.json") (FSummary summary).

Definition writeIterationArtifact (paths : RunPaths) (iteration : Z)
           (data : IterationArtifact) : M St unit :=
  writeFile (join (runDir paths) ("iteration_" ++ JsString.of_Z iteration ++ ".json"))
            (FIteration data).

Definition writeExports (paths : RunPaths)
           (exportsList : list (string * string * string)) : M St unit :=
  ensureDir (exportsDir paths) ;;;
  forEach exportsList (fun entry =>
    let '(candidate_id, content, extension) := entry in
    writeFile (join (exportsDir paths) (candidate_id ++ "." ++ extension)) (FText content)).

Fixpoint cif_stems (names : list string) : list string :=
  match names with
  | [] => []
  | n :: tl =>
      match JsString.strip_suffix ".cif" n with
      | Some stem => stem :: cif_stems tl
      | None => cif_stems tl
      end
  end.

Definition listCandidateIds (paths : RunPaths) : M St (list string) :=
  try_catch
    (entries <- readdir (candidatesDir paths) ;;
     ret (JsSort.sort key_gtb (cif_stems entries)))
    (fun _ => ret []).

(** A file read as text; a JSON file read as text is outside the model. *)
Definition readCandidateContent (paths : RunPaths) (candidateId : string) : M St string :=
  f <- readFile (join (candidatesDir paths) (candidateId ++ ".cif")) ;;
  match f with
  | FText t => ret t
  | _ => throw "unexpected file contents"
  end.

Definition readValidationSummary (paths : RunPaths) : M St ValidationSummary :=
  f <- readFile (join (validationDir paths) "summary.json") ;;
  match f with
  | FSummary s => ret s
  | _ => throw "Unexpected token in JSON"
  end.

Definition readConstraints (paths : RunPaths) : M St ConstraintsSpec :=
  f <- readFile (constraintsPath paths) ;;
  match f with
  | FConstraints c => ret c
  | _ => throw "Unexpected token in JSON"
  end.

Definition readManifest (paths : RunPaths) : M St RunManifest :=
  f <- readFile (manifestPath paths) ;;
  match f with
  | FManifest m => ret m
  | _ => throw "Unexpected token in JSON"
  end.

End Store.

End Artifacts.

(* ================================================================== *)
(** * workflows/src/index.ts *)

Module Workflows.
Import JsNumber Json Types.
Export Artifacts.
Local Open Scope effect_scope.

Record DiscoverInput := mkDiscoverInput {
  di_objective : string;
  di_chem_system : option string;
  di_workspace_dir : string;
  di_seed : Z;
  di_config : CspConfig }.

(** [IterateInput] and [ValidateInput]. *)
Record RunInput := mkRunInput {
  ri_run_id : string;
  ri_workspace_dir : string;
  ri_seed : Z;
  ri_config : CspConfig }.

Inductive ExportFormat := cif | poscar.

Record ExportInput := mkExportInput {
  ei_run_id : string;
  ei_workspace_dir : string;
  ei_format : ExportFormat;
  ei_top_k : Z }.

(** The seed is a safe integer (below 2^53 in absolute value), which the
    template literal prints with all its decimal digits. *)
Definition createRunId (seed : Z) (objective : string) : string :=
  let rng := Prng.new (U32.xor seed (Prng.seedFromString objective)) in
  "run_" ++ JsString.of_Z seed ++ "_" ++ fst (Prng.nextHex 8 rng).

Definition computeSummaryHash (summary : ValidationSummary) : string :=
  Sha256.sha256Hex (stableStringify (summary_json summary)).

Definition selectChemistry (suggestions : option (list ChemistrySuggestion)) (seed : Z)
  : result string :=
  match suggestions with
  | None | Some [] => Ok "unknown"
  | Some l =>
      let rng := Prng.new (U32.xor seed 0x3f1c2b) in
      let index := fst (Prng.nextInt 0 (Z.of_nat (List.length l) - 1) rng) in
      match Iteration.at_index (map cs_chem_system l) index with
      | Some c => Ok c
      | None => Err "Cannot read properties of undefined (reading 'chem_system')"
      end
  end.

Definition lift {St A} (r : result A) : M St A :=
  match r with
  | Ok a => ret a
  | Err e => throw e
  end.

(** A string option as a condition: [undefined] and [''] are falsy. *)
Definition truthy (s : option string) : option string :=
  match s with
  | Some "" | None => None
  | Some v => Some v
  end.

Definition solver_name (s : QlipSolver) : string :=
  match s with gurobi => "gurobi" | cbc => "cbc" | highs => "highs" end.

(** [summary.truth_scores[chosenCandidateId] ?? 0]. *)
Definition truthScoreOf (summary : ValidationSummary) : number :=
  match JsObject.get (best_candidate_id summary) (truth_scores summary) with
  | Some t => t
  | None => 0%Q
  end.

Section Engine.
Variable tc : ToolClient.
Local Abbreviation St := (client_state tc).

(** An output of another shape than the one asserted at the call site
    is treated as a failed call. *)
Definition malformed {A} : M St A := throw "malformed tool output".

Definition ensureManifest (paths : RunPaths) (manifest : RunManifest) : M St unit :=
  writeManifest paths manifest ;;;
  appendEvent paths (JObj [ ("event", JStr "run_manifest");
                            ("run_id", JStr (rm_run_id manifest));
                            ("status", JStr (status_name (rm_status manifest))) ]).

Definition batchValidateCall (candidates : list CandidateSpec)
           (constraints : ConstraintsSpec) (seed : Z) (config : CspConfig)
  : M St (list ValidationReport * option ValidationSummary) :=
  out <- callTool tc "csp-validators-mcp.batch_validate"
           (InBatchValidate candidates constraints seed
              (truth_accept_threshold (policy config))) ;;
  match out with
  | OutValidation reports summary => ret (reports, summary)
  | _ => malformed
  end.

Definition runQlipCall (constraints : ConstraintsSpec) (seed : Z) (runId : string)
           (iteration : option Z) : M St (list CandidateSpec) :=
  out <- callTool tc "qlip-mcp.run_qlip" (InRunQlip constraints seed runId iteration) ;;
  match out with
  | OutCandidates l => ret l
  | _ => malformed
  end.

Definition runCspDiscover (input : DiscoverInput) : M St CspRunResult :=
  let runId := createRunId (di_seed input) (di_objective input) in
  let paths := getRunPaths (di_workspace_dir input) runId in
  ensureRunDirectories paths ;;;
  now_ <- now ;;
  let manifest :=
    mkManifest runId running (di_objective input)
      (match truthy (di_chem_system input) with Some c => c | None => "pending" end)
      (di_seed input) now_ now_ 0 (max_iters (policy (di_config input)))
      None None (di_config input) in
  ensureManifest paths manifest ;;;
  appendEvent paths (JObj [ ("event", JStr "run_started");
                            ("run_id", JStr runId);
                            ("objective", JStr (di_objective input)) ]) ;;;
  suggestions <-
    match truthy (di_chem_system input) with
    | Some c => ret (Some [mkSuggestion c "provided" 1%Q])
    | None =>
        out <- callTool tc "materials-data-mcp.suggest_chemistries"
                 (InSuggest (di_objective input) (di_seed input)) ;;
        match out with
        | OutChemistries l => ret (Some l)
        | _ => ret None
        end
    end ;;
  selectedChemistry <-
    match truthy (di_chem_system input) with
    | Some c => ret c
    | None => lift (selectChemistry suggestions (di_seed input))
    end ;;
  priorsOut <- callTool tc "materials-data-mcp.fetch_priors"
                 (InFetchPriors selectedChemistry (di_seed input)) ;;
  priors_ <- match priorsOut with OutPriors p => ret p | _ => malformed end ;;
  constraintsOut <-
    callTool tc "qlip-mcp.build_constraints"
      (InBuildConstraints selectedChemistry priors_
         [ ("solver", JStr (solver_name (solver (qlip (di_config input)))));
           ("max_atoms", JNum (max_atoms (qlip (di_config input)))) ]) ;;
  constraints <- match constraintsOut with OutConstraints c => ret c | _ => malformed end ;;
  writeConstraints paths constraints ;;;
  candidates <- runQlipCall constraints (di_seed input) runId None ;;
  writeCandidates paths candidates ;;;
  validation <- batchValidateCall candidates constraints (di_seed input) (di_config input) ;;
  let summary := match snd validation with
    | Some supplied => supplied
    | None => Verify.summarizeValidation (fst validation)
                (truth_accept_threshold (policy (di_config input)))
    end in
  writeValidationReports paths (fst validation) summary ;;;
  let summaryHash := computeSummaryHash summary in
  let chosenCandidateId := best_candidate_id summary in
  let truthScore := truthScoreOf summary in
  updated_at <- now ;;
  let updatedManifest :=
    mkManifest (rm_run_id manifest) ok (rm_objective manifest) selectedChemistry
      (rm_seed manifest) (rm_created_at manifest) updated_at (rm_iteration manifest)
      (rm_max_iters manifest) (Some chosenCandidateId) (Some truthScore)
      (rm_config_snapshot manifest) in
  ensureManifest paths updatedManifest ;;;
  ret (mkRunResult runId ok (di_workspace_dir input) (runDir paths) selectedChemistry
         chosenCandidateId truthScore (map candidate_id candidates) summaryHash 0).

Definition runCspIterate (input : RunInput) : M St CspRunResult :=
  let paths := getRunPaths (ri_workspace_dir input) (ri_run_id input) in
  manifest <- readManifest paths ;;
  previousSummary <- readValidationSummary paths ;;
  previousConstraints <- readConstraints paths ;;
  let nextIteration := rm_iteration manifest + 1 in
  if nextIteration >? max_iters (policy (ri_config input)) then
    throw ("Max iterations reached (" ++ JsString.of_Z (rm_iteration manifest) ++ "/"
             ++ JsString.of_Z (max_iters (policy (ri_config input))) ++ ")")
  else
    let decision :=
      Iteration.decideIteration previousSummary (policy (ri_config input)) nextIteration in
    let nextConstraints :=
      Iteration.applyIterationDecision previousConstraints decision nextIteration in
    writeConstraints paths nextConstraints ;;;
    candidates <- runQlipCall nextConstraints (ri_seed input) (ri_run_id input)
                    (Some nextIteration) ;;
    writeCandidates paths candidates ;;;
    validation <- batchValidateCall candidates nextConstraints (ri_seed input)
                    (ri_config input) ;;
    let summary := match snd validation with
    | Some supplied => supplied
    | None => Verify.summarizeValidation (fst validation)
                (truth_accept_threshold (policy (ri_config input)))
    end in
    writeValidationReports paths (fst validation) summary ;;;
    let summaryHash := computeSummaryHash summary in
    let chosenCandidateId := best_candidate_id summary in
    let truthScore := truthScoreOf summary in
    writeIterationArtifact paths nextIteration
      (mkIterationArtifact nextIteration decision summaryHash chosenCandidateId truthScore) ;;;
    updated_at <- now ;;
    let updatedManifest :=
      mkManifest (rm_run_id manifest) ok (rm_objective manifest) (rm_chem_system manifest)
        (rm_seed manifest) (rm_created_at manifest) updated_at nextIteration
        (rm_max_iters manifest) (Some chosenCandidateId) (Some truthScore)
        (rm_config_snapshot manifest) in
    ensureManifest paths updatedManifest ;;;
    ret (mkRunResult (ri_run_id input) ok (ri_workspace_dir input) (runDir paths)
           (rm_chem_system manifest) chosenCandidateId truthScore
           (map candidate_id candidates) summaryHash nextIteration).

Definition runCspValidate (input : RunInput) : M St (ValidationSummary * string) :=
  let paths := getRunPaths (ri_workspace_dir input) (ri_run_id input) in
  constraints <- readConstraints paths ;;
  candidateIds <- listCandidateIds paths ;;
  candidates <- mapM candidateIds (fun candidateId =>
                  content <- readCandidateContent paths candidateId ;;
                  ret (mkCandidate candidateId 0%Q content)) ;;
  validation <- batchValidateCall candidates constraints (ri_seed input) (ri_config input) ;;
  let summary := match snd validation with
    | Some supplied => supplied
    | None => Verify.summarizeValidation (fst validation)
                (truth_accept_threshold (policy (ri_config input)))
    end in
  writeValidationReports paths (fst validation) summary ;;;
  ret (summary, computeSummaryHash summary).

Definition extension_of (f : ExportFormat) : string :=
  match f with poscar => "poscar" | cif => "cif" end.

Definition exportedContent (f : ExportFormat) (candidateId content : string) : string :=
  match f with
  | poscar => "# POSCAR placeholder for " ++ candidateId ++ nl ++ content
  | cif => content
  end.

(** The order of the candidates: the ranking of summary.json, the
    listing of the candidates directory when it cannot be read. *)
Definition candidateOrder (paths : RunPaths) : M St (list string) :=
  try_catch
    (summary <- readValidationSummary paths ;;
     ret (map fst (top_candidates summary)))
    (fun _ => listCandidateIds paths).

Definition runCspExport (input : ExportInput) : M St (list ExportResult) :=
  let paths := getRunPaths (ei_workspace_dir input) (ei_run_id input) in
  order <- candidateOrder paths ;;
  let selected := firstn (Z.to_nat (Z.max 1 (ei_top_k input))) order in
  exported <- mapM selected (fun candidateId =>
                content <- readCandidateContent paths candidateId ;;
                ret (candidateId,
                     exportedContent (ei_format input) candidateId content,
                     extension_of (ei_format input))) ;;
  writeExports paths exported ;;;
  ret (map (fun e => let '(candidateId, _, extension) := e in
                     mkExport candidateId
                       (exportsDir paths ++ "/" ++ candidateId ++ "." ++ extension))
           exported).

End Engine.

End Workflows.

(* ================================================================== *)
(** * cli/src/index.ts

    [runCspCli] from the point where the arguments are parsed and the
    configuration is resolved: [CliOptions] holds what the function reads
    from the parsed flags. *)

Module Cli.
Import JsNumber Json Types.
Export Workflows.
Local Open Scope effect_scope.

Record CliOptions := mkCliOptions {
  command : string;
  help : bool;
  seed : Z;
  dryRun : bool;
  objective : option string;
  chemSystemRaw : option string;
  runId : option string;
  topK : option Z;
  format : option string;
  workspaceDir : string;
  config : CspConfig }.

Definition CSP_COMMANDS : list string :=
  ["csp:discover"; "csp:iterate"; "csp:validate"; "csp:export"].

(** [writeJson]: the chunk written to stdout. *)
Definition writeJson (payload : json) : string := stringify payload ++ nl.

Definition writeError (command message : string) (exitCode : Z) : string :=
  writeJson (JObj [ ("command", JStr command); ("status", JStr "error");
                    ("error", JStr message); ("exit_code", JNum (inject_Z exitCode)) ]).

(** [String.prototype.split(',')]. *)
Fixpoint split_comma (s : string) : list string :=
  match s with
  | EmptyString => [""]
  | String c tl =>
      if Ascii.eqb c "," then "" :: split_comma tl
      else match split_comma tl with
           | hd :: rest => String c hd :: rest
           | [] => [String c ""]
           end
  end.

Definition is_space (c : ascii) : bool :=
  let n := JsString.charCode c in
  ((9 <=? n) && (n <=? 13)) || (n =? 32) || (n =? 160).

Fixpoint trim_start (s : string) : string :=
  match s with
  | EmptyString => s
  | String c tl => if is_space c then trim_start tl else s
  end.

Definition reverse (s : string) : string :=
  string_of_list_ascii (rev (list_ascii_of_string s)).

(** [String.prototype.trim]. *)
Definition trim (s : string) : string :=
  reverse (trim_start (reverse (trim_start s))).

Definition chemSystemOf (raw : option string) : option string :=
  match truthy raw with
  | Some r =>
      Some (JsString.join "-"
              (filter (fun part => negb (String.eqb part "")) (map trim (split_comma r))))
  | None => None
  end.

(** [l.slice(0, k)]. *)
Definition slice0 {A} (k : Z) (l : list A) : list A :=
  if k <? 0 then firstn (Z.to_nat (Z.max 0 (Z.of_nat (List.length l) + k))) l
  else firstn (Z.to_nat k) l.

(** [{ command, status: 'ok', ...result }]. *)
Definition runResultJson (command : string) (r : CspRunResult) : json :=
  JObj [ ("command", JStr command);
         ("status", JStr (status_name (status r)));
         ("run_id", JStr (run_id r));
         ("workspace_dir", JStr (res_workspace_dir r));
         ("run_dir", JStr (run_dir r));
         ("selected_chemistry", JStr (selected_chemistry r));
         ("chosen_candidate_id", JStr (chosen_candidate_id r));
         ("truth_score", JNum (res_truth_score r));
         ("candidate_ids", JArr (map JStr (candidate_ids r)));
         ("summary_hash", JStr (summary_hash r));
         ("iteration", JNum (inject_Z (iteration r))) ].

Definition rankedJson (l : list (string * number)) : json :=
  JArr (map (fun kv => JObj [("candidate_id", JStr (fst kv)); ("truth_score", JNum (snd kv))]) l).

Definition formatOf (f : option string) : ExportFormat :=
  match f with
  | Some s => if String.eqb s "poscar" then poscar else cif
  | None => cif
  end.

Definition or20 (k : option Z) : Z := match k with Some n => n | None => 20 end.

Section Dispatch.
Variable tc : ToolClient.
Local Abbreviation St := (client_state tc).

(** The [switch] of [runCspCli]: the exit code and what is written. *)
Definition commands (o : CliOptions) : M St (Z * string) :=
  if String.eqb (command o) "csp:discover" then
    match truthy (objective o) with
    | None => ret (1, writeError (command o) "Missing required --objective" 1)
    | Some obj =>
        r <- runCspDiscover tc
               (mkDiscoverInput obj (chemSystemOf (chemSystemRaw o)) (workspaceDir o)
                  (seed o) (config o)) ;;
        ret (0, writeJson (runResultJson (command o) r))
    end
  else if String.eqb (command o) "csp:iterate" then
    match truthy (runId o) with
    | None => ret (1, writeError (command o) "Missing required --run-id" 1)
    | Some id =>
        r <- runCspIterate tc (mkRunInput id (workspaceDir o) (seed o) (config o)) ;;
        ret (0, writeJson (runResultJson (command o) r))
    end
  else if String.eqb (command o) "csp:validate" then
    match truthy (runId o) with
    | None => ret (1, writeError (command o) "Missing required --run-id" 1)
    | Some id =>
        r <- runCspValidate tc (mkRunInput id (workspaceDir o) (seed o) (config o)) ;;
        ret (0, writeJson
                  (JObj [ ("command", JStr (command o)); ("status", JStr "ok");
                          ("run_id", JStr id);
                          ("workspace_dir", JStr (workspaceDir o));
                          ("summary_hash", JStr (snd r));
                          ("best_candidate_id", JStr (best_candidate_id (fst r)));
                          ("top_k", JNum (inject_Z (or20 (topK o))));
                          ("top_candidates",
                            rankedJson (slice0 (or20 (topK o)) (top_candidates (fst r)))) ]))
    end
  else if String.eqb (command o) "csp:export" then
    match truthy (runId o) with
    | None => ret (1, writeError (command o) "Missing required --run-id" 1)
    | Some id =>
        l <- runCspExport tc
               (mkExportInput id (workspaceDir o) (formatOf (format o)) (or20 (topK o))) ;;
        ret (0, writeJson
                  (JObj [ ("command", JStr (command o)); ("status", JStr "ok");
                          ("run_id", JStr id);
                          ("workspace_dir", JStr (workspaceDir o));
                          ("format", JStr (extension_of (formatOf (format o))));
                          ("top_k", JNum (inject_Z (or20 (topK o))));
                          ("exports",
                            JArr (map (fun e => JObj [ ("candidate_id", JStr (er_candidate_id e));
                                                       ("path", JStr (er_path e)) ]) l)) ]))
    end
  else ret (1, writeError (command o) ("Unsupported command " ++ command o) 1).

(** [try { switch ... } catch (error) { writeError(...); return { exitCode: 1 } }]. *)
Definition guarded (o : CliOptions) : M St (Z * string) :=
  try_catch (commands o) (fun message => ret (1, writeError (command o) message 1)).

End Dispatch.

(** ** [parseArgs]

    The value of a flag is a string or [true].  The flags are an object:
    a flag set twice keeps its place and its last value (the key
    [__proto__] is outside the model). *)
Inductive FlagValue :=
| FlagString (s : string)
| FlagTrue.

(** [s.startsWith(pre)]. *)
Definition startsWith (pre s : string) : bool :=
  match JsString.strip_prefix pre s with
  | Some _ => true
  | None => false
  end.

(** The text before the first [=], and the text after it when there is one. *)
Fixpoint until_equals (s : string) : string * option string :=
  match s with
  | EmptyString => ("", None)
  | String c tl =>
      if Ascii.eqb c "=" then ("", Some tl)
      else let (k, rest) := until_equals tl in (String c k, rest)
  end.

(** [s.split('=', 2)]: the first piece, and the second one when there is
    an [=]; what follows a second [=] is dropped. *)
Definition split_equals (s : string) : string * option string :=
  let (rawKey, rest) := until_equals s in
  (rawKey, match rest with
           | Some r => Some (fst (until_equals r))
           | None => None
           end).

(** [arg.replace(/^-+/, '')]. *)
Fixpoint strip_dashes (s : string) : string :=
  match s with
  | String c tl => if Ascii.eqb c "-" then strip_dashes tl else s
  | EmptyString => s
  end.

(** [arg.slice(2)]. *)
Definition slice2 (s : string) : string :=
  match s with
  | String _ (String _ tl) => tl
  | _ => ""
  end.

(** The loop of [parseArgs], from the argument at [i] on. *)
Fixpoint parse_loop (args : list string) (flags : list (string * FlagValue))
         (positionals : list string) : list (string * FlagValue) * list string :=
  match args with
  | [] => (flags, positionals)
  | arg :: rest =>
      if startsWith "--" arg then
        match split_equals (slice2 arg) with
        | (rawKey, Some rawValue) =>
            parse_loop rest (JsObject.set rawKey (FlagString rawValue) flags) positionals
        | (rawKey, None) =>
            match rest with
            | next :: rest' =>
                if negb (String.eqb next "") && negb (startsWith "-" next)
                then parse_loop rest' (JsObject.set rawKey (FlagString next) flags) positionals
                else parse_loop rest (JsObject.set rawKey FlagTrue flags) positionals
            | [] => parse_loop rest (JsObject.set rawKey FlagTrue flags) positionals
            end
        end
      else if startsWith "-" arg then
        parse_loop rest (JsObject.set (strip_dashes arg) FlagTrue flags) positionals
      else parse_loop rest flags (positionals ++ [arg])%list
  end.

Record ParsedArgs := mkParsedArgs {
  pa_command : option string;
  pa_flags : list (string * FlagValue);
  pa_positionals : list string }.

Definition parseArgs (args : list string) : ParsedArgs :=
  let (flags, positionals) := parse_loop args [] [] in
  mkParsedArgs (hd_error positionals) flags (tl positionals).

(** [getWorkspaceDir]; [cwd] is [process.cwd()]. *)
Definition getWorkspaceDir (flags : list (string * FlagValue)) (config : CspConfig)
           (cwd : string) : string :=
  match JsObject.get "workspace" flags with
  | Some (FlagString s) =>
      if negb (String.eqb s "") then s
      else if negb (String.eqb (workspace_dir config) "") then workspace_dir config else cwd
  | _ => if negb (String.eqb (workspace_dir config) "") then workspace_dir config else cwd
  end.

Definition outcome {St} (r : result (Z * string) * World St) : Z * string * FileSystem :=
  match r with
  | (Ok (code, out), w) => (code, out, files w)
  | (Err _, w) => (1, "", files w)
  end.

(** The exit code, the text on stdout and the files after the command. *)
Definition runCspCli (o : CliOptions) (fs : FileSystem) (clock : nat -> string)
  : Z * string * FileSystem :=
  if negb (existsb (String.eqb (command o)) CSP_COMMANDS) then (0, "", fs)
  else if help o then
    (0, writeJson (JObj [ ("command", JStr (command o)); ("status", JStr "ok");
                          ("help", JStr ("Usage: " ++ command o ++ " [options]")) ]), fs)
  else if dryRun o then
    outcome (guarded StubToolClient o
               (mkWorld fs (newStub (seed o) (Some (truth_accept_threshold (policy (config o)))))
                        clock 0%nat))
  else
    outcome (guarded (RealMcpClient (S := unit) None) o (mkWorld fs tt clock 0%nat)).

End Cli.

(* ================================================================== *)
(** * The iteration policy *)

Module IterationFacts.
Import JsNumber Json Types Iteration.


(** The sums the policy compares. *)
Definition relaxFailures (summary : ValidationSummary) : Z :=
  failures summary "density_in_range"
  + failures summary "charge_neutrality_feasible"
  + failures summary "symmetry_match".

Definition tightenFailures (summary : ValidationSummary) : Z :=
  failures summary "min_distance" + failures summary "coordination_reasonable".





Definition default_policy : PolicyConfig :=
  mkPolicyConfig 5 (lit 8 1)
    [ "widen_lattice"; "relax_symmetry"; "expand_oxidation_states";
      "increase_max_atoms"; "expand_prototypes" ]
    [ "increase_min_distance_scale"; "narrow_density";
      "restrict_oxidation_states"; "restrict_prototypes" ].


Definition adjustments_of (c : ConstraintsSpec) : list Adjustment :=
  match adjustments c with Some l => l | None => [] end.

Lemma applyIterationDecision_adjustments c d n :
  adjustments (applyIterationDecision c d n)
  = Some (adjustments_of c ++ [mkAdjustment n (mode d) (action d)])%list.
Proof.
  unfold applyIterationDecision, adjustments_of.
  destruct (action d) as [a|]; [|reflexivity].
  repeat match goal with
         | |- context [if ?b then _ else _] => destruct b
         end; reflexivity.
Qed.

(** The adjustments after applying the decisions of iterations
    [n, n+1, ...] in turn. *)
Fixpoint iterate (c : ConstraintsSpec) (n : Z) (ds : list IterationDecision)
  : ConstraintsSpec :=
  match ds with
  | [] => c
  | d :: tl => iterate (applyIterationDecision c d n) (n + 1) tl
  end.

Lemma iterate_adjustments ds : forall c n,
  exists added,
    adjustments_of (iterate c n ds) = (adjustments_of c ++ added)%list
    /\ List.length added = List.length ds.
Proof.
  induction ds as [|d tl IH]; intros c n; cbn [iterate].
  - exists []. now rewrite app_nil_r.
  - destruct (IH (applyIterationDecision c d n) (n + 1)) as [added [E L]].
    exists (mkAdjustment n (mode d) (action d) :: added). split.
    + rewrite E. unfold adjustments_of at 1.
      rewrite applyIterationDecision_adjustments, <- app_assoc. reflexivity.
    + cbn [List.length]. now rewrite L.
Qed.

(** C8.  [applyIterationDecision] returns a spec whose adjustments are the
    input's adjustments followed by the one entry [{iteration: n, mode,
    action}]: every earlier entry keeps its position and its value, the
    length grows by one, and over any sequence of iterations the list only
    grows at its end, by one entry per iteration. *)
Theorem adjustments_append_only (c : ConstraintsSpec) (d : IterationDecision) (n : Z) :
  adjustments (applyIterationDecision c d n)
  = Some (adjustments_of c ++ [mkAdjustment n (mode d) (action d)])%list
  /\ (forall k a, nth_error (adjustments_of c) k = Some a ->
                  nth_error (adjustments_of (applyIterationDecision c d n)) k = Some a)
  /\ List.length (adjustments_of (applyIterationDecision c d n))
     = S (List.length (adjustments_of c))
  /\ (forall ds, exists added,
         adjustments_of (iterate c n ds) = (adjustments_of c ++ added)%list
         /\ List.length added = List.length ds).
Proof.
  pose proof (applyIterationDecision_adjustments c d n) as E.
  assert (E' : adjustments_of (applyIterationDecision c d n)
               = (adjustments_of c ++ [mkAdjustment n (mode d) (action d)])%list).
  { unfold adjustments_of at 1. now rewrite E. }
  repeat split.
  - exact E.
  - intros k a H. rewrite E'. rewrite nth_error_app1; [exact H|].
    apply nth_error_Some. congruence.
  - rewrite E', length_app. cbn. lia.
  - intro ds. apply iterate_adjustments.
Qed.

End IterationFacts.

(* ================================================================== *)
(** * Reasoning about effects and files *)

Module EffectFacts.
Import JsNumber Json Types.
Export Workflows.
Local Open Scope effect_scope.

Lemma append_assoc (a b c : string) : ((a ++ b) ++ c = a ++ (b ++ c))%string.
Proof. induction a as [|x a IH]; cbn; [reflexivity | now rewrite IH]. Qed.

Lemma append_cancel_l (a x y : string) : (a ++ x = a ++ y)%string -> x = y.
Proof. induction a as [|c a IH]; cbn; intro H; [exact H | injection H as H; auto]. Qed.

(** Two paths under a common directory differ when their tails do. *)
Ltac path_neq :=
  let H := fresh "H" in
  intro H;
  unfold join in H; cbn [getRunPaths runDir manifestPath constraintsPath eventsPath
                         candidatesDir validationDir exportsDir] in H;
  unfold join in H;
  repeat rewrite append_assoc in H;
  repeat first [ discriminate H
               | apply append_cancel_l in H
               | progress (cbn [append] in H)
               | injection H as H ].

Section Files.
Context {V : Type}.

Lemma get_set_same (k : string) (v : V) (o : list (string * V)) :
  JsObject.get k (JsObject.set k v o) = Some v.
Proof.
  induction o as [|[k' w] tl IH]; cbn.
  - now rewrite String.eqb_refl.
  - destruct (String.eqb k k') eqn:E; cbn; rewrite E; [reflexivity | exact IH].
Qed.

Lemma get_set_other (k k' : string) (v : V) (o : list (string * V)) :
  k <> k' -> JsObject.get k (JsObject.set k' v o) = JsObject.get k o.
Proof.
  intro N. induction o as [|[q w] tl IH]; cbn.
  - apply String.eqb_neq in N. now rewrite N.
  - destruct (String.eqb k' q) eqn:E; cbn.
    + apply String.eqb_eq in E. subst q.
      apply String.eqb_neq in N. now rewrite N.
    + destruct (String.eqb k q); [reflexivity | exact IH].
Qed.
End Files.

Section Monad.
Context {St : Type}.

Lemma bind_ok {A B} (m : M St A) (k : A -> M St B) w b w' :
  bind m k w = (Ok b, w') ->
  exists a w1, m w = (Ok a, w1) /\ k a w1 = (Ok b, w').
Proof.
  unfold bind. destruct (m w) as [[a|e] w1]; intro H; [eauto | discriminate].
Qed.

Lemma bind_err {A B} (m : M St A) (k : A -> M St B) w e w' :
  bind m k w = (Err e, w') ->
  m w = (Err e, w') \/ exists a w1, m w = (Ok a, w1) /\ k a w1 = (Err e, w').
Proof.
  unfold bind. destruct (m w) as [[a|e1] w1]; intro H; [right; eauto | left].
  injection H as -> ->. reflexivity.
Qed.

Lemma bind_step {A B} (m : M St A) (k : A -> M St B) w a w1 :
  m w = (Ok a, w1) -> bind m k w = k a w1.
Proof. unfold bind. now intros ->. Qed.

(** [keeps p m]: whatever [m] does, the file at [p] is as before. *)
Definition keeps {A} (p : string) (m : M St A) : Prop :=
  forall w r w', m w = (r, w') -> JsObject.get p (files w') = JsObject.get p (files w).

(** [total m]: [m] does not throw. *)
Definition total {A} (m : M St A) : Prop :=
  forall w, exists a w', m w = (Ok a, w').

(** [keeps_on_error p m]: when [m] throws, the file at [p] is as before. *)
Definition keeps_on_error {A} (p : string) (m : M St A) : Prop :=
  forall w e w', m w = (Err e, w') -> JsObject.get p (files w') = JsObject.get p (files w).

Lemma keeps_ret {A} p (a : A) : keeps p (ret a).
Proof. intros w r w' H. injection H as _ <-. reflexivity. Qed.

Lemma keeps_throw {A} p e : keeps p (@throw St A e).
Proof. intros w r w' H. injection H as _ <-. reflexivity. Qed.

Lemma keeps_bind {A B} p (m : M St A) (k : A -> M St B) :
  keeps p m -> (forall a, keeps p (k a)) -> keeps p (bind m k).
Proof.
  intros Hm Hk w r w' H. unfold bind in H.
  destruct (m w) as [[a|e] w1] eqn:E.
  - rewrite (Hk a _ _ _ H). exact (Hm _ _ _ E).
  - injection H as _ <-. exact (Hm _ _ _ E).
Qed.

Lemma keeps_writeFile p q f : p <> q -> keeps p (@writeFile St q f).
Proof.
  intros N w r w' H. injection H as _ <-. cbn. now apply get_set_other.
Qed.

Lemma keeps_appendFile p q t : p <> q -> keeps p (@appendFile St q t).
Proof.
  intros N w r w' H. injection H as _ <-. cbn. now apply get_set_other.
Qed.

Lemma keeps_readFile p q : keeps p (@readFile St q).
Proof.
  intros w r w' H. unfold readFile in H.
  destruct (JsObject.get q (files w)); injection H as _ <-; reflexivity.
Qed.

Lemma keeps_readdir p d : keeps p (@readdir St d).
Proof. intros w r w' H. injection H as _ <-. reflexivity. Qed.

Lemma keeps_now p : keeps p (@now St).
Proof. intros w r w' H. injection H as _ <-. reflexivity. Qed.

Lemma keeps_ensureDir p d : keeps p (@ensureDir St d).
Proof. apply keeps_ret. Qed.

Lemma keeps_lift {A} p (r : result A) : keeps p (@lift St A r).
Proof. destruct r; [apply keeps_ret | apply keeps_throw]. Qed.

Lemma keeps_try_catch {A} p (m : M St A) h :
  keeps p m -> (forall e, keeps p (h e)) -> keeps p (try_catch m h).
Proof.
  intros Hm Hh w r w' H. unfold try_catch in H.
  destruct (m w) as [[a|e] w1] eqn:E.
  - injection H as _ <-. exact (Hm _ _ _ E).
  - rewrite (Hh e _ _ _ H). exact (Hm _ _ _ E).
Qed.

Lemma keeps_forEach {A} p (l : list A) (body : A -> M St unit) :
  (forall x, keeps p (body x)) -> keeps p (forEach l body).
Proof.
  intro Hb. induction l as [|x tl IH]; cbn [forEach].
  - apply keeps_ret.
  - apply keeps_bind; [apply Hb | intros _; exact IH].
Qed.

Lemma keeps_mapM {A B} p (l : list A) (body : A -> M St B) :
  (forall x, keeps p (body x)) -> keeps p (mapM l body).
Proof.
  intro Hb. induction l as [|x tl IH]; cbn [mapM].
  - apply keeps_ret.
  - apply keeps_bind; [apply Hb | intro y].
    apply keeps_bind; [exact IH | intro ys; apply keeps_ret].
Qed.

Lemma total_ret {A} (a : A) : total (@ret St A a).
Proof. intro w. now exists a, w. Qed.

Lemma total_bind {A B} (m : M St A) (k : A -> M St B) :
  total m -> (forall a, total (k a)) -> total (bind m k).
Proof.
  intros Hm Hk w. destruct (Hm w) as [a [w1 E]].
  destruct (Hk a w1) as [b [w2 E2]]. exists b, w2.
  unfold bind. now rewrite E.
Qed.

Lemma total_writeFile q f : total (@writeFile St q f).
Proof. intro w. now eexists _, _. Qed.

Lemma total_appendFile q t : total (@appendFile St q t).
Proof. intro w. now eexists _, _. Qed.

Lemma total_now : total (@now St).
Proof. intro w. now eexists _, _. Qed.

Lemma total_forEach {A} (l : list A) (body : A -> M St unit) :
  (forall x, total (body x)) -> total (forEach l body).
Proof.
  intro Hb. induction l as [|x tl IH]; cbn [forEach].
  - apply total_ret.
  - apply total_bind; [apply Hb | intros _; exact IH].
Qed.

Lemma koe_total {A} p (m : M St A) : total m -> keeps_on_error p m.
Proof.
  intros T w e w' H. destruct (T w) as [a [w1 E]]. congruence.
Qed.

Lemma koe_keeps {A} p (m : M St A) : keeps p m -> keeps_on_error p m.
Proof. intros K w e w' H. exact (K _ _ _ H). Qed.

Lemma koe_bind {A B} p (m : M St A) (k : A -> M St B) :
  keeps p m -> (forall a, keeps_on_error p (k a)) -> keeps_on_error p (bind m k).
Proof.
  intros Hm Hk w e w' H. apply bind_err in H.
  destruct H as [H | [a [w1 [E H]]]].
  - exact (Hm _ _ _ H).
  - rewrite (Hk a _ _ _ H). exact (Hm _ _ _ E).
Qed.

End Monad.

Lemma keeps_callTool tc p name input : keeps p (callTool tc name input).
Proof.
  intros w r w' H. unfold callTool in H.
  destruct (call tc name input (client w)) as [x s]. injection H as _ <-. reflexivity.
Qed.

End EffectFacts.

(* ================================================================== *)
(** * The workflow engine: failures *)

Module FailureFacts.
Import JsNumber Json Types.
Export EffectFacts.
Local Open Scope effect_scope.

Section Engine.
Variable tc : ToolClient.
Local Abbreviation St := (client_state tc).


End Engine.

(** Automation: a step that leaves a path alone, a step that cannot throw. *)
Ltac keeps_tac :=
  repeat first
    [ apply keeps_ret | apply keeps_throw | apply keeps_now | apply keeps_ensureDir
    | apply keeps_readFile | apply keeps_readdir | apply keeps_callTool | apply keeps_lift
    | apply keeps_writeFile; path_neq
    | apply keeps_appendFile; path_neq
    | apply keeps_forEach; intro
    | apply keeps_mapM; intro
    | apply keeps_try_catch; [|intro]
    | apply keeps_bind; [|intro]
    | match goal with
      | |- keeps _ (match ?x with _ => _ end) => destruct x
      | |- keeps _ (if ?b then _ else _) => destruct b
      | |- keeps _ (let _ := _ in _) => cbv zeta
      end
    | progress unfold malformed, ensureManifest, appendEvent, writeManifest, writeConstraints,
        writeCandidates, writeValidationReports, writeIterationArtifact, writeExports,
        ensureRunDirectories, batchValidateCall, runQlipCall, readManifest,
        readValidationSummary, readConstraints, readCandidateContent, listCandidateIds ].

Ltac total_tac :=
  repeat first
    [ apply total_ret | apply total_now | apply total_writeFile | apply total_appendFile
    | apply total_forEach; intro
    | apply total_bind; [|intro]
    | progress unfold ensureManifest, appendEvent, writeManifest, ensureDir ].

Ltac koe_tac :=
  repeat first
    [ apply koe_total; solve [total_tac]
    | apply koe_bind; [solve [keeps_tac] | intro]
    | match goal with
      | |- keeps_on_error _ (match ?x with _ => _ end) => destruct x
      | |- keeps_on_error _ (if ?b then _ else _) => destruct b
      | |- keeps_on_error _ (let _ := _ in _) => cbv zeta
      end
    | apply koe_keeps; solve [keeps_tac] ].

Section Failure.
Variable tc : ToolClient.
Local Abbreviation St := (client_state tc).

(** The manifest that [runCspDiscover] writes before its first tool call. *)
Definition initialManifest (input : DiscoverInput) (now_ : string) : RunManifest :=
  mkManifest (createRunId (di_seed input) (di_objective input)) running
    (di_objective input)
    (match truthy (di_chem_system input) with Some c => c | None => "pending" end)
    (di_seed input) now_ now_ 0 (max_iters (policy (di_config input)))
    None None (di_config input).

Definition discoverPaths (input : DiscoverInput) : RunPaths :=
  getRunPaths (di_workspace_dir input) (createRunId (di_seed input) (di_objective input)).

Lemma total_no_err {St A} (m : M St A) w e w' : total m -> m w <> (Err e, w').
Proof. intros T H. destruct (T w) as (a & w1 & E). congruence. Qed.

Lemma discover_error_manifest (input : DiscoverInput) (w : World St) e w' :
  runCspDiscover tc input w = (Err e, w') ->
  JsObject.get (manifestPath (discoverPaths input)) (files w')
  = Some (FManifest (initialManifest input (clock w (tick w)))).
Proof.
  unfold runCspDiscover, discoverPaths.
  set (paths := getRunPaths _ _).
  intro H.
  apply bind_err in H as [H | (u0 & w0 & E0 & H)].
  { exfalso. revert H. apply total_no_err. unfold ensureRunDirectories. total_tac. }
  assert (K0 : files w0 = files w /\ clock w0 = clock w /\ tick w0 = tick w).
  { unfold ensureRunDirectories, ensureDir, bind, ret in E0. injection E0 as _ <-. auto. }
  destruct K0 as (F0 & C0 & T0).
  apply bind_err in H as [H | (t & w1 & E1 & H)].
  { exfalso. revert H. apply total_no_err. total_tac. }
  unfold now in E1. injection E1 as <- <-. rewrite C0, T0 in H.
  apply bind_err in H as [H | (u2 & w2 & E2 & H)].
  { exfalso. revert H. apply total_no_err. total_tac. }
  fold (initialManifest input (clock w (tick w))) in E2, H.
  assert (K2 : JsObject.get (manifestPath paths) (files w2)
               = Some (FManifest (initialManifest input (clock w (tick w))))).
  { unfold ensureManifest in E2. apply bind_ok in E2 as (a & wa & Ea & Eb).
    match type of Eb with ?m _ = _ => assert (Kb : keeps (manifestPath paths) m) by (subst paths; keeps_tac) end.
    rewrite (Kb _ _ _ Eb).
    unfold writeManifest, writeFile in Ea. injection Ea as _ <-. cbn [files with_files].
    apply get_set_same. }
  match type of H with
  | ?m ?w0 = _ => assert (K : keeps_on_error (manifestPath paths) m)
  end.
  { subst paths. koe_tac. }
  rewrite (K _ _ _ H). exact K2.
Qed.

Lemma iterate_error_manifest (input : RunInput) (w : World St) e w' :
  runCspIterate tc input w = (Err e, w') ->
  JsObject.get (manifestPath (getRunPaths (ri_workspace_dir input) (ri_run_id input)))
               (files w')
  = JsObject.get (manifestPath (getRunPaths (ri_workspace_dir input) (ri_run_id input)))
                 (files w).
Proof.
  intro H.
  assert (K : keeps_on_error
                (manifestPath (getRunPaths (ri_workspace_dir input) (ri_run_id input)))
                (runCspIterate tc input)).
  { unfold runCspIterate. koe_tac. }
  exact (K _ _ _ H).
Qed.

End Failure.

Definition sample_config : CspConfig :=
  mkCspConfig "/ws" []
    (mkQlipConfig gurobi (of_int 3600) (of_int 25) (of_int 120))
    IterationFacts.default_policy.

Definition exhausted_manifest : RunManifest :=
  mkManifest "run_1_18d23804" ok "Discover stable oxide" "Mg-Si-O" 1
    "2026-01-01T00:00:00.000Z" "2026-01-01T00:00:05.000Z" 5 5
    (Some "cand_0001") (Some (lit 8416 4)) sample_config.

Definition exhausted_world : World Stub :=
  mkWorld [("/ws/runs/run_1_18d23804/run_manifest.json", FManifest exhausted_manifest)]
          (newStub 1 (Some (lit 8 1))) (fun _ => "2026-01-02T00:00:00.000Z") 0%nat.



End FailureFacts.

(* ================================================================== *)
(** * The command line: how a failure surfaces *)

Module CliFacts.
Import JsNumber Json Types.
Export FailureFacts Cli.
Local Open Scope effect_scope.

Definition newline : ascii := ascii_of_N 10.

Definition single_line (s : string) : Prop :=
  exists body, s = body ++ nl /\ JsString.contains_char newline body = false.

Lemma contains_char_app c a b :
  JsString.contains_char c (a ++ b) = JsString.contains_char c a || JsString.contains_char c b.
Proof. induction a as [|x a IH]; cbn; [reflexivity | now rewrite IH, orb_assoc]. Qed.

Lemma quote_char_one_line c : JsString.contains_char newline (quote_char c) = false.
Proof. destruct c as [[] [] [] [] [] [] [] []]; reflexivity. Qed.

Lemma quote_one_line s : JsString.contains_char newline (quote s) = false.
Proof.
  unfold quote. cbn [JsString.contains_char]. 
  assert (forall t, JsString.contains_char newline (quote_body t ++ String dquote "") = false).
  { induction t as [|c t IH]; cbn [quote_body]; [reflexivity|].
    rewrite append_assoc, contains_char_app, quote_char_one_line. exact IH. }
  rewrite H. reflexivity.
Qed.

Lemma writeError_shape c m :
  writeError c m 1
  = ("{" ++ ((quote "command" ++ ":" ++ quote c) ++ "," ++ (quote "status" ++ ":" ++ quote "error")
       ++ "," ++ (quote "error" ++ ":" ++ quote m) ++ "," ++ (quote "exit_code" ++ ":" ++ "1")) ++ "}") ++ nl.
Proof. reflexivity. Qed.

Lemma writeError_single_line c m : single_line (writeError c m 1).
Proof.
  eexists. split; [apply writeError_shape|].
  repeat (rewrite contains_char_app || rewrite quote_one_line). reflexivity.
Qed.

Section Surface.
Variable tc : ToolClient.
Local Abbreviation St := (client_state tc).

Lemma guarded_discover_error (o : CliOptions) obj (w : World St) e w' :
  command o = "csp:discover" ->
  truthy (objective o) = Some obj ->
  runCspDiscover tc (mkDiscoverInput obj (chemSystemOf (chemSystemRaw o)) (workspaceDir o)
                       (seed o) (config o)) w = (Err e, w') ->
  guarded tc o w = (Ok (1, writeError "csp:discover" e 1), w').
Proof.
  intros C O H. unfold guarded, try_catch, commands. rewrite C.
  cbn [String.eqb Ascii.eqb Bool.eqb]. rewrite O.
  unfold bind. rewrite H. reflexivity.
Qed.

Lemma guarded_iterate_error (o : CliOptions) id (w : World St) e w' :
  command o = "csp:iterate" ->
  truthy (runId o) = Some id ->
  runCspIterate tc (mkRunInput id (workspaceDir o) (seed o) (config o)) w = (Err e, w') ->
  guarded tc o w = (Ok (1, writeError "csp:iterate" e 1), w').
Proof.
  intros C O H. unfold guarded, try_catch, commands. rewrite C.
  cbn [String.eqb Ascii.eqb Bool.eqb]. rewrite O.
  unfold bind. rewrite H. reflexivity.
Qed.

(** C5, as amended.  When [runCspDiscover] or [runCspIterate] throws, as
    it does when a tool call fails, the error reaches the command line,
    which prints one line of JSON with status error and exit_code 1 and
    exits with code 1.  No status=error is written: after a failed
    discover the manifest on disk is the one written before the first
    tool call, with status running; after a failed iterate the manifest
    file is what it was before the call. *)
Theorem failure_propagates_without_error_status :
  (forall (o : CliOptions) obj (w : World St) e w',
      command o = "csp:discover" ->
      truthy (objective o) = Some obj ->
      let input := mkDiscoverInput obj (chemSystemOf (chemSystemRaw o)) (workspaceDir o)
                     (seed o) (config o) in
      runCspDiscover tc input w = (Err e, w') ->
      guarded tc o w = (Ok (1, writeError "csp:discover" e 1), w')
      /\ single_line (writeError "csp:discover" e 1)
      /\ exists m, JsObject.get (manifestPath (discoverPaths input)) (files w')
                   = Some (FManifest m)
                   /\ m = initialManifest input (clock w (tick w))
                   /\ rm_status m = running)
  /\ (forall (o : CliOptions) id (w : World St) e w',
      command o = "csp:iterate" ->
      truthy (runId o) = Some id ->
      runCspIterate tc (mkRunInput id (workspaceDir o) (seed o) (config o)) w = (Err e, w') ->
      guarded tc o w = (Ok (1, writeError "csp:iterate" e 1), w')
      /\ single_line (writeError "csp:iterate" e 1)
      /\ JsObject.get (manifestPath (getRunPaths (workspaceDir o) id)) (files w')
         = JsObject.get (manifestPath (getRunPaths (workspaceDir o) id)) (files w)).
Proof.
  split.
  - intros o obj w e w' C O input H. split; [|split].
    + now apply guarded_discover_error with (obj := obj).
    + apply writeError_single_line.
    + eexists. split; [exact (discover_error_manifest tc input w e w' H)|].
      split; reflexivity.
  - intros o id w e w' C O H. split; [|split].
    + now apply guarded_iterate_error with (id := id).
    + apply writeError_single_line.
    + exact (iterate_error_manifest tc _ w e w' H).
Qed.
End Surface.

Definition unconfigured : ToolClient := RealMcpClient (S := unit) None.

Definition discover_options : CliOptions :=
  mkCliOptions "csp:discover" false 1 false (Some "Discover stable oxide") None None None None
               "/ws" sample_config.

Definition fresh_world : World unit :=
  mkWorld [] tt (fun _ => "2026-01-01T00:00:00.000Z") 0%nat.

Definition failed_discover :=
  runCspDiscover unconfigured
    (mkDiscoverInput "Discover stable oxide" None "/ws" 1 sample_config) fresh_world.

(** C5 fails as stated: with a tool client whose calls fail, discover
    throws and leaves the manifest at status running, not error. *)
Lemma failed_discover_manifest_not_error :
  fst failed_discover
  = Err "Real MCP client not configured for tool materials-data-mcp.suggest_chemistries"
  /\ exists m,
      JsObject.get "/ws/runs/run_1_18d23804/run_manifest.json" (files (snd failed_discover))
      = Some (FManifest m)
      /\ rm_status m = running
      /\ rm_status m <> error.
Proof.
  split; [vm_compute; reflexivity|].
  eexists. split; [vm_compute; reflexivity|]. split; [reflexivity | discriminate].
Qed.

Lemma failure_propagates_without_error_status_witness :
  exists e w',
    failed_discover = (Err e, w')
    /\ guarded unconfigured discover_options fresh_world
       = (Ok (1, writeError "csp:discover" e 1), w')
    /\ exists m, JsObject.get "/ws/runs/run_1_18d23804/run_manifest.json" (files w')
                 = Some (FManifest m)
                 /\ rm_status m = running.
Proof.
  assert (E : failed_discover
              = (Err "Real MCP client not configured for tool materials-data-mcp.suggest_chemistries",
                 snd failed_discover)) by (vm_compute; reflexivity).
  eexists. exists (snd failed_discover). split; [exact E|].
  destruct (proj1 (failure_propagates_without_error_status unconfigured)
              discover_options "Discover stable oxide" fresh_world _ _
              eq_refl eq_refl E) as (G & _ & m & Hm & _ & Hs).
  split; [exact G|]. exists m. split; [exact Hm | exact Hs].
Defined.

End CliFacts.

(* ================================================================== *)
(** * Export *)

Module ExportFacts.
Import JsNumber Json Types.
Export CliFacts.
Local Open Scope effect_scope.



(** A directory that holds files only: no path of the file system leads
    through a subdirectory of [dir]. *)
Definition files_only (dir : string) (fs : FileSystem) : bool :=
  forallb (fun kv => match JsString.strip_prefix (dir ++ "/") (fst kv) with
                     | Some name => negb (JsString.contains_char "/" name)
                     | None => true
                     end) fs.


Section ExportRun.
Variable tc : ToolClient.
Local Abbreviation St := (client_state tc).


End ExportRun.








Section ExportFiles.
Variable tc : ToolClient.
Local Abbreviation St := (client_state tc).






End ExportFiles.

Definition dry_config : CspConfig := sample_config.

(** The world after [csp:discover --dry-run --seed 1] in a fresh workspace. *)
Definition discovered_world : World Stub :=
  snd (runCspDiscover StubToolClient
         (mkDiscoverInput "Discover stable oxide" None "/ws" 1 dry_config)
         (mkWorld [] (newStub 1 (Some (lit 8 1))) (fun _ => "2026-01-01T00:00:00.000Z") 0%nat)).




End ExportFacts.

(* ================================================================== *)
(** * The verification aggregator *)

Module VerifyFacts.
Import JsNumber Types Verify.
Local Open Scope Q_scope.

Definition entry (r : ValidationReport) : string * number :=
  (vr_candidate_id r, truth_score r).

(** An id that is a plain property name: not empty, not an array index, and
    not [__proto__], the one name for which [truthScores[id] = score] (an
    assignment through the prototype accessor, which ignores a number)
    creates no property. *)
Definition plain_id (id : string) : Prop :=
  id <> ""%string /\ id <> "__proto__"%string /\ JsObject.array_index id = None.

Definition score_is (q : number) (e : string * number) : bool := Qeq_bool (snd e) q.

Lemma gtb_lt (a b : number) : gtb a b = true <-> b < a.
Proof.
  unfold gtb, ltb. rewrite negb_true_iff. split; intro H.
  - apply Qnot_le_lt. intro L. apply Qle_bool_iff in L. congruence.
  - destruct (Qle_bool a b) eqn:E; [|reflexivity].
    apply Qle_bool_iff in E. exfalso. exact (Qlt_not_le _ _ H E).
Qed.

Lemma gtb_false (a b : number) : gtb a b = false <-> a <= b.
Proof.
  unfold gtb, ltb. rewrite negb_false_iff. apply Qle_bool_iff.
Qed.

(** ** The stable sort by descending score *)

Lemma insert_perm (x : string * number) l :
  Permutation (JsSort.insert byScoreDesc x l) (x :: l).
Proof.
  induction l as [|y tl IH]; cbn; [reflexivity|].
  destruct (byScoreDesc x y); [|reflexivity].
  rewrite IH. apply perm_swap.
Qed.

Lemma sort_perm (l : list (string * number)) : Permutation (JsSort.sort byScoreDesc l) l.
Proof.
  induction l as [|x tl IH]; cbn; [reflexivity|].
  rewrite insert_perm. now constructor.
Qed.

Definition desc (a b : string * number) : Prop := snd b <= snd a.

Lemma insert_sorted x l :
  Sorted desc l -> Sorted desc (JsSort.insert byScoreDesc x l).
Proof.
  induction 1 as [|y tl Hs IH Hhd]; cbn.
  - repeat constructor.
  - destruct (byScoreDesc x y) eqn:E.
    + constructor; [exact IH|].
      apply gtb_lt in E.
      destruct tl as [|z tl']; cbn.
      * constructor. unfold desc. now apply Qlt_le_weak.
      * destruct (byScoreDesc x z); constructor.
        -- now inversion Hhd.
        -- unfold desc. now apply Qlt_le_weak.
    + constructor; [now constructor|]. constructor.
      unfold byScoreDesc in E. apply gtb_false in E. exact E.
Qed.

Lemma sort_sorted l : Sorted desc (JsSort.sort byScoreDesc l).
Proof. induction l; cbn; [constructor | now apply insert_sorted]. Qed.

Lemma desc_trans : Relations_1.Transitive desc.
Proof. intros a b c H1 H2. unfold desc in *. eapply Qle_trans; eauto. Qed.

Lemma sort_strongly_sorted l : StronglySorted desc (JsSort.sort byScoreDesc l).
Proof. apply Sorted_StronglySorted; [exact desc_trans | apply sort_sorted]. Qed.

Lemma insert_stable q x l :
  filter (score_is q) (JsSort.insert byScoreDesc x l) = filter (score_is q) (x :: l).
Proof.
  induction l as [|y tl IH]; [reflexivity|].
  cbn [JsSort.insert]. destruct (byScoreDesc x y) eqn:E; [|reflexivity].
  cbn [filter] in *. rewrite IH.
  destruct (score_is q x) eqn:Ex; [|reflexivity].
  destruct (score_is q y) eqn:Ey; [|reflexivity].
  exfalso. unfold score_is in *. apply Qeq_bool_iff in Ex, Ey.
  apply gtb_lt in E. rewrite Ex, Ey in E. exact (Qlt_irrefl _ E).
Qed.

Lemma sort_stable q l :
  filter (score_is q) (JsSort.sort byScoreDesc l) = filter (score_is q) l.
Proof.
  induction l as [|x tl IH]; [reflexivity|].
  cbn [JsSort.sort]. rewrite insert_stable. cbn [filter]. now rewrite IH.
Qed.

(** ** The properties of an object whose keys are plain and distinct *)

Lemma set_fresh {V} (k : string) (v : V) (o : list (string * V)) :
  ~ In k (map fst o) -> JsObject.set k v o = (o ++ [(k, v)])%list.
Proof.
  induction o as [|[k' w] tl IH]; cbn; intro N; [reflexivity|].
  destruct (String.eqb k k') eqn:E.
  - apply String.eqb_eq in E. subst. tauto.
  - rewrite IH; [reflexivity | tauto].
Qed.

Lemma entries_plain {V} (o : list (string * V)) :
  Forall (fun kv => JsObject.array_index (fst kv) = None) o -> JsObject.entries o = o.
Proof.
  intro H. unfold JsObject.entries.
  assert (E1 : filter JsObject.is_index o = []).
  { induction H as [|kv tl Hkv _ IH]; [reflexivity|].
    cbn [filter]. unfold JsObject.is_index at 1. now rewrite Hkv. }
  assert (E2 : filter (fun kv => negb (JsObject.is_index kv)) o = o).
  { clear E1. induction H as [|kv tl Hkv _ IH]; [reflexivity|].
    cbn [filter]. unfold JsObject.is_index at 1. rewrite Hkv. cbn [negb]. now f_equal. }
  now rewrite E1, E2.
Qed.

Lemma truthScores_fold (reports : list ValidationReport) : forall a,
  NoDup (map fst (truthScores a) ++ map vr_candidate_id reports) ->
  truthScores (fold_left step reports a) = (truthScores a ++ map entry reports)%list.
Proof.
  induction reports as [|r tl IH]; intros a N; cbn [fold_left map].
  - now rewrite app_nil_r.
  - cbn [map] in N. rewrite IH.
    + cbn [step truthScores]. rewrite set_fresh.
      * now rewrite <- app_assoc.
      * apply NoDup_remove_2 in N. intro I. apply N. apply in_or_app. now left.
    + cbn [step truthScores]. rewrite set_fresh.
      * rewrite map_app. cbn [map fst]. rewrite <- app_assoc. exact N.
      * apply NoDup_remove_2 in N. intro I. apply N. apply in_or_app. now left.
Qed.

(** ** The best candidate: the first report that reaches the greatest score *)

Lemma step_best (a : Acc) (r : ValidationReport) :
  (bestScore a < truth_score r
   /\ bestCandidateId (step a r) = vr_candidate_id r
   /\ bestScore (step a r) = truth_score r)
  \/ (truth_score r <= bestScore a
      /\ bestCandidateId (step a r) = bestCandidateId a
      /\ bestScore (step a r) = bestScore a).
Proof.
  unfold step. cbn [bestCandidateId bestScore].
  destruct (gtb (truth_score r) (bestScore a)) eqn:G.
  - left. apply gtb_lt in G. auto.
  - right. apply gtb_false in G. auto.
Qed.

Lemma best_fold (reports : list ValidationReport) : forall a,
  (bestCandidateId (fold_left step reports a) = bestCandidateId a
   /\ bestScore (fold_left step reports a) = bestScore a
   /\ Forall (fun x => truth_score x <= bestScore a) reports)
  \/ exists l1 r l2,
      reports = (l1 ++ r :: l2)%list
      /\ bestCandidateId (fold_left step reports a) = vr_candidate_id r
      /\ bestScore (fold_left step reports a) = truth_score r
      /\ bestScore a < truth_score r
      /\ Forall (fun x => truth_score x < truth_score r) l1
      /\ Forall (fun x => truth_score x <= truth_score r) l2.
Proof.
  induction reports as [|r tl IH]; intro a; cbn [fold_left].
  - left. repeat split. constructor.
  - destruct (step_best a r) as [(G & Ei & Es) | (G & Ei & Es)];
      destruct (IH (step a r))
        as [(Hi & Hs & Hall) | (l1 & r' & l2 & E & Hi & Hs & Hlt & H1 & H2)];
      rewrite ?Ei, ?Es in *.
    + right. exists [], r, tl.
      split; [reflexivity|]. split; [exact Hi|]. split; [exact Hs|].
      split; [exact G|]. split; [constructor | exact Hall].
    + right. exists (r :: l1), r', l2. subst tl.
      split; [reflexivity|]. split; [exact Hi|]. split; [exact Hs|].
      split; [eapply Qlt_trans; eauto|]. split; [constructor; auto | exact H2].
    + left. split; [exact Hi|]. split; [exact Hs|]. constructor; auto.
    + right. exists (r :: l1), r', l2. subst tl.
      split; [reflexivity|]. split; [exact Hi|]. split; [exact Hs|].
      split; [exact Hlt|]. split; [|exact H2].
      constructor; auto. eapply Qle_lt_trans; eauto.
Qed.

Lemma filter_head_first q (l1 : list ValidationReport) r l2 :
  truth_score r == q ->
  Forall (fun x => truth_score x < q) l1 ->
  exists rest, filter (score_is q) (map entry (l1 ++ r :: l2)) = entry r :: rest.
Proof.
  intros Hr H. induction H as [|x l1 Hx _ IH]; cbn.
  - unfold score_is at 1. cbn. rewrite (proj2 (Qeq_bool_iff _ _) Hr). eauto.
  - unfold score_is at 1. cbn.
    destruct (Qeq_bool (truth_score x) q) eqn:E; [|exact IH].
    apply Qeq_bool_iff in E. rewrite E in Hx. exfalso. exact (Qlt_irrefl _ Hx).
Qed.

(** The claimed order: score descending, ties by ascending id. *)
Definition claimed_order (a b : string * number) : Prop :=
  snd b < snd a \/ (snd a == snd b /\ String.ltb (fst a) (fst b) = true).

Definition tied_reports : list ValidationReport :=
  [ mkReport "cand_0002" (1 # 2) false []; mkReport "cand_0001" (1 # 2) false [] ].

(** C3 fails as stated: two reports with equal scores are ranked in report
    order, not by id, and the best candidate is the first seen, not the
    lexicographically smallest. *)
Lemma ties_keep_report_order :
  top_candidates (summarizeValidation tied_reports (4 # 5))
  = [("cand_0002"%string, 1 # 2); ("cand_0001"%string, 1 # 2)]
  /\ ~ Sorted claimed_order (top_candidates (summarizeValidation tied_reports (4 # 5)))
  /\ best_candidate_id (summarizeValidation tied_reports (4 # 5)) = "cand_0002"%string
  /\ String.ltb "cand_0001" "cand_0002" = true.
Proof.
  split; [reflexivity|]. split; [|split; reflexivity].
  intro S. change (top_candidates (summarizeValidation tied_reports (4 # 5)))
    with [("cand_0002"%string, 1 # 2); ("cand_0001"%string, 1 # 2)] in S.
  inversion S as [|a l _ Hd]; subst. inversion Hd as [|b l' Hab]; subst.
  destruct Hab as [Hlt | [_ Hid]].
  - cbn in Hlt. unfold Qlt in Hlt. cbn in Hlt. lia.
  - cbn in Hid. discriminate.
Qed.

(** C3, as amended.  For every non-empty list of reports with distinct,
    plain candidate ids (not empty, not an array index, not [__proto__]) and
    non-negative truth scores, [top_candidates]
    holds the reports' entries sorted by truth_score descending, entries of
    equal score in the order of the reports (not by id), and
    [best_candidate_id] is the id of [top_candidates[0]]: the first report
    that reaches the greatest truth score. *)
Theorem summary_ranking (reports : list ValidationReport) (threshold : number) :
  reports <> [] ->
  NoDup (map vr_candidate_id reports) ->
  Forall (fun r => plain_id (vr_candidate_id r)) reports ->
  Forall (fun r => 0 <= truth_score r) reports ->
  let s := summarizeValidation reports threshold in
  Permutation (top_candidates s) (map entry reports)
  /\ StronglySorted desc (top_candidates s)
  /\ (forall q, filter (score_is q) (top_candidates s)
                = filter (score_is q) (map entry reports))
  /\ exists l1 r l2,
      reports = (l1 ++ r :: l2)%list
      /\ best_candidate_id s = vr_candidate_id r
      /\ hd_error (top_candidates s) = Some (entry r)
      /\ Forall (fun x => truth_score x < truth_score r) l1
      /\ Forall (fun x => truth_score x <= truth_score r) l2.
Proof.
  intros Hne Hnd Hplain Hpos s.
  assert (Ets : truthScores (fold_left step reports initial) = map entry reports).
  { rewrite truthScores_fold; [reflexivity | exact Hnd]. }
  assert (Etop : top_candidates s = JsSort.sort byScoreDesc (map entry reports)).
  { unfold s, summarizeValidation. cbn [top_candidates]. rewrite Ets.
    rewrite entries_plain; [reflexivity|].
    apply Forall_map. eapply Forall_impl; [|exact Hplain]. intros r (_ & _ & H). exact H. }
  split; [rewrite Etop; apply sort_perm|].
  split; [rewrite Etop; apply sort_strongly_sorted|].
  split; [intro q; rewrite Etop; apply sort_stable|].
  destruct (best_fold reports initial)
    as [(_ & _ & Hall) | (l1 & r & l2 & E & Hi & Hs & Hlt & H1 & H2)].
  - exfalso. destruct reports as [|r tl]; [congruence|].
    inversion Hall as [|? ? Hr _]; subst. inversion Hpos as [|? ? Hr0 _]; subst.
    cbn [initial bestScore] in Hr.
    assert (C : 0 <= -1) by (eapply Qle_trans; eauto). unfold Qle in C. cbn in C. lia.
  - exists l1, r, l2. split; [exact E|].
    assert (Hid : vr_candidate_id r <> ""%string).
    { rewrite Forall_forall in Hplain. refine (proj1 (Hplain r _)). rewrite E.
      apply in_or_app. right. now left. }
    split; [|split; [|split; assumption]].
    + unfold s, summarizeValidation. cbn [best_candidate_id]. rewrite Hi.
      unfold or_else. apply String.eqb_neq in Hid. now rewrite Hid.
    + (* the head of the ranking has the greatest score and is first among its equals *)
      destruct (filter_head_first (truth_score r) l1 r l2 (Qeq_refl _) H1) as [rest Hf].
      rewrite <- E in Hf.
      pose proof (sort_stable (truth_score r) (map entry reports)) as St.
      rewrite Hf in St. rewrite Etop.
      pose proof (sort_strongly_sorted (map entry reports)) as SS.
      pose proof (sort_perm (map entry reports)) as P.
      destruct (JsSort.sort byScoreDesc (map entry reports)) as [|e tl] eqn:Es.
      * discriminate St.
      * cbn [hd_error]. f_equal.
        assert (He : score_is (truth_score r) e = true).
        { unfold score_is. apply Qeq_bool_iff. apply Qle_antisym.
          - assert (I : In e (map entry reports)).
            { eapply Permutation_in; [exact P | now left]. }
            apply in_map_iff in I. destruct I as (x & <- & Ix). cbn.
            rewrite E in Ix. apply in_app_or in Ix. destruct Ix as [Ix | [<- | Ix]].
            + rewrite Forall_forall in H1. apply Qlt_le_weak. now apply H1.
            + apply Qle_refl.
            + rewrite Forall_forall in H2. now apply H2.
          - assert (I : In (entry r) (e :: tl)).
            { eapply Permutation_in; [symmetry; exact P|]. apply in_map. rewrite E.
              apply in_or_app. right. now left. }
            destruct I as [I | I]; [rewrite I; apply Qle_refl|].
            inversion SS as [|? ? _ Hall]; subst.
            rewrite Forall_forall in Hall. exact (Hall _ I). }
        cbn [filter] in St. rewrite He in St. now injection St.
Qed.

Definition sample_reports : list ValidationReport :=
  [ mkReport "cand_0001" (7 # 10) false []; mkReport "cand_0002" (9 # 10) true [];
    mkReport "cand_0003" (9 # 10) true [] ].

Lemma summary_ranking_witness :
  top_candidates (summarizeValidation sample_reports (4 # 5))
  = [("cand_0002"%string, 9 # 10); ("cand_0003"%string, 9 # 10); ("cand_0001"%string, 7 # 10)]
  /\ exists l1 r l2,
      sample_reports = (l1 ++ r :: l2)%list
      /\ best_candidate_id (summarizeValidation sample_reports (4 # 5)) = vr_candidate_id r
      /\ hd_error (top_candidates (summarizeValidation sample_reports (4 # 5)))
         = Some (entry r).
Proof.
  split; [reflexivity|].
  destruct (summary_ranking sample_reports (4 # 5)) as (_ & _ & _ & l1 & r & l2 & E & Hb & Hh & _).
  - discriminate.
  - repeat constructor; cbn; intuition discriminate.
  - repeat constructor; cbn; discriminate.
  - repeat constructor; unfold Qle; cbn; lia.
  - exists l1, r, l2. auto.
Defined.

End VerifyFacts.

(* ================================================================== *)
(** * Which summary the workflows use *)

Module SummaryFacts.
Import JsNumber Json Types.
Export ExportFacts.
Local Open Scope effect_scope.

(** The summary a workflow goes on with, given the output of batch_validate. *)
Definition used_summary (reports : list ValidationReport)
           (supplied : option ValidationSummary) (threshold : number) : ValidationSummary :=
  match supplied with
  | Some s => s
  | None => Verify.summarizeValidation reports threshold
  end.

Definition summaryPath (workspace runId : string) : string :=
  join (validationDir (getRunPaths workspace runId)) "summary.json".

Ltac ok_step H :=
  let a := fresh "a" in
  let w := fresh "w" in
  let E := fresh "E" in
  apply bind_ok in H as (a & w & E & H).

Section Engine.
Variable tc : ToolClient.
Local Abbreviation St := (client_state tc).

(** The call of batch_validate made by a workflow, and its output. *)
Definition validated (seed : Z) (config : CspConfig) (reports : list ValidationReport)
           (supplied : option ValidationSummary) : Prop :=
  exists candidates constraints (w1 w2 : World St),
    callTool tc "csp-validators-mcp.batch_validate"
      (InBatchValidate candidates constraints seed (truth_accept_threshold (policy config))) w1
    = (Ok (OutValidation reports supplied), w2).

Lemma batchValidateCall_ok candidates constraints seed config (w : World St) v w' :
  batchValidateCall tc candidates constraints seed config w = (Ok v, w') ->
  validated seed config (fst v) (snd v).
Proof.
  unfold batchValidateCall. intro H. ok_step H.
  destruct a; try discriminate H. injection H as <- <-.
  now exists candidates, constraints, w, w0.
Qed.

Lemma writeValidationReports_summary paths reports summary (w : World St) u w' :
  writeValidationReports paths reports summary w = (Ok u, w') ->
  JsObject.get (join (validationDir paths) "summary.json") (files w') = Some (FSummary summary).
Proof.
  unfold writeValidationReports. intro H. ok_step H. ok_step H.
  unfold writeFile in H. injection H as _ <-. cbn [files with_files]. apply get_set_same.
Qed.

Lemma discover_summary (input : DiscoverInput) (w : World St) r w' :
  runCspDiscover tc input w = (Ok r, w') ->
  exists reports supplied,
    validated (di_seed input) (di_config input) reports supplied
    /\ let summary := used_summary reports supplied
                        (truth_accept_threshold (policy (di_config input))) in
       summary_hash r = computeSummaryHash summary
       /\ chosen_candidate_id r = best_candidate_id summary
       /\ JsObject.get (summaryPath (di_workspace_dir input) (run_id r)) (files w')
          = Some (FSummary summary).
Proof.
  unfold runCspDiscover. set (paths := getRunPaths _ _). intro H.
  do 14 ok_step H.
  match goal with Hv : batchValidateCall _ _ _ _ _ _ = _ |- _ =>
    pose proof (batchValidateCall_ok _ _ _ _ _ _ _ Hv) as V end.
  ok_step H.
  match goal with Hw : writeValidationReports _ _ _ _ = _ |- _ =>
    pose proof (writeValidationReports_summary _ _ _ _ _ _ Hw) as Ws end.
  match type of H with ?m ?w0 = _ =>
    assert (K : keeps (join (validationDir paths) "summary.json") m)
      by (subst paths; keeps_tac) end.
  pose proof (K _ _ _ H) as Kf. rewrite Ws in Kf.
  ok_step H. ok_step H. injection H as <- <-.
  eexists _, _. split; [exact V|]. cbn [summary_hash chosen_candidate_id run_id].
  split; [reflexivity|]. split; [reflexivity|]. exact Kf.
Qed.

Lemma iterate_summary (input : RunInput) (w : World St) r w' :
  runCspIterate tc input w = (Ok r, w') ->
  exists reports supplied,
    validated (ri_seed input) (ri_config input) reports supplied
    /\ let summary := used_summary reports supplied
                        (truth_accept_threshold (policy (ri_config input))) in
       summary_hash r = computeSummaryHash summary
       /\ chosen_candidate_id r = best_candidate_id summary
       /\ JsObject.get (summaryPath (ri_workspace_dir input) (ri_run_id input)) (files w')
          = Some (FSummary summary).
Proof.
  unfold runCspIterate. set (paths := getRunPaths _ _). intro H.
  do 3 ok_step H.
  destruct (rm_iteration a + 1 >? max_iters (policy (ri_config input))); [discriminate H|].
  do 4 ok_step H.
  match goal with Hv : batchValidateCall _ _ _ _ _ _ = _ |- _ =>
    pose proof (batchValidateCall_ok _ _ _ _ _ _ _ Hv) as V end.
  ok_step H.
  match goal with Hw : writeValidationReports _ _ _ _ = _ |- _ =>
    pose proof (writeValidationReports_summary _ _ _ _ _ _ Hw) as Ws end.
  match type of H with ?m ?w0 = _ =>
    assert (K : keeps (join (validationDir paths) "summary.json") m)
      by (subst paths; keeps_tac) end.
  pose proof (K _ _ _ H) as Kf. rewrite Ws in Kf.
  do 3 ok_step H. injection H as <- <-.
  eexists _, _. split; [exact V|]. cbn [summary_hash chosen_candidate_id].
  split; [reflexivity|]. split; [reflexivity|]. exact Kf.
Qed.

Lemma validate_summary (input : RunInput) (w : World St) r w' :
  runCspValidate tc input w = (Ok r, w') ->
  exists reports supplied,
    validated (ri_seed input) (ri_config input) reports supplied
    /\ let summary := used_summary reports supplied
                        (truth_accept_threshold (policy (ri_config input))) in
       fst r = summary
       /\ snd r = computeSummaryHash summary
       /\ JsObject.get (summaryPath (ri_workspace_dir input) (ri_run_id input)) (files w')
          = Some (FSummary summary).
Proof.
  unfold runCspValidate. set (paths := getRunPaths _ _). intro H.
  do 4 ok_step H.
  match goal with Hv : batchValidateCall _ _ _ _ _ _ = _ |- _ =>
    pose proof (batchValidateCall_ok _ _ _ _ _ _ _ Hv) as V end.
  ok_step H.
  match goal with Hw : writeValidationReports _ _ _ _ = _ |- _ =>
    pose proof (writeValidationReports_summary _ _ _ _ _ _ Hw) as Ws end.
  injection H as <- <-.
  eexists _, _. split; [exact V|]. cbn [fst snd].
  split; [reflexivity|]. split; [reflexivity|]. exact Ws.
Qed.

(** C1, as amended.  In discover, iterate and validate the workflow goes
    on with the summary field of the batch_validate output when that field
    is present, and recomputes the summary locally, from the reports and
    truth_accept_threshold, only when it is absent; the persisted
    summary.json, the returned summary_hash and the chosen candidate all
    come from that one summary. *)
Theorem supplied_summary_takes_precedence :
  (forall (input : DiscoverInput) (w : World St) r w',
      runCspDiscover tc input w = (Ok r, w') ->
      exists reports supplied,
        validated (di_seed input) (di_config input) reports supplied
        /\ let summary := match supplied with
                          | Some s => s
                          | None => Verify.summarizeValidation reports
                                      (truth_accept_threshold (policy (di_config input)))
                          end in
           summary_hash r = computeSummaryHash summary
           /\ chosen_candidate_id r = best_candidate_id summary
           /\ JsObject.get (summaryPath (di_workspace_dir input) (run_id r)) (files w')
              = Some (FSummary summary))
  /\ (forall (input : RunInput) (w : World St) r w',
      runCspIterate tc input w = (Ok r, w') ->
      exists reports supplied,
        validated (ri_seed input) (ri_config input) reports supplied
        /\ let summary := match supplied with
                          | Some s => s
                          | None => Verify.summarizeValidation reports
                                      (truth_accept_threshold (policy (ri_config input)))
                          end in
           summary_hash r = computeSummaryHash summary
           /\ chosen_candidate_id r = best_candidate_id summary
           /\ JsObject.get (summaryPath (ri_workspace_dir input) (ri_run_id input)) (files w')
              = Some (FSummary summary))
  /\ (forall (input : RunInput) (w : World St) r w',
      runCspValidate tc input w = (Ok r, w') ->
      exists reports supplied,
        validated (ri_seed input) (ri_config input) reports supplied
        /\ let summary := match supplied with
                          | Some s => s
                          | None => Verify.summarizeValidation reports
                                      (truth_accept_threshold (policy (ri_config input)))
                          end in
           fst r = summary
           /\ snd r = computeSummaryHash summary
           /\ JsObject.get (summaryPath (ri_workspace_dir input) (ri_run_id input)) (files w')
              = Some (FSummary summary)).
Proof.
  split; [|split].
  - intros. now apply discover_summary with (w := w).
  - intros. now apply iterate_summary with (w := w).
  - intros. now apply validate_summary with (w := w).
Qed.

End Engine.

(** A tool client that answers like the stub, except that its
    batch_validate returns two fixed reports and a summary that does not
    agree with them. *)
Definition fixed_reports : list ValidationReport :=
  [ mkReport "cand_0001" (lit 9 1) true []; mkReport "cand_0002" (lit 4 1) false [] ].

Definition disagreeing_summary : ValidationSummary :=
  mkSummary 2 0 2 "cand_0002"
    [("cand_0001", lit 1 1); ("cand_0002", lit 2 1)]
    Verify.emptyHistogram
    [("cand_0002", lit 2 1); ("cand_0001", lit 1 1)].

Definition supplying : ToolClient :=
  RealMcpClient (S := Stub)
    (Some (fun toolName input s =>
             if String.eqb toolName "csp-validators-mcp.batch_validate"
             then (Ok (OutValidation fixed_reports (Some disagreeing_summary)), s)
             else stub_call toolName input s)).

Definition dry_input : DiscoverInput :=
  mkDiscoverInput "Discover stable oxide" None "/ws" 1 dry_config.

Definition dry_world : World Stub :=
  mkWorld [] (newStub 1 (Some (lit 8 1))) (fun _ => "2026-01-01T00:00:00.000Z") 0%nat.

Definition supplied_run := runCspDiscover supplying dry_input dry_world.

(** C1 fails as stated: when batch_validate supplies a summary, discover
    persists it, hashes it and chooses its best candidate, not those of the
    summary recomputed from the reports. *)
Lemma supplied_summary_is_used :
  exists r,
    fst supplied_run = Ok r
    /\ chosen_candidate_id r = "cand_0002"
    /\ summary_hash r = computeSummaryHash disagreeing_summary
    /\ JsObject.get "/ws/runs/run_1_18d23804/validation/summary.json" (files (snd supplied_run))
       = Some (FSummary disagreeing_summary)
    /\ best_candidate_id (Verify.summarizeValidation fixed_reports (lit 8 1)) = "cand_0001"
    /\ summary_hash r <> computeSummaryHash (Verify.summarizeValidation fixed_reports (lit 8 1)).
Proof.
  eexists. split; [vm_compute; reflexivity|]. cbn [chosen_candidate_id summary_hash].
  split; [reflexivity|]. split; [vm_compute; reflexivity|].
  split; [vm_compute; reflexivity|]. split; [vm_compute; reflexivity|].
  vm_compute. discriminate.
Qed.

Lemma supplied_summary_takes_precedence_witness :
  exists r w' reports supplied,
    runCspDiscover supplying dry_input dry_world = (Ok r, w')
    /\ validated supplying 1 dry_config reports supplied
    /\ summary_hash r
       = computeSummaryHash
           (match supplied with
            | Some s => s
            | None => Verify.summarizeValidation reports (lit 8 1)
            end).
Proof.
  assert (E : exists r, runCspDiscover supplying dry_input dry_world
                        = (Ok r, snd (runCspDiscover supplying dry_input dry_world)))
    by (eexists; vm_compute; reflexivity).
  destruct E as [r E].
  set (w1 := snd (runCspDiscover supplying dry_input dry_world)) in *.
  destruct (proj1 (supplied_summary_takes_precedence supplying) dry_input dry_world r w1 E)
    as (reports & supplied & V & Hh & _).
  exists r, w1, reports, supplied.
  split; [exact E|]. split; [exact V | exact Hh].
Defined.

End SummaryFacts.

(* ================================================================== *)
(** * Arithmetic that is exact in binary64 *)

Module NumberFacts.
Import JsNumber.
Local Open Scope Q_scope.

Lemma two_pow_pos (e : Z) : 0 < two_pow e.
Proof. apply Qpower_0_lt. reflexivity. Qed.

Lemma two_pow_nat (e : Z) : (0 <= e)%Z -> two_pow e == inject_Z (2 ^ e).
Proof. intro H. unfold two_pow. now rewrite Zpower_Qpower. Qed.

Lemma two_pow_add (a b : Z) : two_pow (a + b) == two_pow a * two_pow b.
Proof. unfold two_pow. apply Qpower_plus. discriminate. Qed.

Lemma two_pow_opp (a : Z) : two_pow (- a) == / two_pow a.
Proof. unfold two_pow. apply Qpower_opp. Qed.

Lemma pow2_pos (k : Z) : (0 <= k)%Z -> (0 < 2 ^ k)%Z.
Proof. intro. apply Z.pow_pos_nonneg; lia. Qed.

Lemma inject_Z_pos (n : Z) : (0 < n)%Z -> 0 < inject_Z n.
Proof. intro H. unfold Qlt. cbn. lia. Qed.

Lemma inject_Z_lt (a b : Z) : (a < b)%Z -> inject_Z a < inject_Z b.
Proof. intro H. unfold Qlt. cbn. lia. Qed.

(** A quotient [m / 2^k] scaled by a power of two [2^(-e)], [e <= -k]. *)
Lemma scale_dyadic (m k e : Z) :
  (0 <= k)%Z -> (e <= - k)%Z ->
  inject_Z m / inject_Z (2 ^ k) / two_pow e == inject_Z (m * 2 ^ (- k - e)).
Proof.
  intros Hk He.
  assert (P : ~ inject_Z (2 ^ k) == 0).
  { intro E. apply (inject_Z_injective (2 ^ k) 0) in E. pose proof (pow2_pos k Hk). lia. }
  assert (T : ~ two_pow e == 0).
  { intro E. pose proof (two_pow_pos e) as L. rewrite E in L. discriminate L. }
  rewrite inject_Z_mult, <- (two_pow_nat (- k - e)) by lia.
  replace (- k - e)%Z with (- e + - k)%Z by lia.
  rewrite two_pow_add, !two_pow_opp, (two_pow_nat k) by lia.
  field. split; assumption.
Qed.

Lemma unscale_dyadic (m k e : Z) :
  (0 <= k)%Z -> (e <= - k)%Z ->
  inject_Z (m * 2 ^ (- k - e)) * two_pow e == inject_Z m / inject_Z (2 ^ k).
Proof.
  intros Hk He. rewrite <- (scale_dyadic m k e Hk He).
  assert (T : ~ two_pow e == 0).
  { intro E. pose proof (two_pow_pos e) as L. rewrite E in L. discriminate L. }
  assert (P : ~ inject_Z (2 ^ k) == 0).
  { intro E. apply (inject_Z_injective (2 ^ k) 0) in E. pose proof (pow2_pos k Hk). lia. }
  field. split; assumption.
Qed.

Lemma round_half_even_Z (q : Q) (n : Z) : q == inject_Z n -> round_half_even q = n.
Proof.
  intro E. unfold round_half_even.
  assert (F : Qfloor q = n) by (rewrite E; apply Qfloor_Z).
  rewrite F.
  assert (L : (q - inject_Z n ?= 1 # 2) = Lt).
  { apply Qlt_alt. rewrite E. setoid_replace (inject_Z n - inject_Z n) with 0 by ring.
    reflexivity. }
  now rewrite L.
Qed.

(** The exponent estimate never exceeds the true one by more than the test
    of [ilog2] takes back. *)
Lemma ilog2_below (a : Q) (m k : Z) :
  (0 < m < 2 ^ 53)%Z -> (0 <= k)%Z ->
  a == inject_Z m / inject_Z (2 ^ k) ->
  (ilog2 a <= 52 - k)%Z.
Proof.
  intros Hm Hk E.
  pose proof (pow2_pos k Hk) as Pk.
  assert (Hlt : a < two_pow (53 - k)).
  { rewrite E. replace (53 - k)%Z with (53 + - k)%Z by lia.
    rewrite two_pow_add, two_pow_opp, (two_pow_nat k), (two_pow_nat 53) by lia.
    unfold Qdiv. apply Qmult_lt_compat_r.
    - apply Qinv_lt_0_compat. now apply inject_Z_pos.
    - apply inject_Z_lt. lia. }
  unfold ilog2.
  set (e0 := (Z.log2 (Qnum a) - Z.log2 (Z.pos (Qden a)))%Z).
  destruct (Qle_bool (two_pow e0) a) eqn:C.
  - apply Qle_bool_iff in C.
    assert (L : two_pow e0 < two_pow (53 - k)) by (eapply Qle_lt_trans; eauto).
    apply Qpower_lt_compat_l_inv in L; [lia | reflexivity].
  - (* the estimate itself is at most 53 - k *)
    assert (Hn : (Qnum a * 2 ^ k = m * Z.pos (Qden a))%Z).
    { assert (E' : a * inject_Z (2 ^ k) == inject_Z m).
      { rewrite E. field. intro Z0. apply (inject_Z_injective (2 ^ k) 0) in Z0. lia. }
      unfold Qeq in E'. cbn in E'. lia. }
    assert (Npos : (0 < Qnum a)%Z).
    { assert (0 < m * Z.pos (Qden a))%Z by lia. nia. }
    pose proof (Z.log2_spec (Qnum a) Npos) as [L1 _].
    pose proof (Z.log2_spec (Z.pos (Qden a)) ltac:(lia)) as [_ L2].
    pose proof (Z.log2_nonneg (Qnum a)). pose proof (Z.log2_nonneg (Z.pos (Qden a))).
    assert (B : (2 ^ (Z.log2 (Qnum a) + k) < 2 ^ (54 + Z.log2 (Z.pos (Qden a))))%Z).
    { rewrite !Z.pow_add_r by lia.
      replace (Z.succ (Z.log2 (Z.pos (Qden a)))) with (1 + Z.log2 (Z.pos (Qden a)))%Z in L2 by lia.
      rewrite Z.pow_add_r in L2 by lia.
      assert (2 ^ Z.log2 (Qnum a) * 2 ^ k <= Qnum a * 2 ^ k)%Z by nia.
      assert (m * Z.pos (Qden a) < 2 ^ 53 * Z.pos (Qden a))%Z by nia.
      change (2 ^ 54)%Z with (2 ^ 53 * 2)%Z. change (2 ^ 1)%Z with 2%Z in L2. nia. }
    apply Z.pow_lt_mono_r_iff in B; lia.
Qed.

(** Rounding leaves a non-negative dyadic number with at most 53 bits alone. *)
Lemma binary64_exact (x : Q) (m k : Z) :
  (0 <= m < 2 ^ 53)%Z -> (0 <= k <= 1074)%Z ->
  x == inject_Z m / inject_Z (2 ^ k) ->
  binary64 x == x.
Proof.
  intros Hm Hk E.
  pose proof (pow2_pos k ltac:(lia)) as Pk.
  assert (Pq : 0 < / inject_Z (2 ^ k)).
  { apply Qinv_lt_0_compat. now apply inject_Z_pos. }
  destruct (Z.eq_dec m 0) as [-> | Hm0].
  - assert (X0 : x == 0) by (rewrite E; unfold Qdiv; ring).
    unfold binary64. rewrite (proj1 (Qeq_alt x 0) X0). now rewrite X0.
  - assert (Xpos : 0 < x).
    { rewrite E. unfold Qdiv. apply Qmult_lt_0_compat; [|exact Pq].
      apply inject_Z_pos. lia. }
    unfold binary64. rewrite (proj1 (Qgt_alt x 0) Xpos).
    assert (A : Qabs x == inject_Z m / inject_Z (2 ^ k)).
    { rewrite Qabs_pos; [exact E | now apply Qlt_le_weak]. }
    set (e := Z.max (ilog2 (Qabs x) - 52) (-1074)).
    assert (He : (e <= - k)%Z).
    { pose proof (ilog2_below (Qabs x) m k ltac:(lia) ltac:(lia) A). subst e. lia. }
    rewrite (round_half_even_Z _ (m * 2 ^ (- k - e))).
    + rewrite Qred_correct, unscale_dyadic by lia. now symmetry.
    + rewrite A. apply scale_dyadic; lia.
Qed.

Lemma binary64_dyadic (x : Q) (m k : Z) :
  (0 <= m < 2 ^ 53)%Z -> (0 <= k <= 1074)%Z ->
  x == inject_Z m / inject_Z (2 ^ k) ->
  binary64 x == inject_Z m / inject_Z (2 ^ k).
Proof. intros Hm Hk E. rewrite (binary64_exact x m k Hm Hk E). exact E. Qed.

Lemma binary64_int (x : Q) (m : Z) :
  (0 <= m < 2 ^ 53)%Z -> x == inject_Z m -> binary64 x == inject_Z m.
Proof.
  intros Hm E. rewrite (binary64_exact x m 0); [exact E | exact Hm | lia |].
  rewrite E. change (inject_Z (2 ^ 0)) with 1. field.
Qed.

(** ** core/src/prng.ts: the range of the draws *)

Lemma wrap_range (x : Z) : (0 <= U32.wrap x < 4294967296)%Z.
Proof. unfold U32.wrap. apply Z.mod_pos_bound. lia. Qed.

Lemma lxor_range (a b : Z) :
  (0 <= a < 4294967296)%Z -> (0 <= b < 4294967296)%Z ->
  (0 <= Z.lxor a b < 4294967296)%Z.
Proof.
  intros Ha Hb.
  assert (N : (0 <= Z.lxor a b)%Z) by (apply Z.lxor_nonneg; lia).
  split; [exact N|].
  destruct (Z.eq_dec (Z.lxor a b) 0) as [-> | NZ]; [lia|].
  change 4294967296%Z with (2 ^ 32)%Z.
  apply Z.log2_lt_pow2; [lia|].
  pose proof (Z.log2_lxor a b ltac:(lia) ltac:(lia)) as L.
  assert (La : (Z.log2 a < 32)%Z).
  { destruct (Z.eq_dec a 0) as [-> | ?]; [cbn; lia|]. apply Z.log2_lt_pow2; lia. }
  assert (Lb : (Z.log2 b < 32)%Z).
  { destruct (Z.eq_dec b 0) as [-> | ?]; [cbn; lia|]. apply Z.log2_lt_pow2; lia. }
  lia.
Qed.

Lemma next_word_range (r : Prng.SeededRng) : (0 <= fst (Prng.next_word r) < 4294967296)%Z.
Proof.
  unfold Prng.next_word. cbn [fst]. unfold U32.xor at 1.
  apply lxor_range; apply wrap_range.
Qed.

Lemma next_value (r : Prng.SeededRng) :
  fst (Prng.next r) == inject_Z (fst (Prng.next_word r)) / inject_Z (2 ^ 32)
  /\ snd (Prng.next r) = snd (Prng.next_word r).
Proof.
  unfold Prng.next. destruct (Prng.next_word r) as [w r']. cbn [fst snd].
  split; [apply Qred_correct | reflexivity].
Qed.

(** [next()] returns a number in [0, 1). *)
Lemma next_unit_interval (r : Prng.SeededRng) : 0 <= fst (Prng.next r) < 1.
Proof.
  destruct (next_value r) as [E _]. pose proof (next_word_range r) as [L U].
  rewrite E. split.
  - apply Qle_shift_div_l; [reflexivity|]. rewrite Qmult_0_l.
    change 0 with (inject_Z 0). rewrite <- Zle_Qle. exact L.
  - apply Qlt_shift_div_r; [reflexivity|]. rewrite Qmult_1_l.
    apply inject_Z_lt. exact U.
Qed.

Lemma of_int_exact (n : Z) : (0 <= n < 2 ^ 53)%Z -> of_int n == inject_Z n.
Proof. intro H. unfold of_int. now apply binary64_int. Qed.

(** [nextInt(lo, hi)] is an integer between [min(lo, hi)] and [max(lo, hi)]
    inclusive, for bounds from 0 up to 2^20: every operation of
    [Math.floor(lower + (upper + 1 - lower) * next())] is exact there. *)
Lemma nextInt_range (lo hi : Z) (r : Prng.SeededRng) :
  (0 <= lo < 2 ^ 20)%Z -> (0 <= hi < 2 ^ 20)%Z ->
  (Z.min lo hi <= fst (Prng.nextInt lo hi r) <= Z.max lo hi)%Z.
Proof.
  intros Hlo Hhi. unfold Prng.nextInt.
  set (lower := Z.min lo hi). set (upper := Z.max lo hi).
  assert (Hl : (0 <= lower <= upper)%Z) by (subst lower upper; lia).
  assert (Hu : (upper < 2 ^ 20)%Z) by (subst upper; lia).
  unfold Prng.nextFloat.
  destruct (next_value r) as [Eu _]. pose proof (next_word_range r) as Hw.
  destruct (Prng.next r) as [u r']. cbn [fst] in *.
  set (w := fst (Prng.next_word r)) in *.
  set (d := (upper + 1 - lower)%Z).
  assert (E1 : fadd (of_int upper) (of_int 1) == inject_Z (upper + 1)).
  { unfold fadd. apply binary64_int; [lia|].
    rewrite !of_int_exact by lia. now rewrite inject_Z_plus. }
  assert (E2 : fsub (fadd (of_int upper) (of_int 1)) (of_int lower) == inject_Z d).
  { unfold fsub. apply binary64_int; [subst d; lia|].
    rewrite E1, of_int_exact by lia. subst d.
    unfold Z.sub. rewrite !inject_Z_plus, inject_Z_opp. ring. }
  assert (E3 : fmul (fsub (fadd (of_int upper) (of_int 1)) (of_int lower)) u
               == inject_Z (d * w) / inject_Z (2 ^ 32)).
  { unfold fmul. apply binary64_dyadic; [|lia|].
    - subst d. split; [nia|].
      assert (upper + 1 - lower <= 2 ^ 20)%Z by lia.
      change (2 ^ 53)%Z with (2 ^ 20 * 2 ^ 33)%Z. change 4294967296%Z with (2 ^ 32)%Z in Hw.
      nia.
    - rewrite E2, Eu, inject_Z_mult. field. discriminate. }
  assert (E4 : fadd (of_int lower)
                 (fmul (fsub (fadd (of_int upper) (of_int 1)) (of_int lower)) u)
               == inject_Z (lower * 2 ^ 32 + d * w) / inject_Z (2 ^ 32)).
  { unfold fadd. apply binary64_dyadic; [|lia|].
    - subst d. change 4294967296%Z with (2 ^ 32)%Z in Hw.
      split; [nia|].
      assert (lower * 2 ^ 32 + (upper + 1 - lower) * w < (upper + 1) * 2 ^ 32)%Z by nia.
      assert (upper + 1 <= 2 ^ 20)%Z by lia.
      assert ((upper + 1) * 2 ^ 32 <= 2 ^ 20 * 2 ^ 32)%Z by nia.
      change (2 ^ 53)%Z with (2 * 2 ^ 20 * 2 ^ 32)%Z. nia.
    - rewrite E3, of_int_exact by lia. rewrite inject_Z_plus, !inject_Z_mult.
      field. discriminate. }
  unfold floor. rewrite E4, <- Zdiv_Qdiv.
  rewrite Z.div_add_l by lia.
  change 4294967296%Z with (2 ^ 32)%Z in Hw.
  assert (0 <= d * w / 2 ^ 32 < d)%Z.
  { split.
    - apply Z.div_pos; [subst d; nia | lia].
    - apply Z.div_lt_upper_bound; [lia | subst d; nia]. }
  subst d. lia.
Qed.

End NumberFacts.

(* ================================================================== *)
(** * Dry runs: the workflows over the stub tool client *)

Module DryRunFacts.
Import JsNumber Json Types.
Export SummaryFacts.
Local Open Scope effect_scope.

(** ** The stub never fails *)

Lemma table_index (s : Stub) :
  let i := fst (Prng.nextInt 0 (3 - 1) (rng s)) in i = 0 \/ i = 1 \/ i = 2.
Proof.
  pose proof (NumberFacts.nextInt_range 0 2 (rng s) ltac:(lia) ltac:(lia)) as H.
  cbn zeta. change (3 - 1) with 2. cbn [Z.min Z.max Z.compare] in H. lia.
Qed.

Lemma suggestChemistries_three (s : Stub) : List.length (fst (suggestChemistries s)) = 3%nat.
Proof.
  unfold suggestChemistries. change (Z.of_nat (List.length CHEMISTRY_TABLE) - 1) with (3 - 1).
  pose proof (table_index s) as H. cbn zeta in H.
  destruct (Prng.nextInt 0 (3 - 1) (rng s)) as [i r]. cbn [fst] in *.
  destruct H as [-> | [-> | ->]]; reflexivity.
Qed.

Lemma fetchPriors_some (s : Stub) : exists p, fst (fetchPriors s) = Some p.
Proof.
  unfold fetchPriors. change (Z.of_nat (List.length PRIOR_TABLE) - 1) with (3 - 1).
  pose proof (table_index s) as H. cbn zeta in H.
  destruct (Prng.nextInt 0 (3 - 1) (rng s)) as [i r]. cbn [fst] in *.
  destruct H as [-> | [-> | ->]]; eexists; reflexivity.
Qed.

Lemma selectChemistry_three (l : list ChemistrySuggestion) (seed : Z) :
  List.length l = 3%nat -> exists c, selectChemistry (Some l) seed = Ok c.
Proof.
  intro L. destruct l as [|a [|b [|c [|d tl]]]]; try discriminate L.
  unfold selectChemistry.
  pose proof (NumberFacts.nextInt_range 0 2 (Prng.new (U32.xor seed 0x3f1c2b))
                ltac:(lia) ltac:(lia)) as H.
  cbn [Z.min Z.max Z.compare] in H.
  change (Z.of_nat (List.length [a; b; c]) - 1) with 2.
  destruct (Prng.nextInt 0 2 (Prng.new (U32.xor seed 0x3f1c2b))) as [i r]. cbn [fst] in *.
  assert (D : i = 0 \/ i = 1 \/ i = 2) by lia.
  destruct D as [-> | [-> | ->]]; eexists; reflexivity.
Qed.

(** ** The calls of the stub, one by one *)

Definition set_client {St} (w : World St) (s : St) : World St :=
  mkWorld (files w) s (clock w) (tick w).

Lemma call_suggest input (w : World Stub) :
  callTool StubToolClient "materials-data-mcp.suggest_chemistries" input w
  = (Ok (OutChemistries (fst (suggestChemistries (client w)))),
     set_client w (snd (suggestChemistries (client w)))).
Proof.
  unfold callTool, set_client. cbn [call client_state StubToolClient]. unfold stub_call.
  cbn [String.eqb Ascii.eqb Bool.eqb].
  destruct (suggestChemistries (client w)). reflexivity.
Qed.

Lemma call_fetch input (w : World Stub) p :
  fst (fetchPriors (client w)) = Some p ->
  callTool StubToolClient "materials-data-mcp.fetch_priors" input w
  = (Ok (OutPriors p), set_client w (snd (fetchPriors (client w)))).
Proof.
  intro H. unfold callTool, set_client. cbn [call client_state StubToolClient]. unfold stub_call.
  cbn [String.eqb Ascii.eqb Bool.eqb].
  destruct (fetchPriors (client w)) as [o s]. cbn [fst snd] in *. subst o. reflexivity.
Qed.

Lemma call_build chem p ov (w : World Stub) :
  callTool StubToolClient "qlip-mcp.build_constraints" (InBuildConstraints chem p ov) w
  = (Ok (OutConstraints (mkConstraints (Verify.or_else chem "unknown") p (Some ov) None)), w).
Proof. destruct w. reflexivity. Qed.

Lemma call_qlip input (w : World Stub) :
  callTool StubToolClient "qlip-mcp.run_qlip" input w
  = (Ok (OutCandidates (fst (runQlip (client w)))), set_client w (snd (runQlip (client w)))).
Proof.
  unfold callTool, set_client. cbn [call client_state StubToolClient]. unfold stub_call.
  cbn [String.eqb Ascii.eqb Bool.eqb].
  destruct (runQlip (client w)). reflexivity.
Qed.

Lemma call_validate cands c seed t (w : World Stub) :
  callTool StubToolClient "csp-validators-mcp.batch_validate" (InBatchValidate cands c seed t) w
  = (Ok (OutValidation (fst (fst (batchValidate cands (client w))))
                       (Some (snd (fst (batchValidate cands (client w)))))),
     set_client w (snd (batchValidate cands (client w)))).
Proof.
  unfold callTool, set_client. cbn [call client_state StubToolClient]. unfold stub_call.
  cbn [String.eqb Ascii.eqb Bool.eqb input_candidates].
  destruct (batchValidate cands (client w)) as [[reports summary] s]. reflexivity.
Qed.

(** ** Steps that only touch the files and the clock *)

Definition quiet {St A} (m : M St A) : Prop :=
  forall w, exists a w', m w = (Ok a, w') /\ client w' = client w.

Lemma quiet_ret {St A} (a : A) : quiet (@ret St A a).
Proof. intro w. now exists a, w. Qed.

Lemma quiet_bind {St A B} (m : M St A) (k : A -> M St B) :
  quiet m -> (forall a, quiet (k a)) -> quiet (bind m k).
Proof.
  intros Hm Hk w. destruct (Hm w) as (a & w1 & E & C).
  destruct (Hk a w1) as (b & w2 & E2 & C2). exists b, w2.
  split; [now rewrite (bind_step _ _ _ _ _ E) | congruence].
Qed.

Lemma quiet_writeFile {St} p f : quiet (@writeFile St p f).
Proof. intro w. now eexists _, _. Qed.

Lemma quiet_appendFile {St} p t : quiet (@appendFile St p t).
Proof. intro w. now eexists _, _. Qed.

Lemma quiet_now {St} : quiet (@now St).
Proof. intro w. now eexists _, _. Qed.

Lemma quiet_forEach {St A} (l : list A) (body : A -> M St unit) :
  (forall x, quiet (body x)) -> quiet (forEach l body).
Proof.
  intro Hb. induction l as [|x tl IH]; cbn [forEach].
  - apply quiet_ret.
  - apply quiet_bind; [apply Hb | intros _; exact IH].
Qed.

Ltac quiet_tac :=
  repeat lazymatch goal with
    | |- quiet (ret _) => apply quiet_ret
    | |- quiet now => apply quiet_now
    | |- quiet (writeFile _ _) => apply quiet_writeFile
    | |- quiet (appendFile _ _) => apply quiet_appendFile
    | |- quiet (forEach _ _) => apply quiet_forEach; intro
    | |- quiet (bind _ _) => apply quiet_bind; [|intro]
    | |- quiet (ensureManifest _ _ _) => unfold ensureManifest
    | |- quiet (appendEvent _ _) => unfold appendEvent
    | |- quiet (writeManifest _ _) => unfold writeManifest
    | |- quiet (writeConstraints _ _) => unfold writeConstraints
    | |- quiet (writeCandidates _ _) => unfold writeCandidates
    | |- quiet (writeValidationReports _ _ _) => unfold writeValidationReports
    | |- quiet (writeIterationArtifact _ _ _) => unfold writeIterationArtifact
    | |- quiet (ensureRunDirectories _) => unfold ensureRunDirectories
    | |- quiet (ensureDir _) => unfold ensureDir
    end.

(** [succeeds m w Q]: from [w], [m] returns a value and a world that
    satisfy [Q]. *)
Definition succeeds {St A} (m : M St A) (w : World St) (Q : A -> World St -> Prop) : Prop :=
  exists a w', m w = (Ok a, w') /\ Q a w'.

Lemma succeeds_bind {St A B} (m : M St A) (k : A -> M St B) w Q :
  succeeds m w (fun a w1 => succeeds (k a) w1 Q) -> succeeds (bind m k) w Q.
Proof.
  intros (a & w1 & E & b & w2 & E2 & H). exists b, w2.
  split; [now rewrite (bind_step _ _ _ _ _ E) | exact H].
Qed.

Lemma succeeds_ret {St A} (a : A) (w : World St) (Q : A -> World St -> Prop) :
  Q a w -> succeeds (ret a) w Q.
Proof. intro H. now exists a, w. Qed.

Lemma succeeds_eq {St A} (m : M St A) w a w1 (Q : A -> World St -> Prop) :
  m w = (Ok a, w1) -> Q a w1 -> succeeds m w Q.
Proof. intros E H. now exists a, w1. Qed.

Lemma succeeds_quiet {St A} (m : M St A) w (Q : A -> World St -> Prop) :
  quiet m -> (forall a w1, client w1 = client w -> Q a w1) -> succeeds m w Q.
Proof. intros Hq H. destruct (Hq w) as (a & w1 & E & C). exists a, w1. auto. Qed.

Ltac quiet_step :=
  apply succeeds_bind; apply succeeds_quiet; [solve [quiet_tac] | intros ? ? ?].

Tactic Notation "quiet_step" "as" ident(a) ident(w) ident(C) :=
  apply succeeds_bind; apply succeeds_quiet; [solve [quiet_tac] | intros a w C].

(** What a dry-run discover returns, as far as it does not depend on the
    workspace, the files or the clock: the candidate ids, the summary hash
    and the chosen candidate, from the state of the stub alone. *)
Definition dryFields (chem : option string) (s : Stub) : list string * string * string :=
  let s1 := match truthy chem with
            | Some _ => s
            | None => snd (suggestChemistries s)
            end in
  let s2 := snd (fetchPriors s1) in
  let candidates := fst (runQlip s2) in
  let summary := snd (fst (batchValidate candidates (snd (runQlip s2)))) in
  (map candidate_id candidates, computeSummaryHash summary, best_candidate_id summary).

(** The chemistry of the run: the one given, or the one [selectChemistry]
    draws among the suggestions of the stub. *)
Definition dryChemistry (chem : option string) (seed : Z) (s : Stub) : string :=
  match truthy chem with
  | Some c => c
  | None =>
      match selectChemistry (Some (fst (suggestChemistries s))) seed with
      | Ok c => c
      | Err _ => "unknown"
      end
  end.

(** The truth score of the run: that of the chosen candidate in the summary
    of the stub. *)
Definition dryTruthScore (chem : option string) (s : Stub) : number :=
  let s1 := match truthy chem with
            | Some _ => s
            | None => snd (suggestChemistries s)
            end in
  let s2 := snd (fetchPriors s1) in
  let candidates := fst (runQlip s2) in
  truthScoreOf (snd (fst (batchValidate candidates (snd (runQlip s2))))).

(** The part of [runCspDiscover] from the call of fetch_priors on. *)
Lemma discover_tail (input : DiscoverInput) (paths : RunPaths) (manifest : RunManifest)
      (runId selectedChemistry : string) (w : World Stub) :
  succeeds
    (priorsOut <- callTool StubToolClient "materials-data-mcp.fetch_priors"
                    (InFetchPriors selectedChemistry (di_seed input)) ;;
     priors_ <- match priorsOut with OutPriors p => ret p | _ => malformed StubToolClient end ;;
     constraintsOut <-
       callTool StubToolClient "qlip-mcp.build_constraints"
         (InBuildConstraints selectedChemistry priors_
            [ ("solver", JStr (solver_name (solver (qlip (di_config input)))));
              ("max_atoms", JNum (max_atoms (qlip (di_config input)))) ]) ;;
     constraints <- match constraintsOut with
                    | OutConstraints c => ret c
                    | _ => malformed StubToolClient
                    end ;;
     writeConstraints paths constraints ;;;
     candidates <- runQlipCall StubToolClient constraints (di_seed input) runId None ;;
     writeCandidates paths candidates ;;;
     validation <- batchValidateCall StubToolClient candidates constraints (di_seed input)
                     (di_config input) ;;
     let summary := match snd validation with
                    | Some supplied => supplied
                    | None => Verify.summarizeValidation (fst validation)
                                (truth_accept_threshold (policy (di_config input)))
                    end in
     writeValidationReports paths (fst validation) summary ;;;
     let summaryHash := computeSummaryHash summary in
     let chosenCandidateId := best_candidate_id summary in
     let truthScore := truthScoreOf summary in
     updated_at <- now ;;
     let updatedManifest :=
       mkManifest (rm_run_id manifest) ok (rm_objective manifest) selectedChemistry
         (rm_seed manifest) (rm_created_at manifest) updated_at (rm_iteration manifest)
         (rm_max_iters manifest) (Some chosenCandidateId) (Some truthScore)
         (rm_config_snapshot manifest) in
     ensureManifest StubToolClient paths updatedManifest ;;;
     ret (mkRunResult runId ok (di_workspace_dir input) (runDir paths) selectedChemistry
            chosenCandidateId truthScore (map candidate_id candidates) summaryHash 0))
    w
    (fun r _ =>
       let s2 := snd (fetchPriors (client w)) in
       let candidates := fst (runQlip s2) in
       let summary := snd (fst (batchValidate candidates (snd (runQlip s2)))) in
       (candidate_ids r, summary_hash r, chosen_candidate_id r)
       = (map candidate_id candidates, computeSummaryHash summary, best_candidate_id summary)
       /\ run_id r = runId
       /\ selected_chemistry r = selectedChemistry
       /\ res_truth_score r = truthScoreOf summary
       /\ status r = ok
       /\ iteration r = 0).
Proof.
  destruct (fetchPriors_some (client w)) as [p Hp].
  apply succeeds_bind. eapply succeeds_eq; [exact (call_fetch _ w p Hp)|].
  apply succeeds_bind, succeeds_ret.
  apply succeeds_bind. eapply succeeds_eq; [apply call_build|].
  apply succeeds_bind, succeeds_ret.
  quiet_step.
  apply succeeds_bind. unfold runQlipCall.
  apply succeeds_bind. eapply succeeds_eq; [apply call_qlip|]. apply succeeds_ret.
  quiet_step.
  apply succeeds_bind. unfold batchValidateCall.
  apply succeeds_bind. eapply succeeds_eq; [apply call_validate|]. apply succeeds_ret.
  cbn [fst snd].
  quiet_step. quiet_step. quiet_step.
  apply succeeds_ret.
  cbn [candidate_ids summary_hash chosen_candidate_id run_id selected_chemistry
       res_truth_score status iteration].
  cbn [client set_client client_state StubToolClient] in *.
  repeat match goal with
         | H : client ?x = _ |- context [client ?x] => rewrite H
         end.
  repeat split; reflexivity.
Qed.

(** A dry-run discover succeeds, and what it returns apart from the paths
    is read off the state of the stub, the seed, the objective and the
    chemistry asked for. *)
Lemma discover_dry_result (input : DiscoverInput) (w : World Stub) :
  exists r w',
    runCspDiscover StubToolClient input w = (Ok r, w')
    /\ (candidate_ids r, summary_hash r, chosen_candidate_id r)
       = dryFields (di_chem_system input) (client w)
    /\ run_id r = createRunId (di_seed input) (di_objective input)
    /\ selected_chemistry r = dryChemistry (di_chem_system input) (di_seed input) (client w)
    /\ res_truth_score r = dryTruthScore (di_chem_system input) (client w)
    /\ status r = ok
    /\ iteration r = 0.
Proof.
  change (succeeds (runCspDiscover StubToolClient input) w
            (fun r _ => (candidate_ids r, summary_hash r, chosen_candidate_id r)
                        = dryFields (di_chem_system input) (client w)
                        /\ run_id r = createRunId (di_seed input) (di_objective input)
                        /\ selected_chemistry r
                           = dryChemistry (di_chem_system input) (di_seed input) (client w)
                        /\ res_truth_score r = dryTruthScore (di_chem_system input) (client w)
                        /\ status r = ok
                        /\ iteration r = 0)).
  unfold runCspDiscover, dryFields, dryChemistry, dryTruthScore.
  set (paths := getRunPaths _ _).
  quiet_step as u1 w1 C1. quiet_step as t w2 C2.
  quiet_step as u3 w3 C3. quiet_step as u4 w4 C4.
  assert (C : client w4 = client w) by (rewrite C4, C3, C2, C1; reflexivity).
  clear C1 C2 C3 C4.
  destruct (truthy (di_chem_system input)) as [chem|] eqn:T.
  - apply succeeds_bind, succeeds_ret. apply succeeds_bind, succeeds_ret.
    destruct (discover_tail input paths
                (mkManifest (createRunId (di_seed input) (di_objective input)) running
                   (di_objective input) chem (di_seed input) t t 0
                   (max_iters (policy (di_config input))) None None (di_config input))
                (createRunId (di_seed input) (di_objective input)) chem w4)
      as (r & w' & E & H).
    exists r, w'. split; [exact E|].
    cbn zeta in H. cbn [client_state StubToolClient] in *. rewrite C in H. exact H.
  - apply succeeds_bind. apply succeeds_bind.
    eapply succeeds_eq; [apply call_suggest|]. apply succeeds_ret.
    cbn [client_state StubToolClient] in *.
    pose proof (suggestChemistries_three (client w4)) as L3.
    destruct (selectChemistry_three _ (di_seed input) L3) as [c Hc].
    apply succeeds_bind. rewrite Hc. apply succeeds_ret.
    destruct (discover_tail input paths
                (mkManifest (createRunId (di_seed input) (di_objective input)) running
                   (di_objective input) "pending" (di_seed input) t t 0
                   (max_iters (policy (di_config input))) None None (di_config input))
                (createRunId (di_seed input) (di_objective input)) c
                (set_client w4 (snd (suggestChemistries (client w4)))))
      as (r & w' & E & H).
    exists r, w'. split; [exact E|].
    cbn zeta in H. cbn [client set_client client_state StubToolClient] in *.
    rewrite C in H, Hc. rewrite Hc. exact H.
Qed.

Lemma discover_dry_run (input : DiscoverInput) (w : World Stub) :
  exists r w',
    runCspDiscover StubToolClient input w = (Ok r, w')
    /\ (candidate_ids r, summary_hash r, chosen_candidate_id r)
       = dryFields (di_chem_system input) (client w)
    /\ run_id r = createRunId (di_seed input) (di_objective input).
Proof.
  destruct (discover_dry_result input w) as (r & w' & E & F & I & _).
  exists r, w'. auto.
Qed.

(** C2.  Two dry-run executions of discover with the same seed, objective,
    chemistry and configuration, whatever their workspaces, the files
    found there and their clocks, both succeed, and their results agree on
    every field but the two paths: identical candidate_ids, identical
    summary_hash, identical chosen_candidate_id, and the same run id,
    selected chemistry, truth score, status and iteration. *)
Theorem discover_deterministic
        (seed : Z) (objective : string) (chem : option string) (config : CspConfig)
        (workspace1 workspace2 : string) (files1 files2 : FileSystem)
        (clock1 clock2 : nat -> string) (tick1 tick2 : nat) :
  let stub := newStub seed (Some (truth_accept_threshold (policy config))) in
  exists r1 w1 r2 w2,
    runCspDiscover StubToolClient (mkDiscoverInput objective chem workspace1 seed config)
                   (mkWorld files1 stub clock1 tick1) = (Ok r1, w1)
    /\ runCspDiscover StubToolClient (mkDiscoverInput objective chem workspace2 seed config)
                      (mkWorld files2 stub clock2 tick2) = (Ok r2, w2)
    /\ candidate_ids r1 = candidate_ids r2
    /\ summary_hash r1 = summary_hash r2
    /\ chosen_candidate_id r1 = chosen_candidate_id r2
    /\ run_id r1 = run_id r2
    /\ selected_chemistry r1 = selected_chemistry r2
    /\ res_truth_score r1 = res_truth_score r2
    /\ status r1 = status r2
    /\ iteration r1 = iteration r2.
Proof.
  intro stub.
  destruct (discover_dry_result (mkDiscoverInput objective chem workspace1 seed config)
              (mkWorld files1 stub clock1 tick1)) as (r1 & w1 & E1 & F1 & I1 & S1 & T1 & O1 & N1).
  destruct (discover_dry_result (mkDiscoverInput objective chem workspace2 seed config)
              (mkWorld files2 stub clock2 tick2)) as (r2 & w2 & E2 & F2 & I2 & S2 & T2 & O2 & N2).
  exists r1, w1, r2, w2. split; [exact E1|]. split; [exact E2|].
  cbn [di_chem_system di_seed di_objective client] in *.
  rewrite <- F2 in F1. injection F1 as -> -> ->.
  rewrite I1, I2, S1, S2, T1, T2, O1, O2, N1, N2. repeat split; reflexivity.
Qed.

End DryRunFacts.

(* ================================================================== *)
(** * Validate after discover, in a dry run *)

Module RevalidateFacts.
Import JsNumber Json Types.
Export DryRunFacts.
Local Open Scope effect_scope.

(** ** Files under a run directory *)

(** The file system whose paths are those of [l] under the directory [root]. *)
Definition under (root : string) (l : FileSystem) : FileSystem :=
  map (fun kv => ((root ++ fst kv)%string, snd kv)) l.

Lemma eqb_append (root a b : string) :
  String.eqb (root ++ a) (root ++ b) = String.eqb a b.
Proof.
  induction root as [|c root IH]; cbn; [reflexivity|].
  now rewrite Ascii.eqb_refl.
Qed.

Lemma get_under (root s : string) (l : FileSystem) :
  JsObject.get (root ++ s) (under root l) = JsObject.get s l.
Proof.
  induction l as [|[k v] tl IH]; [reflexivity|].
  unfold under. cbn [map JsObject.get fst snd]. fold (under root tl).
  rewrite eqb_append. destruct (String.eqb s k); [reflexivity | exact IH].
Qed.

Lemma set_under (root s : string) (v : File) (l : FileSystem) :
  JsObject.set (root ++ s) v (under root l) = under root (JsObject.set s v l).
Proof.
  induction l as [|[k w] tl IH]; [reflexivity|].
  unfold under at 1. cbn [map JsObject.set fst snd]. fold (under root tl).
  rewrite eqb_append. destruct (String.eqb s k); [reflexivity|].
  rewrite IH. reflexivity.
Qed.

Lemma strip_prefix_append (root a b : string) :
  JsString.strip_prefix (root ++ a) (root ++ b) = JsString.strip_prefix a b.
Proof.
  induction root as [|c root IH]; cbn; [reflexivity|].
  now rewrite Ascii.eqb_refl.
Qed.

Lemma readdir_under (root d : string) (l : FileSystem) :
  readdir_names (root ++ d) (under root l) = readdir_names d l.
Proof.
  induction l as [|[k v] tl IH]; [reflexivity|].
  unfold under. cbn [map readdir_names fst snd]. fold (under root tl).
  rewrite append_assoc, strip_prefix_append, IH. reflexivity.
Qed.

(** ** The shape of what the stub returns *)

Lemma runQlip_shape (s : Stub) :
  exists x1 x2 x3 x4 x5,
    fst (runQlip s)
    = [ mkCandidate "cand_0001" x1 (candidateContent "cand_0001" 1);
        mkCandidate "cand_0002" x2 (candidateContent "cand_0002" 2);
        mkCandidate "cand_0003" x3 (candidateContent "cand_0003" 3);
        mkCandidate "cand_0004" x4 (candidateContent "cand_0004" 4);
        mkCandidate "cand_0005" x5 (candidateContent "cand_0005" 5) ].
Proof.
  unfold runQlip. cbn [qlipLoop].
  repeat match goal with
         | |- context [Prng.nextFloat ?a ?b ?r] => destruct (Prng.nextFloat a b r)
         end.
  cbn [fst]. repeat eexists.
Qed.

Lemma batchValidate_ids (threshold : number) (l : list (CandidateSpec * nat)) : forall a,
  map vr_candidate_id (b_reports (fold_left (batchStep threshold) l a))
  = (map vr_candidate_id (b_reports a) ++ map (fun ci => candidate_id (fst ci)) l)%list.
Proof.
  induction l as [|[c i] tl IH]; intro a; cbn [fold_left map].
  - now rewrite app_nil_r.
  - rewrite IH. unfold batchStep.
    destruct (Prng.nextFloat (lit (-2) 2) (lit 2 2) (b_rng a)) as [noise r].
    cbn [b_reports fst]. rewrite map_app, <- app_assoc. reflexivity.
Qed.

Lemma fst_combine {A B} (l : list A) : forall l' : list B,
  List.length l = List.length l' -> map fst (combine l l') = l.
Proof.
  induction l as [|x tl IH]; intros [|y tl'] E; try discriminate E; [reflexivity|].
  cbn [combine map fst]. f_equal. apply IH. now injection E.
Qed.

Lemma fst_indexed {A} (l : list A) : map fst (combine l (seq 0 (List.length l))) = l.
Proof. apply fst_combine. now rewrite length_seq. Qed.

(** The reports of the stub carry the ids of the candidates, in order. *)
Lemma batchValidate_reports_ids (cands : list CandidateSpec) (s : Stub) :
  map vr_candidate_id (fst (fst (batchValidate cands s))) = map candidate_id cands.
Proof.
  unfold batchValidate. cbn [fst]. rewrite batchValidate_ids. cbn [b_reports map app].
  unfold indexed. rewrite <- (map_map fst candidate_id), fst_indexed. reflexivity.
Qed.


(** The summary of the stub depends on the candidates through their ids only. *)
Lemma batchStep_ids (threshold : number) (a : BatchAcc) (c c' : CandidateSpec) (i : nat) :
  candidate_id c = candidate_id c' ->
  batchStep threshold a (c, i) = batchStep threshold a (c', i).
Proof. intro E. unfold batchStep. now rewrite E. Qed.

Lemma fold_batchStep_ids (threshold : number) (l l' : list CandidateSpec) :
  map candidate_id l = map candidate_id l' ->
  forall (js : list nat) (a : BatchAcc),
    fold_left (batchStep threshold) (combine l js) a
    = fold_left (batchStep threshold) (combine l' js) a.
Proof.
  revert l'. induction l as [|c tl IH]; intros [|c' tl'] E js a; try discriminate E.
  - reflexivity.
  - injection E as E1 E2. destruct js as [|j js]; [reflexivity|].
    cbn [combine fold_left]. rewrite (batchStep_ids _ _ c c' j E1). now apply IH.
Qed.

Lemma batchValidate_ids_only (l l' : list CandidateSpec) (s : Stub) :
  map candidate_id l = map candidate_id l' -> batchValidate l s = batchValidate l' s.
Proof.
  intro E. unfold batchValidate, indexed.
  assert (N : List.length l = List.length l').
  { rewrite <- (length_map candidate_id l), E. apply length_map. }
  rewrite N, (fold_batchStep_ids _ l l' E). reflexivity.
Qed.


(** ** Validation of a run that is on disk *)

Definition stored (paths : RunPaths) (fs : FileSystem) (id : string) : Prop :=
  exists t, JsObject.get (join (candidatesDir paths) (id ++ ".cif")) fs = Some (FText t).

Lemma readCandidates_stored {St} (paths : RunPaths) (ids : list string) (w : World St) :
  Forall (stored paths (files w)) ids ->
  exists cands,
    mapM ids (fun candidateId =>
                content <- readCandidateContent paths candidateId ;;
                ret (mkCandidate candidateId 0%Q content)) w = (Ok cands, w)
    /\ map candidate_id cands = ids.
Proof.
  induction 1 as [|id tl [t Ht] _ (cands & E & I)]; cbn [mapM].
  - now exists [].
  - exists (mkCandidate id 0%Q t :: cands). split; [|cbn [map candidate_id]; now rewrite I].
    assert (R : readCandidateContent (St := St) paths id w = (Ok t, w)).
    { unfold readCandidateContent, bind, readFile. now rewrite Ht. }
    rewrite (bind_step _ _ _ _ _ (bind_step _ _ _ _ _ R)). unfold ret at 1.
    rewrite (bind_step _ _ _ _ _ E). reflexivity.
Qed.

Lemma listCandidateIds_eq {St} (paths : RunPaths) (w : World St) :
  listCandidateIds paths w
  = (Ok (JsSort.sort key_gtb (cif_stems (readdir_names (candidatesDir paths) (files w)))), w).
Proof. reflexivity. Qed.

(** A dry-run validate of a run whose constraints and candidates are on
    disk succeeds; its summary is the one the stub computes for the
    stored candidate ids from the state its generator is in. *)
Lemma validate_stored (input : RunInput) (w : World Stub) (c : ConstraintsSpec) :
  let paths := getRunPaths (ri_workspace_dir input) (ri_run_id input) in
  let ids := JsSort.sort key_gtb (cif_stems (readdir_names (candidatesDir paths) (files w))) in
  JsObject.get (constraintsPath paths) (files w) = Some (FConstraints c) ->
  Forall (stored paths (files w)) ids ->
  exists cands w',
    map candidate_id cands = ids
    /\ runCspValidate StubToolClient input w
       = (Ok (snd (fst (batchValidate cands (client w))),
              computeSummaryHash (snd (fst (batchValidate cands (client w))))), w')
    /\ JsObject.get (summaryPath (ri_workspace_dir input) (ri_run_id input)) (files w')
       = Some (FSummary (snd (fst (batchValidate cands (client w))))).
Proof.
  intros paths ids Hc Hs.
  destruct (readCandidates_stored paths ids w Hs) as (cands & E & I).
  exists cands. 
  enough (S : succeeds (runCspValidate StubToolClient input) w
                (fun r _ => r = (snd (fst (batchValidate cands (client w))),
                                 computeSummaryHash (snd (fst (batchValidate cands (client w)))))))
    by (destruct S as (r & w' & E' & ->); exists w'; split; [exact I|]; split; [exact E'|];
        destruct (validate_summary _ _ _ _ _ E') as (reports & supplied & _ & <- & _ & F);
        exact F).
  unfold runCspValidate. fold paths.
  apply succeeds_bind. eapply succeeds_eq.
  { unfold readConstraints, bind, readFile. cbn [client_state StubToolClient].
    rewrite Hc. reflexivity. }
  apply succeeds_bind. eapply succeeds_eq; [apply listCandidateIds_eq|]. fold ids.
  apply succeeds_bind. eapply succeeds_eq; [exact E|].
  apply succeeds_bind. unfold batchValidateCall.
  apply succeeds_bind. eapply succeeds_eq; [apply call_validate|]. apply succeeds_ret.
  cbn [fst snd].
  quiet_step. apply succeeds_ret.
  cbn [client set_client client_state StubToolClient]. reflexivity.
Qed.


(** ** The files of a dry-run discover, in a fresh workspace *)

Definition runRoot (workspaceDir runId : string) : string :=
  join (join workspaceDir "runs") runId.

Lemma getRunPaths_under (workspaceDir runId : string) :
  getRunPaths workspaceDir runId
  = let root := runRoot workspaceDir runId in
    mkRunPaths root (root ++ "/run_manifest.json") (root ++ "/constraints.json")
      (root ++ "/events.jsonl") (root ++ "/candidates") (root ++ "/validation")
      (root ++ "/exports").
Proof. reflexivity. Qed.

Section Under.
Context {St : Type}.
Variables (root : string) (L : FileSystem) (c : St) (k : nat -> string) (t : nat).

Lemma writeFile_under (s : string) (f : File) :
  writeFile (root ++ s) f (mkWorld (under root L) c k t)
  = (Ok tt, mkWorld (under root (JsObject.set s f L)) c k t).
Proof. unfold writeFile, with_files. cbn [files client clock tick]. now rewrite set_under. Qed.

Lemma appendFile_under (s text : string) :
  appendFile (root ++ s) text (mkWorld (under root L) c k t)
  = (Ok tt,
     mkWorld (under root
                (JsObject.set s
                   (FText (match JsObject.get s L with Some (FText old) => old | _ => "" end
                           ++ text)) L)) c k t).
Proof.
  unfold appendFile, with_files. cbn [files client clock tick].
  now rewrite set_under, get_under.
Qed.

Lemma now_eq (fs : FileSystem) : now (mkWorld fs c k t) = (Ok (k t), mkWorld fs c k (S t)).
Proof. reflexivity. Qed.
End Under.

Section Calls.
Variables (fs : FileSystem) (s : Stub) (k : nat -> string) (t : nat).

Lemma fetch_at input p :
  fst (fetchPriors s) = Some p ->
  callTool StubToolClient "materials-data-mcp.fetch_priors" input (mkWorld fs s k t)
  = (Ok (OutPriors p), mkWorld fs (snd (fetchPriors s)) k t).
Proof. intro H. now rewrite (call_fetch input (mkWorld fs s k t) p H). Qed.

Lemma suggest_at input :
  callTool StubToolClient "materials-data-mcp.suggest_chemistries" input (mkWorld fs s k t)
  = (Ok (OutChemistries (fst (suggestChemistries s))),
     mkWorld fs (snd (suggestChemistries s)) k t).
Proof. now rewrite call_suggest. Qed.

Lemma qlip_at input :
  callTool StubToolClient "qlip-mcp.run_qlip" input (mkWorld fs s k t)
  = (Ok (OutCandidates (fst (runQlip s))), mkWorld fs (snd (runQlip s)) k t).
Proof. now rewrite call_qlip. Qed.

Lemma validate_at cands c seed thr :
  callTool StubToolClient "csp-validators-mcp.batch_validate"
    (InBatchValidate cands c seed thr) (mkWorld fs s k t)
  = (Ok (OutValidation (fst (fst (batchValidate cands s)))
                       (Some (snd (fst (batchValidate cands s))))),
     mkWorld fs (snd (batchValidate cands s)) k t).
Proof. now rewrite call_validate. Qed.
End Calls.

Ltac fs_norm :=
  cbv beta;
  cbn [runDir manifestPath constraintsPath eventsPath candidatesDir validationDir exportsDir
       candidate_id vr_candidate_id set_client files client clock tick];
  unfold join; rewrite ?append_assoc; cbn [append];
  cbn [JsObject.set JsObject.get String.eqb Ascii.eqb Bool.eqb andb].

Ltac fs_step :=
  lazymatch goal with
  | |- succeeds (bind _ _) _ _ => apply succeeds_bind
  | |- succeeds (ret _) _ _ => apply succeeds_ret
  | |- succeeds (ensureDir _) _ _ => apply succeeds_ret
  | |- succeeds now _ _ => eapply succeeds_eq; [apply now_eq|]
  | |- succeeds (writeFile _ _) _ _ => eapply succeeds_eq; [apply writeFile_under|]
  | |- succeeds (appendFile _ _) _ _ => eapply succeeds_eq; [apply appendFile_under|]
  | |- succeeds (forEach [] _) _ _ => apply succeeds_ret
  | |- succeeds (forEach (_ :: _) _) _ _ => cbn [forEach]
  | |- succeeds (ensureManifest _ _ _) _ _ => unfold ensureManifest
  | |- succeeds (appendEvent _ _) _ _ => unfold appendEvent
  | |- succeeds (writeManifest _ _) _ _ => unfold writeManifest
  | |- succeeds (writeConstraints _ _) _ _ => unfold writeConstraints
  | |- succeeds (writeCandidates _ _) _ _ => unfold writeCandidates
  | |- succeeds (writeValidationReports _ _ _) _ _ => unfold writeValidationReports
  | |- succeeds (ensureRunDirectories _) _ _ => unfold ensureRunDirectories
  end; fs_norm.

Definition candidateNames : list string :=
  ["cand_0001.cif"; "cand_0002.cif"; "cand_0003.cif"; "cand_0004.cif"; "cand_0005.cif"].

Definition candidateIds : list string :=
  ["cand_0001"; "cand_0002"; "cand_0003"; "cand_0004"; "cand_0005"].

Lemma five_reports (cands : list CandidateSpec) (s : Stub) :
  map candidate_id cands = candidateIds ->
  exists r1 r2 r3 r4 r5,
    fst (fst (batchValidate cands s)) = [r1; r2; r3; r4; r5]
    /\ vr_candidate_id r1 = "cand_0001" /\ vr_candidate_id r2 = "cand_0002"
    /\ vr_candidate_id r3 = "cand_0003" /\ vr_candidate_id r4 = "cand_0004"
    /\ vr_candidate_id r5 = "cand_0005".
Proof.
  intro E. pose proof (batchValidate_reports_ids cands s) as H. rewrite E in H.
  destruct (fst (fst (batchValidate cands s))) as [|r1 [|r2 [|r3 [|r4 [|r5 [|r6 tl]]]]]];
    try discriminate H.
  injection H as H1 H2 H3 H4 H5. now exists r1, r2, r3, r4, r5.
Qed.

Definition discovered (paths : RunPaths) (fs : FileSystem) : Prop :=
  (exists c, JsObject.get (constraintsPath paths) fs = Some (FConstraints c))
  /\ readdir_names (candidatesDir paths) fs = candidateNames
  /\ Forall (stored paths fs) candidateIds.

Lemma discover_tail_files (input : DiscoverInput) (root : string) (manifest : RunManifest)
      (runId selectedChemistry : string) (m0 : RunManifest) (e0 : string)
      (s : Stub) (k : nat -> string) (t : nat) :
  let paths := mkRunPaths root (root ++ "/run_manifest.json") (root ++ "/constraints.json")
      (root ++ "/events.jsonl") (root ++ "/candidates") (root ++ "/validation")
      (root ++ "/exports") in
  succeeds
    (priorsOut <- callTool StubToolClient "materials-data-mcp.fetch_priors"
                    (InFetchPriors selectedChemistry (di_seed input)) ;;
     priors_ <- match priorsOut with OutPriors p => ret p | _ => malformed StubToolClient end ;;
     constraintsOut <-
       callTool StubToolClient "qlip-mcp.build_constraints"
         (InBuildConstraints selectedChemistry priors_
            [ ("solver", JStr (solver_name (solver (qlip (di_config input)))));
              ("max_atoms", JNum (max_atoms (qlip (di_config input)))) ]) ;;
     constraints <- match constraintsOut with
                    | OutConstraints c => ret c
                    | _ => malformed StubToolClient
                    end ;;
     writeConstraints paths constraints ;;;
     candidates <- runQlipCall StubToolClient constraints (di_seed input) runId None ;;
     writeCandidates paths candidates ;;;
     validation <- batchValidateCall StubToolClient candidates constraints (di_seed input)
                     (di_config input) ;;
     let summary := match snd validation with
                    | Some supplied => supplied
                    | None => Verify.summarizeValidation (fst validation)
                                (truth_accept_threshold (policy (di_config input)))
                    end in
     writeValidationReports paths (fst validation) summary ;;;
     let summaryHash := computeSummaryHash summary in
     let chosenCandidateId := best_candidate_id summary in
     let truthScore := truthScoreOf summary in
     updated_at <- now ;;
     let updatedManifest :=
       mkManifest (rm_run_id manifest) ok (rm_objective manifest) selectedChemistry
         (rm_seed manifest) (rm_created_at manifest) updated_at (rm_iteration manifest)
         (rm_max_iters manifest) (Some chosenCandidateId) (Some truthScore)
         (rm_config_snapshot manifest) in
     ensureManifest StubToolClient paths updatedManifest ;;;
     ret (mkRunResult runId ok (di_workspace_dir input) (runDir paths) selectedChemistry
            chosenCandidateId truthScore (map candidate_id candidates) summaryHash 0))
    (mkWorld (under root [("/run_manifest.json", FManifest m0); ("/events.jsonl", FText e0)])
             s k t)
    (fun _ w' => discovered paths (files w')).
Proof.
  intro paths. subst paths.
  destruct (fetchPriors_some s) as [p Hp].
  apply succeeds_bind. eapply succeeds_eq; [apply (fetch_at _ _ _ _ _ p Hp)|]. fs_norm.
  apply succeeds_bind, succeeds_ret.
  apply succeeds_bind. eapply succeeds_eq; [apply call_build|]. fs_norm.
  apply succeeds_bind, succeeds_ret.
  do 3 fs_step.
  apply succeeds_bind. unfold runQlipCall.
  apply succeeds_bind. eapply succeeds_eq; [apply qlip_at|]. apply succeeds_ret. fs_norm.
  destruct (runQlip_shape (snd (fetchPriors s))) as (x1 & x2 & x3 & x4 & x5 & Hq).
  rewrite Hq.
  repeat fs_step.
  unfold batchValidateCall.
  apply succeeds_bind. eapply succeeds_eq; [apply validate_at|]. apply succeeds_ret. fs_norm.
  cbn [fst snd].
  match goal with
  | |- context [fst (fst (batchValidate ?cands ?st))] =>
      destruct (five_reports cands st eq_refl)
        as (r1 & r2 & r3 & r4 & r5 & Hr & I1 & I2 & I3 & I4 & I5)
  end.
  rewrite Hr.
  repeat (fs_step; rewrite ?I1, ?I2, ?I3, ?I4, ?I5; fs_norm).
  cbn [files]. unfold discovered, stored, candidateIds, candidateNames.
  cbn [constraintsPath candidatesDir]. unfold join.
  split; [|split].
  - eexists. rewrite get_under. reflexivity.
  - rewrite readdir_under. reflexivity.
  - repeat constructor; eexists; rewrite append_assoc, get_under; reflexivity.
Qed.


Lemma discover_files (input : DiscoverInput) (s : Stub) (k : nat -> string) (t : nat) :
  succeeds (runCspDiscover StubToolClient input) (mkWorld [] s k t)
    (fun _ w' =>
       discovered (getRunPaths (di_workspace_dir input)
                     (createRunId (di_seed input) (di_objective input))) (files w')).
Proof.
  unfold runCspDiscover. rewrite getRunPaths_under. cbv zeta.
  generalize (runRoot (di_workspace_dir input)
                (createRunId (di_seed input) (di_objective input))).
  intro root. change (@nil (string * File)) with (under root []).
  repeat fs_step.
  destruct (truthy (di_chem_system input)) as [chem|].
  - fs_step. fs_step. fs_step.
    apply discover_tail_files.
  - apply succeeds_bind. eapply succeeds_eq; [apply suggest_at|]. fs_norm. fs_step.
    destruct (selectChemistry_three _ (di_seed input) (suggestChemistries_three s)) as [c Hc].
    apply succeeds_bind. rewrite Hc. cbn [lift]. fs_step.
    apply discover_tail_files.
Qed.


(** The state of the stub when discover calls run_qlip: after
    suggest_chemistries, unless a chemistry is given, and fetch_priors. *)
Definition drawn (chem : option string) (s : Stub) : Stub :=
  snd (fetchPriors match truthy chem with
                   | Some _ => s
                   | None => snd (suggestChemistries s)
                   end).

Lemma dryFields_drawn (chem : option string) (s : Stub) :
  dryFields chem s
  = (map candidate_id (fst (runQlip (drawn chem s))),
     computeSummaryHash
       (snd (fst (batchValidate (fst (runQlip (drawn chem s)))
                                (snd (runQlip (drawn chem s)))))),
     best_candidate_id
       (snd (fst (batchValidate (fst (runQlip (drawn chem s)))
                                (snd (runQlip (drawn chem s))))))).
Proof. unfold dryFields, drawn. destruct (truthy chem); reflexivity. Qed.

Lemma discover_run (objective : string) (chem : option string) (workspace : string)
      (seed : Z) (config : CspConfig) (s : Stub) (k : nat -> string) (t : nat) :
  exists r w1,
    runCspDiscover StubToolClient (mkDiscoverInput objective chem workspace seed config)
                   (mkWorld [] s k t) = (Ok r, w1)
    /\ discovered (getRunPaths workspace (run_id r)) (files w1)
    /\ candidate_ids r = map candidate_id (fst (runQlip (drawn chem s)))
    /\ summary_hash r
       = computeSummaryHash
           (snd (fst (batchValidate (fst (runQlip (drawn chem s)))
                                    (snd (runQlip (drawn chem s)))))).
Proof.
  destruct (discover_files (mkDiscoverInput objective chem workspace seed config) s k t)
    as (r & w1 & E1 & D).
  destruct (discover_dry_run (mkDiscoverInput objective chem workspace seed config)
              (mkWorld [] s k t)) as (r' & w1' & E1' & F & I).
  rewrite E1 in E1'. injection E1' as <- <-.
  cbn [di_chem_system client] in F. rewrite dryFields_drawn in F.
  exists r, w1. split; [exact E1|]. split; [rewrite I; exact D|].
  split; congruence.
Qed.

Lemma sorted_names : JsSort.sort key_gtb (cif_stems candidateNames) = candidateIds.
Proof. reflexivity. Qed.

(** C4, as amended.  A dry-run discover with seed s in a fresh workspace,
    followed by a dry-run validate of that run with the same seed, both
    succeed, and validate writes a summary.json for the same five
    candidates.  Both summaries are the stub's validation of these
    candidates, but from different states of its generator: validate starts
    from the freshly seeded generator, discover from the generator as its
    earlier tool calls have left it.  The hash of validate is the hash of
    the former summary, the hash of discover that of the latter. *)
Theorem validate_after_discover
        (seed : Z) (objective : string) (chem : option string) (config : CspConfig)
        (workspace : string) (clock clock' : nat -> string) (tick tick' : nat) :
  let fresh := newStub seed (Some (truth_accept_threshold (policy config))) in
  let candidates := fst (runQlip (drawn chem fresh)) in
  exists r w1 summary hash w2,
    runCspDiscover StubToolClient (mkDiscoverInput objective chem workspace seed config)
                   (mkWorld [] fresh clock tick) = (Ok r, w1)
    /\ runCspValidate StubToolClient (mkRunInput (run_id r) workspace seed config)
                      (mkWorld (files w1) fresh clock' tick') = (Ok (summary, hash), w2)
    /\ candidate_ids r = map candidate_id candidates
    /\ summary_hash r
       = computeSummaryHash
           (snd (fst (batchValidate candidates (snd (runQlip (drawn chem fresh))))))
    /\ summary = snd (fst (batchValidate candidates fresh))
    /\ hash = computeSummaryHash summary
    /\ JsObject.get (summaryPath workspace (run_id r)) (files w2) = Some (FSummary summary).
Proof.
  generalize (newStub seed (Some (truth_accept_threshold (policy config)))).
  intro fresh. cbv zeta.
  destruct (discover_run objective chem workspace seed config fresh clock tick)
    as (r & w1 & E1 & D & F1 & F2).
  destruct D as ([c Hc] & Hn & Hs).
  destruct (validate_stored (mkRunInput (run_id r) workspace seed config)
              (mkWorld (files w1) fresh clock' tick') c Hc)
    as (cands & w2 & Hi & E2 & S2).
  { cbn [files ri_workspace_dir ri_run_id]. rewrite Hn, sorted_names. exact Hs. }
  cbn [files ri_workspace_dir ri_run_id] in Hi. rewrite Hn, sorted_names in Hi.
  assert (Q : map candidate_id (fst (runQlip (drawn chem fresh))) = candidateIds).
  { destruct (runQlip_shape (drawn chem fresh)) as (x1 & x2 & x3 & x4 & x5 & Hq).
    rewrite Hq. reflexivity. }
  assert (B : batchValidate cands fresh
              = batchValidate (fst (runQlip (drawn chem fresh))) fresh).
  { apply batchValidate_ids_only. rewrite Q. exact Hi. }
  cbn [client ri_workspace_dir ri_run_id] in E2, S2.
  rewrite B in E2, S2.
  exists r, w1, (snd (fst (batchValidate (fst (runQlip (drawn chem fresh))) fresh))),
    (computeSummaryHash (snd (fst (batchValidate (fst (runQlip (drawn chem fresh))) fresh)))),
    w2.
  split; [exact E1|]. split; [exact E2|]. split; [exact F1|].
  split; [exact F2|]. split; [reflexivity|]. split; [reflexivity | exact S2].
Qed.

(** C4 fails as stated: with seed 1, a dry-run discover and then a dry-run
    validate of that run give two different summary hashes. *)
Lemma validate_hash_differs :
  exists r w1 summary hash w2,
    runCspDiscover StubToolClient dry_input dry_world = (Ok r, w1)
    /\ runCspValidate StubToolClient (mkRunInput (run_id r) "/ws" 1 dry_config)
         (mkWorld (files w1) (newStub 1 (Some (truth_accept_threshold (policy dry_config))))
                  (fun _ => "2026-01-01T00:00:10.000Z") 0%nat)
       = (Ok (summary, hash), w2)
    /\ JsObject.get "/ws/runs/run_1_18d23804/validation/summary.json" (files w2)
       = Some (FSummary summary)
    /\ summary_hash r = "491bb859655b53d692a68c99360943bd0fb3ede9a68bafcab612c8ccd57c5464"
    /\ hash = "5f06df5b6bb926f5da4c0997acbb10e65f4a90ba04e39c021a627c0a4b76888f"
    /\ hash <> summary_hash r.
Proof.
  eexists _, _, _, _, _. split; [vm_compute; reflexivity|].
  split; [vm_compute; reflexivity|]. split; [vm_compute; reflexivity|].
  split; [vm_compute; reflexivity|]. split; [vm_compute; reflexivity|].
  vm_compute. discriminate.
Qed.

End RevalidateFacts.

(* ================================================================== *)
(** * The canonical form written by [stableStringify] *)

Module StableFacts.
Import JsNumber Json.

(** ** The order of the keys *)

Definition key_lt (a b : string) : Prop := String.ltb a b = true.

Lemma key_lt_compare (a b : string) : key_lt a b <-> String.compare a b = Lt.
Proof.
  unfold key_lt, String.ltb. destruct (String.compare a b); split; congruence.
Qed.

Lemma key_lt_trans (a b c : string) : key_lt a b -> key_lt b c -> key_lt a c.
Proof.
  rewrite !key_lt_compare. intros H1 H2.
  apply OrderedTypeEx.String_as_OT.cmp_lt in H1, H2.
  apply OrderedTypeEx.String_as_OT.cmp_lt.
  exact (OrderedTypeEx.String_as_OT.lt_trans _ _ _ H1 H2).
Qed.

Lemma key_lt_asym (a b : string) : key_lt a b -> ~ key_lt b a.
Proof.
  rewrite !key_lt_compare. intros H1 H2.
  rewrite String.compare_antisym, H1 in H2. discriminate H2.
Qed.

Lemma key_lt_irrefl (a : string) : ~ key_lt a a.
Proof. intro H. exact (key_lt_asym a a H H). Qed.

Lemma not_key_lt (a b : string) : String.ltb a b = false -> a = b \/ key_lt b a.
Proof.
  unfold key_lt, String.ltb. rewrite (String.compare_antisym b a).
  destruct (String.compare a b) eqn:E; intro H; try discriminate H.
  - left. now apply String.compare_eq_iff.
  - right. reflexivity.
Qed.

(** ** Sorting by key *)

Section ByKey.
Context {A : Type} (key : A -> string).

Definition by_key (a b : A) : bool := String.ltb (key b) (key a).

Definition before (a b : A) : Prop := key_lt (key a) (key b).

Definition increasing (l : list A) : Prop := StronglySorted before l.

Lemma insert_permutation (gtb : A -> A -> bool) (x : A) (l : list A) :
  Permutation (JsSort.insert gtb x l) (x :: l).
Proof.
  induction l as [|y tl IH]; cbn; [reflexivity|].
  destruct (gtb x y); [|reflexivity].
  rewrite IH. apply perm_swap.
Qed.

Lemma sort_permutation (gtb : A -> A -> bool) (l : list A) :
  Permutation (JsSort.sort gtb l) l.
Proof.
  induction l as [|x tl IH]; cbn; [reflexivity|].
  rewrite insert_permutation. now constructor.
Qed.

Lemma insert_increasing (x : A) (l : list A) :
  increasing l -> ~ In (key x) (map key l) -> increasing (JsSort.insert by_key x l).
Proof.
  unfold increasing. induction 1 as [|y tl S IH F]; intro N; cbn.
  - repeat constructor.
  - unfold by_key at 1. destruct (String.ltb (key y) (key x)) eqn:E.
    + constructor.
      * apply IH. intro I. apply N. now right.
      * rewrite (Forall_forall (before y)). intros z Hz.
        apply (Permutation_in _ (insert_permutation by_key x tl)) in Hz.
        destruct Hz as [<- | Hz]; [exact E|].
        rewrite Forall_forall in F. now apply F.
    + assert (L : before x y).
      { destruct (not_key_lt _ _ E) as [Q | L]; [|exact L].
        exfalso. apply N. left. exact Q. }
      constructor; [now constructor|].
      constructor; [exact L|].
      rewrite Forall_forall in *. intros z Hz.
      exact (key_lt_trans _ _ _ L (F z Hz)).
Qed.

Lemma sort_increasing (l : list A) :
  NoDup (map key l) -> increasing (JsSort.sort by_key l).
Proof.
  induction l as [|x tl IH]; cbn; intro N.
  - constructor.
  - inversion N as [|? ? Hx Htl]; subst.
    apply insert_increasing; [now apply IH|].
    intro I. apply Hx.
    apply (Permutation_in _ (Permutation_map key (sort_permutation by_key tl))). exact I.
Qed.

Lemma increasing_unique (l1 : list A) :
  forall l2, increasing l1 -> increasing l2 -> Permutation l1 l2 -> l1 = l2.
Proof.
  unfold increasing.
  induction l1 as [|a tl1 IH]; intros l2 S1 S2 P.
  - apply Permutation_nil in P. now subst.
  - destruct l2 as [|b tl2]; [apply Permutation_sym, Permutation_nil in P; discriminate P|].
    inversion S1 as [|? ? S1' F1]; subst. inversion S2 as [|? ? S2' F2]; subst.
    rewrite Forall_forall in F1, F2.
    assert (E : a = b).
    { assert (Ia : In a (b :: tl2)) by (apply (Permutation_in _ P); now left).
      assert (Ib : In b (a :: tl1)) by (apply (Permutation_in _ (Permutation_sym P)); now left).
      destruct Ia as [E | Ia]; [now symmetry|].
      destruct Ib as [E | Ib]; [exact E|].
      exfalso. exact (key_lt_asym _ _ (F1 b Ib) (F2 a Ia)). }
    subst b. f_equal. apply IH; [exact S1' | exact S2'|].
    exact (Permutation_cons_inv P).
Qed.

Lemma increasing_NoDup (l : list A) : increasing l -> NoDup (map key l).
Proof.
  induction 1 as [|a tl S IH F]; cbn; constructor; [|exact IH].
  rewrite Forall_forall in F. intro I. apply in_map_iff in I as (b & E & Hb).
  apply (key_lt_irrefl (key a)). pose proof (F b Hb) as L. unfold before in L.
  now rewrite E in L.
Qed.

(** Two lists with the same members, of distinct keys, are sorted alike. *)
Lemma sort_permuted (l1 l2 : list A) :
  NoDup (map key l1) -> Permutation l1 l2 -> JsSort.sort by_key l1 = JsSort.sort by_key l2.
Proof.
  intros N P. apply increasing_unique.
  - now apply sort_increasing.
  - apply sort_increasing.
    exact (Permutation_NoDup (Permutation_map key P) N).
  - rewrite !sort_permutation. exact P.
Qed.

Lemma sort_of_increasing (l : list A) : increasing l -> JsSort.sort by_key l = l.
Proof.
  intro S. apply increasing_unique; [|exact S | apply sort_permutation].
  apply sort_increasing. now apply increasing_NoDup.
Qed.

End ByKey.

Lemma insert_map {A B} (key : A -> string) (key' : B -> string) (f : A -> B) :
  (forall a, key' (f a) = key a) ->
  forall x l, JsSort.insert (by_key key') (f x) (map f l)
              = map f (JsSort.insert (by_key key) x l).
Proof.
  intros H x l. induction l as [|y tl IH]; cbn; [reflexivity|].
  unfold by_key at 1 3. rewrite !H.
  destruct (String.ltb (key y) (key x)); cbn; [now rewrite IH | reflexivity].
Qed.

Lemma sort_map {A B} (key : A -> string) (key' : B -> string) (f : A -> B) :
  (forall a, key' (f a) = key a) ->
  forall l, JsSort.sort (by_key key') (map f l) = map f (JsSort.sort (by_key key) l).
Proof.
  intros H l. induction l as [|x tl IH]; cbn; [reflexivity|].
  rewrite IH. now apply insert_map.
Qed.


(** ** Values, their canonical form and its text *)

Lemma json_induction (P : json -> Prop) :
  P JNull -> (forall b, P (JBool b)) -> (forall n, P (JNum n)) -> (forall s, P (JStr s)) ->
  (forall items, Forall P items -> P (JArr items)) ->
  (forall props, Forall (fun kv => P (snd kv)) props -> P (JObj props)) ->
  forall x, P x.
Proof.
  intros Hnull Hbool Hnum Hstr Harr Hobj. fix IH 1.
  intros [ | b | n | s | items | props ].
  - exact Hnull.
  - apply Hbool.
  - apply Hnum.
  - apply Hstr.
  - apply Harr. induction items as [|v tl IHl]; constructor; [apply IH | exact IHl].
  - apply Hobj. induction props as [|[k v] tl IHl]; constructor; [apply IH | exact IHl].
Qed.

(** The value with the members of every object sorted by key; arrays keep
    their order. *)
Fixpoint sort_keys (x : json) : json :=
  match x with
  | JArr items => JArr (map sort_keys items)
  | JObj props =>
      JObj (JsSort.sort (by_key fst)
              ((fix go (l : list (string * json)) : list (string * json) :=
                  match l with
                  | [] => []
                  | (k, w) :: tl => (k, sort_keys w) :: go tl
                  end) props))
  | _ => x
  end.

(** The text of a value, members and items in the order they are listed. *)
Fixpoint plain (x : json) : string :=
  match x with
  | JNull => "null"
  | JBool true => "true"
  | JBool false => "false"
  | JNum n => to_string n
  | JStr s => quote s
  | JArr items => "[" ++ JsString.join "," (map plain items) ++ "]"
  | JObj props =>
      "{" ++ JsString.join ","
               ((fix go (l : list (string * json)) : list string :=
                   match l with
                   | [] => []
                   | (k, w) :: tl => (quote k ++ ":" ++ plain w) :: go tl
                   end) props) ++ "}"
  end.

(** The keys of every object are listed in strictly increasing order. *)
Fixpoint ordered (x : json) : Prop :=
  match x with
  | JArr items =>
      (fix all (l : list json) : Prop :=
         match l with
         | [] => True
         | v :: tl => ordered v /\ all tl
         end) items
  | JObj props =>
      increasing fst props
      /\ (fix all (l : list (string * json)) : Prop :=
            match l with
            | [] => True
            | (_, v) :: tl => ordered v /\ all tl
            end) props
  | _ => True
  end.

(** The values that are read back: the keys of an object are distinct, and
    a number is one that [JSON.parse] reads back from its own text, which
    every finite number is ([NumberText.number_round_trip] below). *)
Fixpoint well_formed (x : json) : Prop :=
  match x with
  | JNum n => parse_number (to_string n) = Some n
  | JArr items =>
      (fix all (l : list json) : Prop :=
         match l with
         | [] => True
         | v :: tl => well_formed v /\ all tl
         end) items
  | JObj props =>
      NoDup (map fst props)
      /\ (fix all (l : list (string * json)) : Prop :=
            match l with
            | [] => True
            | (_, v) :: tl => well_formed v /\ all tl
            end) props
  | _ => True
  end.

Definition on_values {B} (f : json -> B) (kv : string * json) : string * B :=
  (fst kv, f (snd kv)).

Lemma well_formed_arr (items : list json) :
  well_formed (JArr items) <-> Forall well_formed items.
Proof.
  cbn [well_formed]. induction items as [|v tl IH].
  - split; constructor.
  - split.
    + intros [Hv Htl]. constructor; [exact Hv | now apply IH].
    + intro F. inversion F; subst. split; [assumption | now apply IH].
Qed.

Lemma well_formed_obj (props : list (string * json)) :
  well_formed (JObj props)
  <-> NoDup (map fst props) /\ Forall (fun kv => well_formed (snd kv)) props.
Proof.
  cbn [well_formed].
  enough (E : (fix all (l : list (string * json)) : Prop :=
                 match l with
                 | [] => True
                 | (_, v) :: tl => well_formed v /\ all tl
                 end) props <-> Forall (fun kv => well_formed (snd kv)) props)
    by (now rewrite E).
  induction props as [|[k v] tl IH].
  - split; constructor.
  - split.
    + intros [Hv Htl]. constructor; [exact Hv | now apply IH].
    + intro F. inversion F; subst. split; [assumption | now apply IH].
Qed.

Lemma ordered_arr (items : list json) : ordered (JArr items) <-> Forall ordered items.
Proof.
  cbn [ordered]. induction items as [|v tl IH].
  - split; constructor.
  - split.
    + intros [Hv Htl]. constructor; [exact Hv | now apply IH].
    + intro F. inversion F; subst. split; [assumption | now apply IH].
Qed.

Lemma ordered_obj (props : list (string * json)) :
  ordered (JObj props)
  <-> increasing fst props /\ Forall (fun kv => ordered (snd kv)) props.
Proof.
  cbn [ordered].
  enough (E : (fix all (l : list (string * json)) : Prop :=
                 match l with
                 | [] => True
                 | (_, v) :: tl => ordered v /\ all tl
                 end) props <-> Forall (fun kv => ordered (snd kv)) props)
    by (now rewrite E).
  induction props as [|[k v] tl IH].
  - split; constructor.
  - split.
    + intros [Hv Htl]. constructor; [exact Hv | now apply IH].
    + intro F. inversion F; subst. split; [assumption | now apply IH].
Qed.

Lemma sort_keys_obj (props : list (string * json)) :
  sort_keys (JObj props) = JObj (JsSort.sort (by_key fst) (map (on_values sort_keys) props)).
Proof.
  cbn [sort_keys]. do 2 f_equal.
  induction props as [|[k v] tl IH]; [reflexivity|]. now rewrite IH.
Qed.

Lemma plain_obj (props : list (string * json)) :
  plain (JObj props)
  = "{" ++ JsString.join "," (map (fun kv => quote (fst kv) ++ ":" ++ plain (snd kv)) props)
        ++ "}".
Proof.
  cbn [plain]. do 3 f_equal.
  induction props as [|[k v] tl IH]; [reflexivity|]. now rewrite IH.
Qed.

Lemma stableStringify_obj (record : list (string * json)) :
  stableStringify (JObj record)
  = "{" ++ JsString.join ","
             (map (fun key => quote key ++ ":"
                              ++ lookup key (map (on_values stableStringify) record))
                  (JsSort.sort key_gtb (JsObject.keys record))) ++ "}".
Proof.
  cbn [stableStringify].
  replace ((fix go (l : list (string * json)) : list (string * string) :=
              match l with
              | [] => []
              | (k, w) :: tl => (k, stableStringify w) :: go tl
              end) record)
    with (map (on_values stableStringify) record); [reflexivity|].
  induction record as [|[k v] tl IH]; [reflexivity|]. cbn [map]. now rewrite IH.
Qed.

(** ** Objects *)

Lemma filter_permutation {A} (p : A -> bool) (l : list A) :
  Permutation (filter p l ++ filter (fun a => negb (p a)) l) l.
Proof.
  induction l as [|a tl IH]; cbn; [reflexivity|].
  destruct (p a); cbn.
  - now constructor.
  - rewrite <- Permutation_middle. now constructor.
Qed.

Lemma entries_permutation {V} (o : list (string * V)) : Permutation (JsObject.entries o) o.
Proof.
  unfold JsObject.entries. rewrite sort_permutation. apply filter_permutation.
Qed.

Lemma get_member {V} (k : string) (v : V) (o : list (string * V)) :
  NoDup (map fst o) -> In (k, v) o -> JsObject.get k o = Some v.
Proof.
  induction o as [|[k' v'] tl IH]; cbn; intros N I; [contradiction|].
  inversion N as [|? ? Hk Htl]; subst.
  destruct I as [E | I].
  - injection E as -> ->. now rewrite String.eqb_refl.
  - destruct (String.eqb k k') eqn:E; [|now apply IH].
    apply String.eqb_eq in E. subst k'. exfalso. apply Hk.
    apply in_map_iff. now exists (k, v).
Qed.

(** An object is rendered member by member, in the order of the keys. *)
Lemma sorted_members (f : json -> string) (record : list (string * json)) :
  NoDup (map fst record) ->
  map (fun key => quote key ++ ":" ++ lookup key (map (on_values f) record))
      (JsSort.sort key_gtb (JsObject.keys record))
  = map (fun kv => quote (fst kv) ++ ":" ++ f (snd kv)) (JsSort.sort (by_key fst) record).
Proof.
  intro N. unfold JsObject.keys.
  change key_gtb with (by_key (fun s : string => s)).
  rewrite (sort_map fst (fun s => s) fst (fun _ => eq_refl)).
  rewrite (sort_permuted fst (JsObject.entries record) record).
  - rewrite map_map. apply map_ext_in. intros [k v] I. cbn [fst snd].
    apply (Permutation_in _ (sort_permutation _ _)) in I.
    unfold lookup. rewrite (get_member k (f v)); [reflexivity | |].
    + rewrite map_map. cbn [on_values fst]. exact N.
    + apply in_map_iff. now exists (k, v).
  - exact (Permutation_NoDup
             (Permutation_map fst (Permutation_sym (entries_permutation record))) N).
  - apply entries_permutation.
Qed.

Lemma stableStringify_members (record : list (string * json)) :
  NoDup (map fst record) ->
  stableStringify (JObj record)
  = "{" ++ JsString.join ","
             (map (fun kv => quote (fst kv) ++ ":" ++ stableStringify (snd kv))
                  (JsSort.sort (by_key fst) record)) ++ "}".
Proof. intro N. now rewrite stableStringify_obj, sorted_members. Qed.

Lemma Forall_sorted {A} (gtb : A -> A -> bool) (P : A -> Prop) (l : list A) :
  Forall P l -> Forall P (JsSort.sort gtb l).
Proof.
  intro F. rewrite Forall_forall in *. intros a I. apply F.
  exact (Permutation_in _ (sort_permutation gtb l) I).
Qed.

Lemma keys_on_values {B} (f : json -> B) (l : list (string * json)) :
  map fst (map (on_values f) l) = map fst l.
Proof. rewrite map_map. reflexivity. Qed.

(** The text is that of the canonical form, written in the order listed. *)
Lemma stableStringify_plain (x : json) :
  well_formed x -> stableStringify x = plain (sort_keys x).
Proof.
  induction x as [ | b | n | s | items IH | props IH ] using json_induction; intro W;
    try reflexivity.
  - apply well_formed_arr in W. cbn [stableStringify sort_keys plain].
    do 3 f_equal. rewrite map_map. apply map_ext_in. intros v I.
    rewrite Forall_forall in IH, W. now apply IH, W.
  - apply well_formed_obj in W as [N W].
    rewrite (stableStringify_members props N), sort_keys_obj, plain_obj.
    do 3 f_equal.
    rewrite (sort_map fst fst (on_values sort_keys) (fun _ => eq_refl)), map_map.
    apply map_ext_in. intros [k v] I. cbn [on_values fst snd]. do 2 f_equal.
    apply (Permutation_in _ (sort_permutation _ _)) in I.
    rewrite Forall_forall in IH, W. exact (IH _ I (W _ I)).
Qed.

Lemma sort_keys_ordered (x : json) : well_formed x -> ordered (sort_keys x).
Proof.
  induction x as [ | b | n | s | items IH | props IH ] using json_induction; intro W;
    try exact I.
  - apply well_formed_arr in W. cbn [sort_keys]. apply ordered_arr.
    rewrite Forall_forall in *. intros v I. apply in_map_iff in I as (u & <- & I).
    now apply IH, W.
  - apply well_formed_obj in W as [N W]. rewrite sort_keys_obj. apply ordered_obj. split.
    + apply sort_increasing. now rewrite keys_on_values.
    + apply Forall_sorted. rewrite Forall_forall in *. intros kv I.
      apply in_map_iff in I as ([k v] & <- & I). exact (IH _ I (W _ I)).
Qed.

Lemma sort_keys_well_formed (x : json) : well_formed x -> well_formed (sort_keys x).
Proof.
  induction x as [ | b | n | s | items IH | props IH ] using json_induction; intro W;
    try exact W.
  - apply well_formed_arr in W. cbn [sort_keys]. apply well_formed_arr.
    rewrite Forall_forall in *. intros v I. apply in_map_iff in I as (u & <- & I).
    now apply IH, W.
  - apply well_formed_obj in W as [N W]. rewrite sort_keys_obj. apply well_formed_obj. split.
    + apply (Permutation_NoDup
               (Permutation_map fst (Permutation_sym (sort_permutation _ _)))).
      now rewrite keys_on_values.
    + apply Forall_sorted. rewrite Forall_forall in *. intros kv I.
      apply in_map_iff in I as ([k v] & <- & I). exact (IH _ I (W _ I)).
Qed.

(** The canonical form is written as the value is. *)
Lemma stableStringify_sort_keys (x : json) :
  well_formed x -> stableStringify (sort_keys x) = stableStringify x.
Proof.
  induction x as [ | b | n | s | items IH | props IH ] using json_induction; intro W;
    try reflexivity.
  - apply well_formed_arr in W. cbn [stableStringify sort_keys].
    do 3 f_equal. rewrite map_map. apply map_ext_in. intros v I.
    rewrite Forall_forall in IH, W. now apply IH, W.
  - pose proof (sort_keys_well_formed _ W) as W'.
    apply well_formed_obj in W as [N W].
    rewrite sort_keys_obj in *. apply well_formed_obj in W' as [N' _].
    rewrite (stableStringify_members _ N'), (stableStringify_members _ N).
    do 3 f_equal.
    rewrite sort_of_increasing by (apply sort_increasing; now rewrite keys_on_values).
    rewrite (sort_map fst fst (on_values sort_keys) (fun _ => eq_refl)), map_map.
    apply map_ext_in. intros [k v] I. cbn [on_values fst snd]. do 2 f_equal.
    apply (Permutation_in _ (sort_permutation _ _)) in I.
    rewrite Forall_forall in IH, W. exact (IH _ I (W _ I)).
Qed.


(** ** Strings *)

Lemma parse_quote_char (c : ascii) (text : string) :
  parse_chars (quote_char c ++ text)
  = match parse_chars text with
    | Some (str, rest) => Some (String c str, rest)
    | None => None
    end.
Proof.
  destruct c as [[] [] [] [] [] [] [] []]; reflexivity.
Qed.

Lemma parse_quote_body (s : string) (rest : string) :
  parse_chars (quote_body s ++ String dquote rest) = Some (s, rest).
Proof.
  induction s as [|c tl IH]; [reflexivity|].
  cbn [quote_body]. rewrite EffectFacts.append_assoc, parse_quote_char, IH. reflexivity.
Qed.


(** ** Numbers *)

(** Every character of the string satisfies [p]. *)
Fixpoint all_chars (p : ascii -> bool) (s : string) : bool :=
  match s with
  | EmptyString => true
  | String c tl => p c && all_chars p tl
  end.

Lemma all_chars_app (p : ascii -> bool) (a b : string) :
  all_chars p (a ++ b) = all_chars p a && all_chars p b.
Proof.
  induction a as [|c tl IH]; [reflexivity|]. cbn. now rewrite IH, andb_assoc.
Qed.

Lemma all_chars_list (p : ascii -> bool) (s : string) :
  all_chars p s = forallb p (list_ascii_of_string s).
Proof. induction s as [|c tl IH]; [reflexivity|]. cbn. now rewrite IH. Qed.

Lemma all_chars_weaken (p q : ascii -> bool) (s : string) :
  (forall c, p c = true -> q c = true) -> all_chars p s = true -> all_chars q s = true.
Proof.
  intro H. induction s as [|c tl IH]; [reflexivity|]. cbn.
  rewrite !andb_true_iff. intros [Hc Htl]. split; [now apply H | now apply IH].
Qed.

Lemma all_chars_substring (p : ascii -> bool) (s : string) :
  all_chars p s = true -> forall n m, all_chars p (substring n m s) = true.
Proof.
  induction s as [|c tl IH]; intros H n m.
  - now destruct n, m.
  - cbn in H. apply andb_true_iff in H as [Hc Htl].
    destruct n; cbn.
    + destruct m; [reflexivity|]. cbn. now rewrite Hc, IH.
    + now apply IH.
Qed.

Lemma all_chars_repeat (p : ascii -> bool) (c : ascii) (n : nat) :
  p c = true -> all_chars p (JsString.repeat_char c n) = true.
Proof. intro H. induction n as [|n IH]; [reflexivity|]. cbn. now rewrite H, IH. Qed.

Lemma digit_char_digit (d : Z) : 0 <= d < 10 -> JsObject.is_digit (JsString.digit_char d) = true.
Proof.
  intro H.
  assert (C : d = 0 \/ d = 1 \/ d = 2 \/ d = 3 \/ d = 4 \/ d = 5 \/ d = 6 \/ d = 7
              \/ d = 8 \/ d = 9) by lia.
  repeat (destruct C as [-> | C]; [reflexivity|]). subst d. reflexivity.
Qed.

Lemma digits_fuel_digits (fuel : nat) : forall n acc,
  all_chars JsObject.is_digit acc = true ->
  all_chars JsObject.is_digit (JsString.digits_fuel fuel n acc) = true.
Proof.
  induction fuel as [|f IH]; intros n acc H; [exact H|].
  cbn [JsString.digits_fuel].
  assert (A : all_chars JsObject.is_digit (String (JsString.digit_char (n mod 10)) acc) = true).
  { cbn [all_chars]. rewrite H, digit_char_digit; [reflexivity|].
    apply Z.mod_pos_bound. lia. }
  destruct (n <? 10); [exact A | now apply IH].
Qed.

Lemma nat_digits_digits (n : Z) : all_chars JsObject.is_digit (JsString.nat_digits n) = true.
Proof. unfold JsString.nat_digits. now apply digits_fuel_digits. Qed.

Lemma strip_zeros_rev_incl (l : list ascii) (c : ascii) :
  In c (strip_zeros_rev l) -> In c l.
Proof.
  induction l as [|a tl IH]; [trivial|].
  cbn [strip_zeros_rev]. intro H.
  destruct a as [[] [] [] [] [] [] [] []]; try exact H; right; now apply IH.
Qed.

Lemma significant_digits (s : Z) : all_chars JsObject.is_digit (significant s) = true.
Proof.
  unfold significant. rewrite all_chars_list, list_ascii_of_string_of_list_ascii.
  apply forallb_forall. intros c I.
  apply in_rev, strip_zeros_rev_incl, in_rev in I.
  pose proof (nat_digits_digits s) as D. rewrite all_chars_list in D.
  rewrite forallb_forall in D. now apply D.
Qed.

Lemma digit_number_char (c : ascii) : JsObject.is_digit c = true -> is_number_char c = true.
Proof. unfold JsObject.is_digit, is_number_char. intros ->. reflexivity. Qed.

Lemma layout_number_chars (ds : string) (n : Z) :
  all_chars JsObject.is_digit ds = true -> all_chars is_number_char (layout ds n) = true.
Proof.
  intro D.
  pose proof (all_chars_weaken _ _ ds digit_number_char D) as N.
  pose proof (fun a b => all_chars_substring _ ds N a b) as Sub.
  pose proof (all_chars_weaken _ _ _ digit_number_char (nat_digits_digits (Z.abs (n - 1)))) as Ex.
  unfold layout.
  repeat match goal with
         | |- context [if ?b then _ else _] => destruct b
         end;
    rewrite ?all_chars_app; cbn [all_chars]; rewrite ?all_chars_app, ?N, ?Sub, ?Ex,
      ?all_chars_repeat by reflexivity; reflexivity.
Qed.

Lemma positive_number_chars (x : Q) : all_chars is_number_char (positive_to_string x) = true.
Proof.
  unfold positive_to_string. destruct (shortest 17 1 x (dec_exp x)) as [s k].
  apply layout_number_chars, significant_digits.
Qed.

(** A number is printed with digits, a sign, a point and an exponent mark. *)
Lemma to_string_number_chars (x : number) : all_chars is_number_char (to_string x) = true.
Proof.
  unfold to_string. destruct (Qcompare x 0); [reflexivity | |].
  - cbn [append all_chars]. now rewrite positive_number_chars.
  - apply positive_number_chars.
Qed.

(** The text after a token: nothing, or a character that is not part of a
    number. *)
Definition stops (rest : string) : Prop :=
  match rest with
  | EmptyString => True
  | String c _ => is_number_char c = false
  end.

Lemma span_number_app (tok rest : string) :
  all_chars is_number_char tok = true -> stops rest ->
  span_number (tok ++ rest) = (tok, rest).
Proof.
  intros T R. induction tok as [|c tl IH]; cbn [append].
  - destruct rest as [|c tl]; [reflexivity|]. cbn in *. now rewrite R.
  - cbn in T. apply andb_true_iff in T as [Hc Htl].
    cbn [span_number]. rewrite Hc, (IH Htl). reflexivity.
Qed.

Lemma parse_value_number (fuel : nat) (c : ascii) (text : string) :
  is_number_char c = true ->
  parse_value (S fuel) (String c text)
  = let (tok, rest) := span_number (String c text) in
    match parse_number tok with
    | Some v => Some (JNum v, rest)
    | None => None
    end.
Proof.
  destruct c as [[] [] [] [] [] [] [] []]; intro H; try discriminate H; reflexivity.
Qed.

Lemma parse_value_to_string (fuel : nat) (n : number) (rest : string) :
  parse_number (to_string n) = Some n -> stops rest ->
  parse_value (S fuel) (to_string n ++ rest) = Some (JNum n, rest).
Proof.
  intros P R. pose proof (to_string_number_chars n) as T.
  destruct (to_string n) as [|c tl] eqn:E; [discriminate P|].
  cbn [append]. rewrite parse_value_number by (cbn in T; now apply andb_true_iff in T).
  change (String c (tl ++ rest)) with (String c tl ++ rest).
  rewrite span_number_app by assumption. now rewrite P.
Qed.


(** ** The size of a value and the length of its text *)

Fixpoint size (x : json) : nat :=
  match x with
  | JArr items => S (list_sum (map (fun v => S (size v)) items))
  | JObj props => S (list_sum (map (fun kv => S (size (snd kv))) props))
  | _ => 1
  end.

Lemma length_app (a b : string) :
  String.length (a ++ b) = (String.length a + String.length b)%nat.
Proof. induction a as [|c tl IH]; [reflexivity|]. cbn. now rewrite IH. Qed.

Lemma length_join (l : list string) :
  (list_sum (map (fun s => S (String.length s)) l) <= S (String.length (JsString.join "," l)))%nat.
Proof.
  induction l as [|a [|b tl] IH]; cbn [map list_sum fold_right JsString.join] in *.
  - lia.
  - lia.
  - rewrite !length_app. cbn [String.length]. cbn [JsString.join] in IH. lia.
Qed.

Lemma list_sum_le {A} (f g : A -> nat) (l : list A) :
  Forall (fun a => (f a <= g a)%nat) l ->
  (list_sum (map f l) <= list_sum (map g l))%nat.
Proof. unfold list_sum. induction 1; cbn [map fold_right]; lia. Qed.

Lemma list_sum_permutation (l l' : list nat) :
  Permutation l l' -> list_sum l = list_sum l'.
Proof. unfold list_sum. induction 1; cbn [fold_right] in *; lia. Qed.

Lemma size_length (x : json) :
  well_formed x -> (size x <= String.length (stableStringify x))%nat.
Proof.
  induction x as [ | [] | n | s | items IH | props IH ] using json_induction; intro W;
    try (cbn; lia).
  - cbn [well_formed] in W. cbn [size stableStringify].
    destruct (to_string n); [discriminate W | cbn; lia].
  - apply well_formed_arr in W. cbn [size stableStringify].
    rewrite !length_app. cbn [String.length].
    pose proof (length_join (map stableStringify items)) as J. rewrite map_map in J.
    assert (L : (list_sum (map (fun v => S (size v)) items)
                 <= list_sum (map (fun v => S (String.length (stableStringify v))) items))%nat).
    { apply list_sum_le. rewrite Forall_forall in *. intros v I.
      pose proof (IH v I (W v I)). lia. }
    lia.
  - apply well_formed_obj in W as [N W]. rewrite (stableStringify_members props N).
    cbn [size]. rewrite !length_app. cbn [String.length].
    match goal with
    | |- context [JsString.join "," (map ?f ?l)] =>
        pose proof (length_join (map f l)) as J
    end.
    rewrite map_map in J.
    rewrite (list_sum_permutation _ _
               (Permutation_map (fun kv => S (size (snd kv)))
                  (Permutation_sym (sort_permutation (by_key fst) props)))).
    assert (L : (list_sum (map (fun kv => S (size (snd kv))) (JsSort.sort (by_key fst) props))
                 <= list_sum
                      (map (fun kv => S (String.length
                                          (quote (fst kv) ++ ":" ++ stableStringify (snd kv))))
                           (JsSort.sort (by_key fst) props)))%nat).
    { apply list_sum_le, Forall_sorted. rewrite Forall_forall in *. intros kv I.
      pose proof (IH kv I (W kv I)). rewrite !length_app. lia. }
    lia.
Qed.


(** ** Reading the text back *)

(** The first character of a text: not white space and not a closing bracket. *)
Definition opens (text : string) : Prop :=
  match text with
  | EmptyString => False
  | String c _ => is_ws c = false /\ (JsString.charCode c =? 93) = false
  end.

Lemma number_char_opens (c : ascii) (tl : string) :
  is_number_char c = true -> opens (String c tl).
Proof.
  destruct c as [[] [] [] [] [] [] [] []]; intro H; try discriminate H; now split.
Qed.

Lemma stableStringify_opens (x : json) : well_formed x -> opens (stableStringify x).
Proof.
  destruct x as [ | [] | n | s | items | props ]; intro W; try (now split).
  cbn [well_formed] in W. cbn [stableStringify].
  pose proof (to_string_number_chars n) as T.
  destruct (to_string n) as [|c tl]; [discriminate W|].
  apply number_char_opens. cbn in T. now apply andb_true_iff in T.
Qed.

Lemma quote_app (k text : string) :
  quote k ++ text = String dquote (quote_body k ++ String dquote text).
Proof. unfold quote. cbn [append]. now rewrite EffectFacts.append_assoc. Qed.

Lemma parse_value_string (fuel : nat) (s rest : string) :
  parse_value (S fuel) (quote s ++ rest) = Some (JStr s, rest).
Proof.
  rewrite quote_app.
  change (parse_value (S fuel) (String dquote (quote_body s ++ String dquote rest)))
    with (match parse_chars (quote_body s ++ String dquote rest) with
          | Some (str, rest') => Some (JStr str, rest')
          | None => None
          end).
  now rewrite parse_quote_body.
Qed.

Lemma parse_value_array (fuel : nat) (text : string) :
  opens text ->
  parse_value (S fuel) ("[" ++ text)
  = match parse_elements fuel text with
    | Some (items, rest) => Some (JArr items, rest)
    | None => None
    end.
Proof.
  destruct text as [|c tl]; intros O; [contradiction|]. destruct O as [W B].
  change (parse_value (S fuel) ("[" ++ String c tl))
    with (match skip_ws (String c tl) with
          | String b tl2 as inner =>
              if JsString.charCode b =? 93 then Some (JArr [], tl2)
              else match parse_elements fuel inner with
                   | Some (items, rest) => Some (JArr items, rest)
                   | None => None
                   end
          | EmptyString => None
          end).
  cbn [skip_ws]. rewrite W, B. reflexivity.
Qed.

Lemma parse_value_object (fuel : nat) (k text : string) :
  parse_value (S fuel) ("{" ++ quote k ++ text)
  = match parse_members fuel [] (quote k ++ text) with
    | Some (props, rest) => Some (JObj props, rest)
    | None => None
    end.
Proof. rewrite quote_app. reflexivity. Qed.

Lemma parse_elements_step (fuel : nat) (text : string) :
  parse_elements (S fuel) text
  = match parse_value fuel text with
    | Some (v, rest) =>
        match skip_ws rest with
        | String c tl =>
            if JsString.charCode c =? 44 then
              match parse_elements fuel tl with
              | Some (vs, rest') => Some (v :: vs, rest')
              | None => None
              end
            else if JsString.charCode c =? 93 then Some ([v], tl)
            else None
        | EmptyString => None
        end
    | None => None
    end.
Proof. reflexivity. Qed.

Lemma parse_members_step (fuel : nat) (acc : list (string * json)) (k text : string) :
  parse_members (S fuel) acc (quote k ++ ":" ++ text)
  = match parse_value fuel text with
    | Some (v, rest2) =>
        match skip_ws rest2 with
        | String c tl3 =>
            if JsString.charCode c =? 44 then parse_members fuel (JsObject.set k v acc) tl3
            else if JsString.charCode c =? 125 then Some (JsObject.set k v acc, tl3)
            else None
        | EmptyString => None
        end
    | None => None
    end.
Proof.
  rewrite quote_app.
  change (parse_members (S fuel) acc (String dquote (quote_body k ++ String dquote (":" ++ text))))
    with (match parse_chars (quote_body k ++ String dquote (":" ++ text)) with
          | Some (key, rest) =>
              match skip_ws rest with
              | String colon tl2 =>
                  if JsString.charCode colon =? 58 then
                    match parse_value fuel tl2 with
                    | Some (v, rest2) =>
                        match skip_ws rest2 with
                        | String c tl3 =>
                            if JsString.charCode c =? 44
                            then parse_members fuel (JsObject.set key v acc) tl3
                            else if JsString.charCode c =? 125
                                 then Some (JsObject.set key v acc, tl3)
                                 else None
                        | EmptyString => None
                        end
                    | None => None
                    end
                  else None
              | EmptyString => None
              end
          | None => None
          end).
  rewrite parse_quote_body. reflexivity.
Qed.

Lemma parse_elements_more (fuel : nat) (text : string) (v : json) (rest : string) :
  parse_value fuel text = Some (v, "," ++ rest) ->
  parse_elements (S fuel) text
  = match parse_elements fuel rest with
    | Some (vs, rest') => Some (v :: vs, rest')
    | None => None
    end.
Proof. intro H. rewrite parse_elements_step, H. reflexivity. Qed.

Lemma parse_elements_last (fuel : nat) (text : string) (v : json) (rest : string) :
  parse_value fuel text = Some (v, "]" ++ rest) ->
  parse_elements (S fuel) text = Some ([v], rest).
Proof. intro H. rewrite parse_elements_step, H. reflexivity. Qed.

Lemma parse_members_more (fuel : nat) (acc : list (string * json)) (k text : string)
      (v : json) (rest : string) :
  parse_value fuel text = Some (v, "," ++ rest) ->
  parse_members (S fuel) acc (quote k ++ ":" ++ text)
  = parse_members fuel (JsObject.set k v acc) rest.
Proof. intro H. rewrite parse_members_step, H. reflexivity. Qed.

Lemma parse_members_last (fuel : nat) (acc : list (string * json)) (k text : string)
      (v : json) (rest : string) :
  parse_value fuel text = Some (v, "}" ++ rest) ->
  parse_members (S fuel) acc (quote k ++ ":" ++ text) = Some (JsObject.set k v acc, rest).
Proof. intro H. rewrite parse_members_step, H. reflexivity. Qed.

Lemma join_more (sep a b : string) (l : list string) :
  JsString.join sep (a :: b :: l) = a ++ sep ++ JsString.join sep (b :: l).
Proof. reflexivity. Qed.

Lemma set_new {V} (k : string) (v : V) (o : list (string * V)) :
  ~ In k (map fst o) -> JsObject.set k v o = (o ++ [(k, v)])%list.
Proof.
  induction o as [|[k' w] tl IH]; cbn; intro N; [reflexivity|].
  destruct (String.eqb k k') eqn:E.
  - apply String.eqb_eq in E. subst. tauto.
  - rewrite IH; [reflexivity | tauto].
Qed.

Definition render (kv : string * json) : string :=
  quote (fst kv) ++ ":" ++ stableStringify (snd kv).

Definition weight (l : list json) : nat := list_sum (map (fun v => S (size v)) l).

(** With enough fuel, the parser reads the text of a value, of the items of
    an array and of the members of an object back as the canonical form. *)
Lemma parse_back (fuel : nat) :
  (forall x rest,
      well_formed x -> (size x <= fuel)%nat -> stops rest ->
      parse_value fuel (stableStringify x ++ rest) = Some (sort_keys x, rest))
  /\ (forall v items rest,
         Forall well_formed (v :: items) -> (weight (v :: items) <= fuel)%nat ->
         parse_elements fuel (JsString.join "," (map stableStringify (v :: items)) ++ "]" ++ rest)
         = Some (map sort_keys (v :: items), rest))
  /\ (forall acc m members rest,
         Forall (fun kv => well_formed (snd kv)) (m :: members) ->
         NoDup (map fst acc ++ map fst (m :: members)) ->
         (weight (map snd (m :: members)) <= fuel)%nat ->
         parse_members fuel acc (JsString.join "," (map render (m :: members)) ++ "}" ++ rest)
         = Some ((acc ++ map (on_values sort_keys) (m :: members))%list, rest)).
Proof.
  induction fuel as [|f (IHv & IHe & IHm)].
  - split; [|split].
    + intros x rest _ Sz. destruct x; cbn in Sz; lia.
    + intros v items rest _ Sz. unfold weight in Sz. cbn in Sz. lia.
    + intros acc m members rest _ _ Sz. unfold weight in Sz. cbn in Sz. lia.
  - split; [|split].
    + intros x rest W Sz R.
      destruct x as [ | [] | n | s | items | props ]; try reflexivity.
      * now apply parse_value_to_string.
      * apply parse_value_string.
      * destruct items as [|v items]; [reflexivity|].
        apply well_formed_arr in W.
        cbn [stableStringify]. rewrite !EffectFacts.append_assoc.
        rewrite parse_value_array.
        -- rewrite IHe; [reflexivity | exact W |]. cbn [size] in Sz. unfold weight. lia.
        -- inversion W as [|? ? Wv _]; subst.
           pose proof (stableStringify_opens v Wv) as O.
           cbn [map JsString.join]. destruct items; cbn [map].
           ++ destruct (stableStringify v); [contradiction | exact O].
           ++ destruct (stableStringify v); [contradiction | exact O].
      * pose proof W as W'. apply well_formed_obj in W' as [N Wm].
        rewrite (stableStringify_members props N), sort_keys_obj.
        rewrite (sort_map fst fst (on_values sort_keys) (fun _ => eq_refl)).
        pose proof (sort_permutation (by_key fst) props) as P.
        assert (Ws : Forall (fun kv => well_formed (snd kv)) (JsSort.sort (by_key fst) props))
          by now apply Forall_sorted.
        assert (Ns : NoDup (map fst (JsSort.sort (by_key fst) props)))
          by exact (Permutation_NoDup (Permutation_map fst (Permutation_sym P)) N).
        assert (Ss : (weight (map snd (JsSort.sort (by_key fst) props)) <= f)%nat).
        { unfold weight. rewrite map_map.
          rewrite (list_sum_permutation _ _ (Permutation_map (fun kv => S (size (snd kv))) P)).
          cbn [size] in Sz. lia. }
        destruct (JsSort.sort (by_key fst) props) as [|[k v] members]; [reflexivity|].
        fold (render (k, v)). change (fun kv : string * json =>
                 quote (fst kv) ++ ":" ++ stableStringify (snd kv)) with render.
        rewrite !EffectFacts.append_assoc.
        assert (E : forall text, JsString.join "," (map render ((k, v) :: members)) ++ text
                                 = quote k ++ (":" ++ stableStringify v)
                                   ++ match members with
                                      | [] => text
                                      | _ => "," ++ JsString.join "," (map render members) ++ text
                                      end).
        { intro text. cbn [map JsString.join]. destruct members as [|m2 members].
          - cbn [map]. unfold render. cbn [fst snd].
            now rewrite !EffectFacts.append_assoc.
          - cbn [map]. unfold render at 1. cbn [fst snd].
            now rewrite !EffectFacts.append_assoc. }
        pose proof (IHm [] (k, v) members rest Ws Ns Ss) as M. cbn [app] in M.
        rewrite E in M |- *. rewrite parse_value_object, M. reflexivity.
    + intros v items rest W Sz.
      inversion W as [|? ? Wv Wi]; subst.
      unfold weight in Sz. cbn [map list_sum fold_right] in Sz.
      fold (list_sum (map (fun v => S (size v)) items)) in Sz.
      destruct items as [|u items].
      * cbn [map JsString.join].
        apply parse_elements_last, IHv; [exact Wv | lia | reflexivity].
      * cbn [map]. rewrite join_more, !EffectFacts.append_assoc.
        rewrite (parse_elements_more f _ (sort_keys v)
                   (JsString.join "," (stableStringify u :: map stableStringify items)
                    ++ "]" ++ rest))
          by (apply IHv; [exact Wv | lia | reflexivity]).
        assert (Wt : (weight (u :: items) <= f)%nat) by (unfold weight; lia).
        pose proof (IHe u items rest Wi Wt) as T. cbn [map] in T.
        rewrite T. reflexivity.
    + intros acc [k v] members rest W N Sz.
      inversion W as [|? ? Wv Wm]; subst. cbn [snd] in Wv.
      unfold weight in Sz. cbn [map list_sum fold_right snd] in Sz.
      fold (list_sum (map (fun v => S (size v)) (map snd members))) in Sz.
      assert (Nk : ~ In k (map fst acc)).
      { intro I. cbn [map fst] in N. apply NoDup_remove_2 in N. apply N, in_or_app. now left. }
      assert (N' : NoDup (map fst (acc ++ [(k, sort_keys v)]) ++ map fst members)).
      { rewrite map_app, <- app_assoc. exact N. }
      destruct members as [|m2 members].
      * cbn [map JsString.join]. unfold render. cbn [fst snd].
        rewrite !EffectFacts.append_assoc.
        rewrite (parse_members_last f acc k _ (sort_keys v) rest)
          by (apply IHv; [exact Wv | lia | reflexivity]).
        now rewrite set_new.
      * cbn [map]. rewrite join_more. unfold render at 1. cbn [fst snd].
        rewrite !EffectFacts.append_assoc.
        rewrite (parse_members_more f acc k _ (sort_keys v)
                   (JsString.join "," (render m2 :: map render members) ++ "}" ++ rest))
          by (apply IHv; [exact Wv | lia | reflexivity]).
        rewrite set_new by exact Nk.
        assert (Wt : (weight (map snd (m2 :: members)) <= f)%nat) by (unfold weight; lia).
        pose proof (IHm (acc ++ [(k, sort_keys v)])%list m2 members rest Wm N' Wt) as T.
        cbn [map] in T. rewrite T. now rewrite <- app_assoc.
Qed.


Lemma append_empty (s : string) : s ++ "" = s.
Proof. induction s as [|c tl IH]; [reflexivity|]. cbn. now rewrite IH. Qed.

Lemma parse_stableStringify (x : json) :
  well_formed x -> parse (stableStringify x) = Some (sort_keys x).
Proof.
  intro W. unfold parse.
  pose proof (proj1 (parse_back (S (String.length (stableStringify x))))
                x "" W (Nat.le_trans _ _ _ (size_length x W) (Nat.le_succ_diag_r _)) I) as P.
  rewrite append_empty in P. rewrite P. reflexivity.
Qed.

(** For a value that is read back, the text written by stableStringify is
    that of the value with the members of every object in strictly
    increasing order of their keys, at every depth, and the items of every
    array in their order; JSON.parse reads that text back, and
    stableStringify writes the value read as it writes the value. *)
Lemma canonical_when_read_back (x : json) :
  well_formed x ->
  stableStringify x = plain (sort_keys x)
  /\ ordered (sort_keys x)
  /\ exists y, parse (stableStringify x) = Some y
               /\ stableStringify y = stableStringify x.
Proof.
  intro W. split; [now apply stableStringify_plain|].
  split; [now apply sort_keys_ordered|].
  exists (sort_keys x). split; [now apply parse_stableStringify|].
  now apply stableStringify_sort_keys.
Qed.

Definition sample_value : json :=
  JObj [ ("top_candidates",
           JArr [ JObj [("truth_score", JNum (lit 8416 4)); ("candidate_id", JStr "cand_0001")];
                  JNull; JBool false; JArr [] ]);
         ("9", JStr (String (ascii_of_N 10) (String dquote "\tab")));
         ("10", JNum (lit (-25) 1));
         ("", JObj []);
         ("total", JNum (of_int 5)) ].

End StableFacts.

(* ================================================================== *)
(** * Rounding to binary64: what seventeen digits determine *)

Module RoundingFacts.
Import JsNumber NumberFacts.
Local Open Scope Q_scope.

(** ** Powers of two *)

Lemma two_pow_lt (a b : Z) : (a < b)%Z -> two_pow a < two_pow b.
Proof. intro H. unfold two_pow. apply Qpower_lt_compat_l; [exact H | reflexivity]. Qed.

Lemma two_pow_le (a b : Z) : (a <= b)%Z -> two_pow a <= two_pow b.
Proof. intro H. unfold two_pow. apply Qpower_le_compat_l; [exact H | discriminate]. Qed.

Lemma two_pow_lt_inv (a b : Z) : two_pow a < two_pow b -> (a < b)%Z.
Proof. intro H. unfold two_pow in H. apply Qpower_lt_compat_l_inv in H; [exact H | reflexivity]. Qed.

Lemma two_pow_sub (a b : Z) :
  (0 <= a)%Z -> (0 <= b)%Z -> two_pow (a - b) == inject_Z (2 ^ a) / inject_Z (2 ^ b).
Proof.
  intros Ha Hb. replace (a - b)%Z with (a + - b)%Z by lia.
  rewrite two_pow_add, two_pow_opp, !two_pow_nat by assumption. reflexivity.
Qed.

Lemma frac_lt (n : Z) (d : positive) (A B : Z) :
  (0 < B)%Z -> (n * B < A * Z.pos d)%Z -> (n # d) < inject_Z A / inject_Z B.
Proof.
  intros HB H. apply Qlt_shift_div_l; [now apply inject_Z_pos|].
  unfold Qlt, Qmult, inject_Z. cbn [Qnum Qden]. lia.
Qed.

Lemma frac_ge (n : Z) (d : positive) (A B : Z) :
  (0 < B)%Z -> (A * Z.pos d <= n * B)%Z -> inject_Z A / inject_Z B <= (n # d).
Proof.
  intros HB H. apply Qle_shift_div_r; [now apply inject_Z_pos|].
  unfold Qle, Qmult, inject_Z. cbn [Qnum Qden]. lia.
Qed.

(** ** [ilog2] is the binary logarithm, rounded down *)

Lemma ilog2_spec (a : Q) :
  0 < a -> two_pow (ilog2 a) <= a /\ a < two_pow (ilog2 a + 1).
Proof.
  intro Ha. destruct a as [n d].
  assert (Hn : (0 < n)%Z) by (unfold Qlt in Ha; cbn in Ha; lia).
  unfold ilog2. cbn [Qnum Qden].
  pose proof (Z.log2_spec n Hn) as [N1 N2].
  pose proof (Z.log2_spec (Z.pos d) ltac:(lia)) as [D1 D2].
  pose proof (Z.log2_nonneg n) as Ln. pose proof (Z.log2_nonneg (Z.pos d)) as Ld.
  set (ln := Z.log2 n) in *. set (ld := Z.log2 (Z.pos d)) in *.
  assert (P1 : (0 < 2 ^ ln)%Z) by (apply pow2_pos; lia).
  assert (P2 : (0 < 2 ^ ld)%Z) by (apply pow2_pos; lia).
  assert (S1 : (2 ^ Z.succ ln = 2 * 2 ^ ln)%Z) by (apply Z.pow_succ_r; lia).
  assert (S2 : (2 ^ Z.succ ld = 2 * 2 ^ ld)%Z) by (apply Z.pow_succ_r; lia).
  assert (Up : (n # d) < two_pow (ln - ld + 1)).
  { replace (ln - ld + 1)%Z with (Z.succ ln - ld)%Z by lia.
    rewrite two_pow_sub by lia. apply frac_lt; [exact P2|]. nia. }
  assert (Low : two_pow (ln - ld - 1) <= (n # d)).
  { replace (ln - ld - 1)%Z with (ln - Z.succ ld)%Z by lia.
    rewrite two_pow_sub by lia. apply frac_ge; [lia|]. nia. }
  destruct (Qle_bool (two_pow (ln - ld)) (n # d)) eqn:C.
  - apply Qle_bool_iff in C. split; assumption.
  - split; [exact Low|]. replace (ln - ld - 1 + 1)%Z with (ln - ld)%Z by lia.
    apply Qnot_le_lt. intro L. apply Qle_bool_iff in L. congruence.
Qed.

Lemma ilog2_unique (a : Q) (e : Z) :
  two_pow e <= a -> a < two_pow (e + 1) -> ilog2 a = e.
Proof.
  intros L U.
  assert (Ha : 0 < a) by (eapply Qlt_le_trans; [apply (two_pow_pos e) | exact L]).
  destruct (ilog2_spec a Ha) as [L' U'].
  assert (A : (ilog2 a < e + 1)%Z) by (apply two_pow_lt_inv; eapply Qle_lt_trans; eauto).
  assert (B : (e < ilog2 a + 1)%Z) by (apply two_pow_lt_inv; eapply Qle_lt_trans; eauto).
  lia.
Qed.

Lemma ilog2_proper (a b : Q) : 0 < a -> a == b -> ilog2 a = ilog2 b.
Proof.
  intros Ha E. destruct (ilog2_spec a Ha) as [L U].
  symmetry. apply ilog2_unique; rewrite <- E; assumption.
Qed.

(** ** Rounding to the nearest integer *)

Lemma round_half_even_proper (q q' : Q) : q == q' -> round_half_even q = round_half_even q'.
Proof.
  intro E. unfold round_half_even. rewrite (Qfloor_comp q q' E).
  assert (X : (q - inject_Z (Qfloor q') ?= 1 # 2) = (q' - inject_Z (Qfloor q') ?= 1 # 2)).
  { apply Qcompare_comp; [rewrite E; reflexivity | reflexivity]. }
  now rewrite X.
Qed.

Lemma round_near (q : Q) (n : Z) :
  inject_Z n - (1 # 2) < q -> q < inject_Z n + (1 # 2) -> round_half_even q = n.
Proof.
  intros L U. unfold round_half_even.
  pose proof (Qfloor_le q) as F1. pose proof (Qlt_floor q) as F2.
  set (f := Qfloor q) in *. rewrite inject_Z_plus in F2. change (inject_Z 1) with 1 in F2.
  assert (A : (f <= n)%Z).
  { apply Z.lt_succ_r. rewrite Zlt_Qlt. unfold Z.succ. rewrite inject_Z_plus.
    change (inject_Z 1) with 1. lra. }
  assert (B : (n <= f + 1)%Z).
  { apply Z.lt_succ_r. rewrite Zlt_Qlt. unfold Z.succ. rewrite !inject_Z_plus.
    change (inject_Z 1) with 1. lra. }
  clearbody f. destruct (Z.eq_dec f n) as [E | N].
  - subst f. assert (C : (q - inject_Z n ?= 1 # 2) = Lt) by (apply (proj1 (Qlt_alt _ _)); lra).
    now rewrite C.
  - assert (E : n = (f + 1)%Z) by lia.
    assert (C : (q - inject_Z f ?= 1 # 2) = Gt).
    { apply (proj1 (Qgt_alt _ _)). rewrite E, inject_Z_plus in L. change (inject_Z 1) with 1 in L. lra. }
    rewrite C. now symmetry.
Qed.

(** ** The exponent and the significand that [binary64] gives a positive number *)

Definition expo (a : Q) : Z := Z.max (ilog2 a - 52) (-1074).

Definition mant (a : Q) : Z := round_half_even (a / two_pow (expo a)).

Lemma Qabs_of_pos (a : Q) : 0 < a -> Qabs a = a.
Proof.
  destruct a as [n d]. unfold Qlt. cbn. intro H. rewrite Z.abs_eq by lia. reflexivity.
Qed.

Lemma binary64_pos (a : Q) :
  0 < a -> binary64 a = Qred (inject_Z (mant a) * two_pow (expo a)).
Proof.
  intro H. unfold binary64. rewrite (proj1 (Qgt_alt a 0) H), (Qabs_of_pos a H). reflexivity.
Qed.

Lemma binary64_neg (a : Q) :
  a < 0 ->
  binary64 a = Qred (- (inject_Z (mant (Qabs a)) * two_pow (expo (Qabs a)))).
Proof. intro H. unfold binary64. rewrite (proj1 (Qlt_alt a 0) H). reflexivity. Qed.

Lemma expo_proper (a b : Q) : 0 < a -> a == b -> expo a = expo b.
Proof. intros H E. unfold expo. now rewrite (ilog2_proper a b H E). Qed.

Lemma mant_proper (a b : Q) : 0 < a -> a == b -> mant a = mant b.
Proof.
  intros H E. unfold mant. rewrite (expo_proper a b H E).
  apply round_half_even_proper. now rewrite E.
Qed.

(** [binary64] does not depend on how its argument is written. *)
Lemma binary64_proper (a b : Q) : a == b -> binary64 a = binary64 b.
Proof.
  intro E. destruct (Qcompare a 0) eqn:C.
  - apply Qeq_alt in C. unfold binary64.
    rewrite (proj1 (Qeq_alt a 0) C).
    assert (C' : b == 0) by (rewrite <- E; exact C).
    now rewrite (proj1 (Qeq_alt b 0) C').
  - apply Qlt_alt in C.
    assert (C' : b < 0) by (rewrite <- E; exact C).
    rewrite (binary64_neg a C), (binary64_neg b C').
    assert (P : 0 < Qabs a).
    { rewrite Qabs_neg by lra. lra. }
    assert (EA : Qabs a == Qabs b) by (now apply Qabs_wd).
    rewrite (mant_proper _ _ P EA), (expo_proper _ _ P EA). reflexivity.
  - apply Qgt_alt in C.
    assert (C' : 0 < b) by (rewrite <- E; exact C).
    rewrite (binary64_pos a C), (binary64_pos b C').
    rewrite (mant_proper _ _ C E), (expo_proper _ _ C E). reflexivity.
Qed.

Lemma two_pow_shift (e k : Z) : two_pow (e + k) == two_pow k * two_pow e.
Proof. rewrite two_pow_add. ring. Qed.

Lemma scaled_le (a b : Z) (u : Q) : 0 <= u -> (a <= b)%Z -> inject_Z a * u <= inject_Z b * u.
Proof. intros Hu H. apply Qmult_le_compat_r; [now rewrite <- Zle_Qle | exact Hu]. Qed.

Lemma double_value (x : Q) :
  0 < x -> binary64 x == x -> x == inject_Z (mant x) * two_pow (expo x).
Proof. intros H B. rewrite (binary64_pos x H), Qred_correct in B. now symmetry. Qed.

Lemma expo_cases (x : Q) :
  0 < x ->
  (two_pow (expo x + 52) <= x /\ x < two_pow (expo x + 53))
  \/ (expo x = (-1074)%Z /\ x < two_pow (expo x + 52)).
Proof.
  intro H. destruct (ilog2_spec x H) as [L U]. unfold expo.
  destruct (Z.max_spec (ilog2 x - 52) (-1074)) as [[H1 ->] | [H1 ->]].
  - right. split; [reflexivity|].
    eapply Qlt_le_trans; [exact U | apply two_pow_le; lia].
  - left. split.
    + now replace (ilog2 x - 52 + 52)%Z with (ilog2 x) by lia.
    + now replace (ilog2 x - 52 + 53)%Z with (ilog2 x + 1)%Z by lia.
Qed.

Lemma expo_of (d : Q) (E : Z) :
  0 < d -> (-1074 <= E)%Z -> d < two_pow (E + 53) ->
  (two_pow (E + 52) <= d \/ E = (-1074)%Z) ->
  expo d = E.
Proof.
  intros Hd HE U H. destruct (ilog2_spec d Hd) as [L' U'].
  assert (A : (ilog2 d < E + 53)%Z) by (apply two_pow_lt_inv; eapply Qle_lt_trans; eauto).
  unfold expo. destruct H as [H | H].
  - assert (B : (E + 52 < ilog2 d + 1)%Z) by (apply two_pow_lt_inv; eapply Qle_lt_trans; eauto).
    lia.
  - lia.
Qed.

(** A number within half of [t] of a positive binary64 number [x], where
    [t] is at most [x / 10^16], rounds to [x]: seventeen significant
    decimal digits determine a binary64 number. *)
Lemma binary64_near (x d t : Q) :
  0 < x -> binary64 x == x ->
  t * 10000000000000000 <= x ->
  x - t * (1 # 2) <= d -> d <= x + t * (1 # 2) ->
  binary64 d == x.
Proof.
  intros Hx Bx Ht L U.
  pose proof (double_value x Hx Bx) as V.
  pose proof (expo_cases x Hx) as C.
  assert (E_lo : (-1074 <= expo x)%Z) by (unfold expo; lia).
  set (E := expo x) in *. set (m := mant x) in *. clearbody E m.
  pose proof (two_pow_pos E) as Pu.
  assert (K53 : two_pow (E + 53) == 9007199254740992 * two_pow E)
    by (rewrite two_pow_shift; reflexivity).
  assert (K52 : two_pow (E + 52) == 4503599627370496 * two_pow E)
    by (rewrite two_pow_shift; reflexivity).
  assert (K1 : two_pow (E - 1) == (1 # 2) * two_pow E).
  { replace (E - 1)%Z with (E + -1)%Z by lia. rewrite two_pow_shift. reflexivity. }
  assert (K52' : two_pow (E - 1 + 52) == 2251799813685248 * two_pow E).
  { replace (E - 1 + 52)%Z with (E + 51)%Z by lia. rewrite two_pow_shift. reflexivity. }
  assert (K53' : two_pow (E - 1 + 53) == 4503599627370496 * two_pow E).
  { replace (E - 1 + 53)%Z with (E + 52)%Z by lia. exact K52. }
  remember (two_pow E) as u eqn:Eu.
  assert (X53 : x < 9007199254740992 * u).
  { destruct C as [[_ H] | [_ H]]; lra. }
  assert (m_hi : (m <= 9007199254740991)%Z).
  { destruct (Z_le_gt_dec m 9007199254740991) as [H | H]; [exact H | exfalso].
    pose proof (scaled_le 9007199254740992 m u ltac:(lra) ltac:(lia)) as S.
    change (inject_Z 9007199254740992) with 9007199254740992 in S. lra. }
  assert (m_lo : (1 <= m)%Z).
  { destruct (Z_le_gt_dec 1 m) as [H | H]; [exact H | exfalso].
    pose proof (scaled_le m 0 u ltac:(lra) ltac:(lia)) as S.
    change (inject_Z 0) with 0 in S. lra. }
  pose proof (scaled_le 1 m u ltac:(lra) m_lo) as M1. change (inject_Z 1) with 1 in M1.
  pose proof (scaled_le m 9007199254740991 u ltac:(lra) m_hi) as M2.
  change (inject_Z 9007199254740991) with 9007199254740991 in M2.
  assert (Pd : 0 < d) by lra.
  rewrite (binary64_pos d Pd), Qred_correct.
  assert (Same : expo d = E ->
                 x - u * (1 # 2) < d -> d < x + u * (1 # 2) ->
                 inject_Z (mant d) * two_pow (expo d) == x).
  { intros Ed D1 D2. unfold mant. rewrite Ed, <- Eu.
    rewrite (round_near (d / u) m); [now symmetry | |].
    - apply Qlt_shift_div_l; [exact Pu | lra].
    - apply Qlt_shift_div_r; [exact Pu | lra]. }
  destruct (Qlt_le_dec d x) as [Dlt | Dge].
  - (* below [x] *)
    destruct (Z_le_gt_dec m 4503599627370495) as [Msub | Mnorm].
    + (* a subnormal number: the exponent is the least one *)
      pose proof (scaled_le m 4503599627370495 u ltac:(lra) Msub) as M3.
      change (inject_Z 4503599627370495) with 4503599627370495 in M3.
      assert (E = (-1074)%Z) as E0.
      { destruct C as [[H _] | [H _]]; [exfalso; lra | exact H]. }
      apply Same; [|lra|lra].
      apply expo_of; [exact Pd | lia | rewrite K53; lra | now right].
    + destruct (Z.eq_dec m 4503599627370496) as [Mtwo | Mmore].
      * (* a power of two: the numbers just below have the exponent below *)
        subst m. change (inject_Z 4503599627370496) with 4503599627370496 in V.
        destruct (Z.eq_dec E (-1074)) as [E0 | E1].
        -- apply Same; [|lra|lra].
           apply expo_of; [exact Pd | lia | rewrite K53; lra | now right].
        -- assert (Ed : expo d = (E - 1)%Z).
           { apply expo_of; [exact Pd | lia | rewrite K53'; lra | left; rewrite K52'; lra]. }
           unfold mant. rewrite Ed.
           rewrite (round_near (d / two_pow (E - 1)) 9007199254740992).
           ++ rewrite K1. change (inject_Z 9007199254740992) with 9007199254740992. lra.
           ++ apply Qlt_shift_div_l; [apply two_pow_pos|]. rewrite K1.
              change (inject_Z 9007199254740992) with 9007199254740992. lra.
           ++ apply Qlt_shift_div_r; [apply two_pow_pos|]. rewrite K1.
              change (inject_Z 9007199254740992) with 9007199254740992. lra.
      * pose proof (scaled_le 4503599627370497 m u ltac:(lra) ltac:(lia)) as M3.
        change (inject_Z 4503599627370497) with 4503599627370497 in M3.
        apply Same; [|lra|lra].
        apply expo_of; [exact Pd | lia | rewrite K53; lra | left; rewrite K52; lra].
  - (* from [x] up *)
    apply Same; [|lra|lra].
    apply expo_of; [exact Pd | lia | rewrite K53; lra |].
    destruct C as [[H _] | [H _]]; [left; lra | now right].
Qed.

(** ** Powers of ten *)

Lemma ten_pow_pos (e : Z) : 0 < ten_pow e.
Proof. apply Qpower_0_lt. reflexivity. Qed.

Lemma ten_pow_le (a b : Z) : (a <= b)%Z -> ten_pow a <= ten_pow b.
Proof. intro H. unfold ten_pow. apply Qpower_le_compat_l; [exact H | discriminate]. Qed.

Lemma ten_pow_add (a b : Z) : ten_pow (a + b) == ten_pow a * ten_pow b.
Proof. unfold ten_pow. apply Qpower_plus. discriminate. Qed.

Lemma ten_pow_nat (e : Z) : (0 <= e)%Z -> ten_pow e == inject_Z (10 ^ e).
Proof. intro H. unfold ten_pow. now rewrite Zpower_Qpower. Qed.

(** ** The decimal exponent *)

(** The estimate of [dec_exp], [floor (k * 0.30103)], is at most two above
    the decimal exponent of [2^k], for every binary exponent [k] of a
    binary64 number.  The two walks check it from [k = 0] upwards and
    downwards, [p] being the power of two and [t] the power of ten. *)
Fixpoint walk_up (fuel : nat) (i p j t : Z) : bool :=
  match fuel with
  | O => true
  | S f =>
      (t <=? 100 * p)%Z
      && (let j' := ((i + 1) * 30103 / 100000)%Z in
          if (j' =? j)%Z then walk_up f (i + 1) (2 * p) j t
          else if (j' =? j + 1)%Z then walk_up f (i + 1) (2 * p) j' (10 * t)
               else false)
  end.

Fixpoint walk_down (fuel : nat) (i p g t : Z) : bool :=
  match fuel with
  | O => true
  | S f =>
      (p <=? 100 * t)%Z
      && (let g' := (- (- (i + 1) * 30103 / 100000))%Z in
          if (g' =? g)%Z then walk_down f (i + 1) (2 * p) g t
          else if (g' =? g + 1)%Z then walk_down f (i + 1) (2 * p) g' (10 * t)
               else false)
  end.

Lemma walk_up_sound (fuel : nat) : forall i p j t : Z,
  walk_up fuel i p j t = true ->
  (0 <= i)%Z -> (0 <= j)%Z -> p = (2 ^ i)%Z -> j = (i * 30103 / 100000)%Z -> t = (10 ^ j)%Z ->
  forall k : Z, (i <= k < i + Z.of_nat fuel)%Z ->
                (10 ^ (k * 30103 / 100000) <= 100 * 2 ^ k)%Z.
Proof.
  induction fuel as [|f IH]; intros i p j t W Hi Hj Hp Ej Ht k Hk; [lia|].
  cbn [walk_up] in W. apply andb_true_iff in W as [W1 W2]. apply Z.leb_le in W1.
  destruct (Z.eq_dec k i) as [-> | Nk].
  - rewrite <- Ej, <- Ht, <- Hp. exact W1.
  - cbv zeta in W2.
    assert (P2 : (2 * p = 2 ^ (i + 1))%Z) by (rewrite Z.pow_add_r, Hp by lia; lia).
    destruct (((i + 1) * 30103 / 100000 =? j)%Z) eqn:C1.
    + apply Z.eqb_eq in C1.
      apply (IH (i + 1)%Z (2 * p)%Z j t W2); try lia; auto.
    + destruct (((i + 1) * 30103 / 100000 =? j + 1)%Z) eqn:C2; [|discriminate].
      apply Z.eqb_eq in C2.
      apply (IH (i + 1)%Z (2 * p)%Z _ (10 * t)%Z W2); try lia; auto.
      rewrite C2, Z.pow_add_r, Ht by lia. lia.
Qed.

Lemma walk_down_sound (fuel : nat) : forall i p g t : Z,
  walk_down fuel i p g t = true ->
  (0 <= i)%Z -> (0 <= g)%Z -> p = (2 ^ i)%Z -> g = (- (- i * 30103 / 100000))%Z ->
  t = (10 ^ g)%Z ->
  forall k : Z, (i <= k < i + Z.of_nat fuel)%Z ->
                (2 ^ k <= 100 * 10 ^ (- (- k * 30103 / 100000)))%Z.
Proof.
  induction fuel as [|f IH]; intros i p g t W Hi Hg Hp Eg Ht k Hk; [lia|].
  cbn [walk_down] in W. apply andb_true_iff in W as [W1 W2]. apply Z.leb_le in W1.
  destruct (Z.eq_dec k i) as [-> | Nk].
  - rewrite <- Eg, <- Ht, <- Hp. exact W1.
  - cbv zeta in W2.
    assert (P2 : (2 * p = 2 ^ (i + 1))%Z) by (rewrite Z.pow_add_r, Hp by lia; lia).
    destruct ((- (- (i + 1) * 30103 / 100000) =? g)%Z) eqn:C1.
    + apply Z.eqb_eq in C1.
      apply (IH (i + 1)%Z (2 * p)%Z g t W2); try lia; auto.
    + destruct ((- (- (i + 1) * 30103 / 100000) =? g + 1)%Z) eqn:C2; [|discriminate].
      apply Z.eqb_eq in C2.
      apply (IH (i + 1)%Z (2 * p)%Z _ (10 * t)%Z W2); try lia; auto.
      rewrite C2, Z.pow_add_r, Ht by lia. lia.
Qed.

Lemma walk_up_holds : walk_up 1024 0 1 0 1 = true.
Proof. vm_compute. reflexivity. Qed.

Lemma walk_down_holds : walk_down 1075 0 1 0 1 = true.
Proof. vm_compute. reflexivity. Qed.

Lemma estimate_low (k : Z) :
  (-1074 <= k <= 1023)%Z -> ten_pow (k * 30103 / 100000 - 2) <= two_pow k.
Proof.
  intro H. destruct (Z_lt_le_dec k 0) as [Neg | Pos].
  - pose proof (walk_down_sound 1075 0 1 0 1 walk_down_holds ltac:(lia) ltac:(lia)
                  eq_refl eq_refl eq_refl (- k)%Z ltac:(lia)) as W.
    rewrite Z.opp_involutive in W.
    set (e := (k * 30103 / 100000)%Z) in *.
    assert (He : (e < 0)%Z) by (apply Z.div_lt_upper_bound; lia).
    assert (P10 : (0 < 10 ^ (- e + 2))%Z) by (apply Z.pow_pos_nonneg; lia).
    assert (P2 : (0 < 2 ^ (- k))%Z) by (apply Z.pow_pos_nonneg; lia).
    assert (W' : (2 ^ (- k) <= 10 ^ (- e + 2))%Z).
    { rewrite Z.pow_add_r by lia. change (10 ^ 2)%Z with 100%Z. lia. }
    assert (K1 : ten_pow (e - 2) == / inject_Z (10 ^ (- e + 2))).
    { replace (e - 2)%Z with (- (- e + 2))%Z by lia.
      unfold ten_pow. rewrite Qpower_opp. fold (ten_pow (- e + 2)).
      now rewrite ten_pow_nat by lia. }
    assert (K2 : two_pow k == / inject_Z (2 ^ (- k))).
    { replace k with (- - k)%Z at 1 by lia. rewrite two_pow_opp.
      now rewrite two_pow_nat by lia. }
    rewrite K1, K2.
    apply Qle_shift_inv_r; [now apply inject_Z_pos|].
    rewrite Qmult_comm. apply Qle_shift_div_l; [now apply inject_Z_pos|].
    rewrite Qmult_1_l. now rewrite <- Zle_Qle.
  - pose proof (walk_up_sound 1024 0 1 0 1 walk_up_holds ltac:(lia) ltac:(lia)
                  eq_refl eq_refl eq_refl k ltac:(lia)) as W.
    set (e := (k * 30103 / 100000)%Z) in *.
    assert (He : (0 <= e)%Z) by (apply Z.div_pos; lia).
    replace (e - 2)%Z with (e + -2)%Z by lia.
    rewrite ten_pow_add, ten_pow_nat, two_pow_nat by lia.
    rewrite Zle_Qle, inject_Z_mult in W.
    change (inject_Z 100) with 100 in W. change (ten_pow (-2)) with (1 # 100).
    lra.
Qed.

Definition down (x : Q) (e : Z) : Z := if Qle_bool (ten_pow e) x then e else (e - 1)%Z.
Definition up (x : Q) (e : Z) : Z := if Qle_bool (ten_pow (e + 1)) x then (e + 1)%Z else e.

Lemma dec_exp_eq (x : Q) :
  dec_exp x = (up x (up x (down x (down x (ilog2 x * 30103 / 100000)))) + 1)%Z.
Proof. reflexivity. Qed.

Lemma up_keeps (x : Q) (e : Z) : ten_pow e <= x -> ten_pow (up x e) <= x.
Proof.
  intro H. unfold up. destruct (Qle_bool (ten_pow (e + 1)) x) eqn:C; [|exact H].
  now apply Qle_bool_iff.
Qed.

Lemma down_twice (x : Q) (e : Z) : ten_pow (e - 2) <= x -> ten_pow (down x (down x e)) <= x.
Proof.
  intro H. unfold down at 1.
  destruct (Qle_bool (ten_pow (down x e)) x) eqn:C; [now apply Qle_bool_iff|].
  unfold down in *. destruct (Qle_bool (ten_pow e) x) eqn:C0.
  - congruence.
  - now replace (e - 1 - 1)%Z with (e - 2)%Z by lia.
Qed.

Lemma dec_exp_le (x : Q) :
  0 < x -> (-1074 <= ilog2 x <= 1023)%Z -> ten_pow (dec_exp x - 1) <= x.
Proof.
  intros Hx Hk. rewrite dec_exp_eq.
  replace (up x (up x (down x (down x (ilog2 x * 30103 / 100000)))) + 1 - 1)%Z
    with (up x (up x (down x (down x (ilog2 x * 30103 / 100000))))) by lia.
  do 2 apply up_keeps. apply down_twice.
  eapply Qle_trans; [apply estimate_low; exact Hk|].
  apply (ilog2_spec x Hx).
Qed.

(** ** The binary exponent of a finite binary64 number *)

Lemma double_ge_min (x : Q) : 0 < x -> binary64 x == x -> two_pow (-1074) <= x.
Proof.
  intros Hx Bx. pose proof (double_value x Hx Bx) as V.
  assert (E_lo : (-1074 <= expo x)%Z) by (unfold expo; lia).
  pose proof (two_pow_le _ _ E_lo) as L.
  pose proof (two_pow_pos (expo x)) as Pu.
  set (m := mant x) in *. clearbody m. remember (two_pow (expo x)) as u eqn:Eu.
  assert (m_lo : (1 <= m)%Z).
  { destruct (Z_le_gt_dec 1 m) as [H | H]; [exact H | exfalso].
    pose proof (scaled_le m 0 u ltac:(lra) ltac:(lia)) as S.
    change (inject_Z 0) with 0 in S. lra. }
  pose proof (scaled_le 1 m u ltac:(lra) m_lo) as M1. change (inject_Z 1) with 1 in M1.
  lra.
Qed.

Lemma double_ilog2 (x : Q) :
  0 < x -> binary64 x == x -> x < two_pow 1024 -> (-1074 <= ilog2 x <= 1023)%Z.
Proof.
  intros Hx Bx Hfin. destruct (ilog2_spec x Hx) as [L U].
  pose proof (double_ge_min x Hx Bx) as M.
  assert (A : (-1074 < ilog2 x + 1)%Z) by (apply two_pow_lt_inv; eapply Qle_lt_trans; eauto).
  assert (B : (ilog2 x < 1024)%Z) by (apply two_pow_lt_inv; eapply Qle_lt_trans; eauto).
  lia.
Qed.

(** ** Seventeen digits are enough *)

Lemma seventeen (x : Q) (n : Z) :
  0 < x -> binary64 x == x -> ten_pow (n - 1) <= x ->
  binary64 (inject_Z (Qfloor (x / ten_pow (n - 17))) * ten_pow (n - 17)) == x
  \/ binary64 (inject_Z (Qfloor (x / ten_pow (n - 17)) + 1) * ten_pow (n - 17)) == x.
Proof.
  intros Hx Bx Hn.
  pose proof (ten_pow_pos (n - 17)) as Pt.
  assert (T16 : ten_pow (n - 1) == ten_pow (n - 17) * 10000000000000000).
  { replace (n - 1)%Z with (n - 17 + 16)%Z by lia. rewrite ten_pow_add. reflexivity. }
  remember (ten_pow (n - 17)) as t eqn:Et.
  assert (Q1 : x == x / t * t) by (field; lra).
  pose proof (Qfloor_le (x / t)) as F1. pose proof (Qlt_floor (x / t)) as F2.
  rewrite inject_Z_plus in F2 |- *. change (inject_Z 1) with 1 in F2 |- *.
  remember (x / t) as q eqn:Eq. remember (inject_Z (Qfloor q)) as lo eqn:El.
  destruct (Qlt_le_dec (1 # 2) (q - lo)) as [Hi | Lo].
  - right. apply (binary64_near x _ t Hx Bx); [lra | |].
    + assert (P : 0 <= (lo + 1 - q) * t) by (apply Qmult_le_0_compat; lra). lra.
    + assert (P : (lo + 1 - q) * t <= (1 # 2) * t) by (apply Qmult_le_compat_r; lra). lra.
  - left. apply (binary64_near x _ t Hx Bx); [lra | |].
    + assert (P : (q - lo) * t <= (1 # 2) * t) by (apply Qmult_le_compat_r; lra). lra.
    + assert (P : 0 <= (q - lo) * t) by (apply Qmult_le_0_compat; lra). lra.
Qed.

(** ** The search for the shortest decimal *)

Definition okb (x : Q) (n s k : Z) : bool :=
  Qeq_bool (binary64 (inject_Z s * ten_pow (n - k))) x.

Definition lo_at (x : Q) (n k : Z) : Z := Qfloor (x / ten_pow (n - k)).

Lemma shortest_step (fuel : nat) (k : Z) (x : Q) (n : Z) :
  shortest (S fuel) k x n
  = match okb x n (lo_at x n k) k, okb x n (lo_at x n k + 1) k with
    | true, false => (lo_at x n k, k)
    | false, true => ((lo_at x n k + 1)%Z, k)
    | true, true =>
        match Qcompare (x - inject_Z (lo_at x n k) * ten_pow (n - k))
                       (inject_Z (lo_at x n k + 1) * ten_pow (n - k) - x) with
        | Lt => (lo_at x n k, k)
        | Gt => ((lo_at x n k + 1)%Z, k)
        | Eq => if Z.even (lo_at x n k) then (lo_at x n k, k) else ((lo_at x n k + 1)%Z, k)
        end
    | false, false => shortest fuel (k + 1)%Z x n
    end.
Proof. reflexivity. Qed.

Lemma shortest_ok (x : Q) (n : Z) (fuel : nat) : forall k : Z,
  (exists j : nat,
      (j < fuel)%nat
      /\ (okb x n (lo_at x n (k + Z.of_nat j)) (k + Z.of_nat j) = true
          \/ okb x n (lo_at x n (k + Z.of_nat j) + 1) (k + Z.of_nat j) = true)) ->
  okb x n (fst (shortest fuel k x n)) (snd (shortest fuel k x n)) = true
  /\ (fst (shortest fuel k x n) = lo_at x n (snd (shortest fuel k x n))
      \/ fst (shortest fuel k x n) = (lo_at x n (snd (shortest fuel k x n)) + 1)%Z).
Proof.
  induction fuel as [|f IH]; intros k (j & Hj & H); [lia|].
  rewrite shortest_step.
  destruct (okb x n (lo_at x n k) k) eqn:A, (okb x n (lo_at x n k + 1) k) eqn:B.
  - destruct (Qcompare _ _); [destruct (Z.even _)| |]; cbn [fst snd]; auto.
  - cbn [fst snd]. auto.
  - cbn [fst snd]. auto.
  - apply IH. destruct j as [|j'].
    + exfalso. cbn [Z.of_nat] in H. rewrite Z.add_0_r in H. destruct H; congruence.
    + exists j'. split; [lia|].
      replace (k + 1 + Z.of_nat j')%Z with (k + Z.of_nat (S j'))%Z by lia. exact H.
Qed.

Lemma binary64_zero (y : Q) : y == 0 -> binary64 y = 0.
Proof. intro H. unfold binary64. now rewrite (proj1 (Qeq_alt y 0) H). Qed.

(** The digits that [Number::toString] takes for a positive finite number
    denote it, and they are not all zero. *)
Lemma shortest_denotes (x : Q) :
  0 < x -> binary64 x == x -> x < two_pow 1024 ->
  let n := dec_exp x in
  let s := fst (shortest 17 1 x n) in
  let k := snd (shortest 17 1 x n) in
  (0 < s)%Z /\ binary64 (inject_Z s * ten_pow (n - k)) == x.
Proof.
  intros Hx Bx Hfin n s k.
  pose proof (dec_exp_le x Hx (double_ilog2 x Hx Bx Hfin)) as Hn. fold n in Hn.
  destruct (shortest_ok x n 17 1) as [Ok Which].
  { exists 16%nat. split; [lia|]. change (1 + Z.of_nat 16)%Z with 17%Z.
    unfold okb, lo_at.
    destruct (seventeen x n Hx Bx Hn) as [H | H]; [left | right]; now apply Qeq_bool_iff. }
  fold s k in Ok, Which. unfold okb in Ok. apply Qeq_bool_iff in Ok.
  split; [|exact Ok].
  assert (S0 : (0 <= s)%Z).
  { assert (F : (0 <= lo_at x n k)%Z).
    { unfold lo_at. change 0%Z with (Qfloor 0). apply Qfloor_resp_le.
      apply Qlt_le_weak. apply Qlt_shift_div_l; [apply ten_pow_pos | lra]. }
    destruct Which as [-> | ->]; lia. }
  destruct (Z.eq_dec s 0) as [Z0 | NZ]; [exfalso | lia].
  rewrite Z0 in Ok. rewrite (binary64_zero (inject_Z 0 * ten_pow (n - k))) in Ok.
  - lra.
  - change (inject_Z 0) with 0. ring.
Qed.

End RoundingFacts.

(* ================================================================== *)
(** * [Number::toString] and [JSON.parse]: a finite number reads back *)

Module NumberText.
Import JsNumber NumberFacts Json.
Import RoundingFacts StableFacts.
Local Open Scope Z_scope.

Local Abbreviation dv := JsObject.decimal_value.
Local Abbreviation is_digit := JsObject.is_digit.

(** ** Digit strings and their values *)


(** Nothing, or a character that is no digit. *)
Definition no_digit_head (rest : string) : Prop :=
  match rest with
  | EmptyString => True
  | String c _ => is_digit c = false
  end.

(** A first character other than [0]. *)
Definition nonzero_head (s : string) : Prop :=
  match s with
  | EmptyString => False
  | String c _ => c <> "0"%char
  end.

Lemma take_digits_run (ds rest : string) : forall acc cnt : Z,
  all_chars is_digit ds = true -> no_digit_head rest ->
  take_digits acc cnt (ds ++ rest)
  = (dv acc ds, cnt + Z.of_nat (String.length ds), rest).
Proof.
  induction ds as [|c tl IH]; intros acc cnt D R.
  - cbn [append dv String.length Z.of_nat]. rewrite Z.add_0_r.
    destruct rest as [|c tl]; [reflexivity|]. cbn in R |- *. now rewrite R.
  - cbn [all_chars] in D. apply andb_true_iff in D as [Dc Dtl].
    cbn [append take_digits dv]. rewrite Dc, (IH _ _ Dtl R).
    f_equal. f_equal. cbn [String.length]. lia.
Qed.

Lemma dv_app (a b : string) : forall acc, dv acc (a ++ b) = dv (dv acc a) b.
Proof. induction a as [|c tl IH]; intro acc; [reflexivity|]. cbn. apply IH. Qed.

Lemma dv_zeros (n : nat) : forall acc, dv acc (JsString.repeat_char "0" n) = acc * 10 ^ Z.of_nat n.
Proof.
  induction n as [|n IH]; intro acc.
  - cbn. lia.
  - cbn [JsString.repeat_char dv]. rewrite IH.
    change (JsString.charCode "0" - 48) with 0.
    rewrite Nat2Z.inj_succ, Z.pow_succ_r by lia. lia.
Qed.

Lemma charCode_digit (d : Z) : 0 <= d < 10 -> JsString.charCode (JsString.digit_char d) = 48 + d.
Proof.
  intro H.
  assert (C : d = 0 \/ d = 1 \/ d = 2 \/ d = 3 \/ d = 4 \/ d = 5 \/ d = 6 \/ d = 7
              \/ d = 8 \/ d = 9) by lia.
  repeat (destruct C as [-> | C]; [reflexivity|]). subst d. reflexivity.
Qed.

Lemma digit_char_nonzero (d : Z) : 0 < d < 10 -> JsString.digit_char d <> "0"%char.
Proof.
  intro H.
  assert (C : d = 1 \/ d = 2 \/ d = 3 \/ d = 4 \/ d = 5 \/ d = 6 \/ d = 7
              \/ d = 8 \/ d = 9) by lia.
  repeat (destruct C as [-> | C]; [discriminate|]). subst d. discriminate.
Qed.

Lemma nonzero_head_app (a b : string) : nonzero_head a -> nonzero_head (a ++ b).
Proof. destruct a; [contradiction | trivial]. Qed.

Lemma digits_fuel_spec (fuel : nat) : forall (n : Z) (acc : string),
  0 <= n < 2 ^ Z.of_nat fuel -> fuel <> 0%nat ->
  exists D : string,
    JsString.digits_fuel fuel n acc = D ++ acc
    /\ dv 0 D = n
    /\ D <> ""
    /\ (0 < n -> nonzero_head D).
Proof.
  induction fuel as [|f IH]; intros n acc Hn Hf; [contradiction|].
  cbn [JsString.digits_fuel].
  destruct (n <? 10) eqn:C.
  - apply Z.ltb_lt in C. exists (String (JsString.digit_char (n mod 10)) "").
    rewrite Z.mod_small by lia.
    split; [reflexivity|]. split; [|split; [discriminate|]].
    + cbn [dv]. rewrite charCode_digit by lia. lia.
    + intro P. cbn. apply digit_char_nonzero. lia.
  - apply Z.ltb_ge in C.
    rewrite Nat2Z.inj_succ, Z.pow_succ_r in Hn by lia.
    assert (Hf' : f <> 0%nat).
    { intros ->. cbn in Hn. lia. }
    assert (P : (0 < 2 ^ Z.of_nat f)) by (apply Z.pow_pos_nonneg; lia).
    destruct (IH (n / 10) (String (JsString.digit_char (n mod 10)) acc))
      as (D & E & V & _ & H); [|exact Hf'|].
    { split; [apply Z.div_pos; lia | apply Z.div_lt_upper_bound; lia]. }
    exists (D ++ String (JsString.digit_char (n mod 10)) "").
    split; [|split; [|split]].
    + rewrite E, EffectFacts.append_assoc. reflexivity.
    + rewrite dv_app, V. cbn [dv].
      rewrite charCode_digit by (apply Z.mod_pos_bound; lia).
      pose proof (Z.div_mod n 10 ltac:(lia)). lia.
    + destruct D; discriminate.
    + intros _. apply nonzero_head_app, H.
      apply Z.div_str_pos. lia.
Qed.

Lemma nat_digits_spec (n : Z) :
  0 <= n ->
  dv 0 (JsString.nat_digits n) = n
  /\ JsString.nat_digits n <> ""
  /\ (0 < n -> nonzero_head (JsString.nat_digits n)).
Proof.
  intro H. unfold JsString.nat_digits.
  destruct (digits_fuel_spec (S (Z.to_nat (Z.log2 n))) n "") as (D & E & V & N & P).
  - destruct (Z.eq_dec n 0) as [-> | N0]; [cbn; lia|].
    pose proof (Z.log2_spec n ltac:(lia)) as [_ L]. pose proof (Z.log2_nonneg n).
    rewrite Nat2Z.inj_succ, Z2Nat.id by lia. lia.
  - discriminate.
  - rewrite E, append_empty. auto.
Qed.

(** ** The significant digits *)

Lemma strip_zeros_rev_spec (l : list ascii) :
  exists z : nat, l = (repeat "0"%char z ++ strip_zeros_rev l)%list.
Proof.
  induction l as [|a tl [z IH]]; [now exists 0%nat|].
  destruct (Ascii.eqb a "0") eqn:E.
  - apply Ascii.eqb_eq in E. subst a. exists (S z). cbn [strip_zeros_rev repeat app].
    now rewrite <- IH.
  - exists 0%nat. cbn [repeat app].
    destruct a as [[] [] [] [] [] [] [] []]; try reflexivity. discriminate E.
Qed.

Lemma rev_repeat {A} (a : A) (n : nat) : rev (repeat a n) = repeat a n.
Proof.
  induction n as [|n IH]; [reflexivity|].
  cbn [repeat rev]. rewrite IH. symmetry. apply repeat_cons.
Qed.

Lemma string_of_list_app (a b : list ascii) :
  string_of_list_ascii (a ++ b) = (string_of_list_ascii a ++ string_of_list_ascii b)%string.
Proof. induction a as [|c tl IH]; [reflexivity|]. cbn. now rewrite IH. Qed.

Lemma string_of_repeat (c : ascii) (n : nat) :
  string_of_list_ascii (repeat c n) = JsString.repeat_char c n.
Proof. induction n as [|n IH]; [reflexivity|]. cbn. now rewrite IH. Qed.

Lemma length_repeat_char (c : ascii) (n : nat) : String.length (JsString.repeat_char c n) = n.
Proof. induction n as [|n IH]; [reflexivity|]. cbn. now rewrite IH. Qed.

Lemma significant_spec (s : Z) :
  0 < s ->
  exists z : nat,
    JsString.nat_digits s = (significant s ++ JsString.repeat_char "0" z)%string
    /\ nonzero_head (significant s).
Proof.
  intro H. destruct (nat_digits_spec s ltac:(lia)) as (_ & _ & P). specialize (P H).
  unfold significant.
  destruct (strip_zeros_rev_spec (rev (list_ascii_of_string (JsString.nat_digits s))))
    as [z E].
  set (S' := strip_zeros_rev (rev (list_ascii_of_string (JsString.nat_digits s)))) in *.
  assert (D : JsString.nat_digits s
              = (string_of_list_ascii (rev S') ++ JsString.repeat_char "0" z)%string).
  { rewrite <- (string_of_list_ascii_of_string (JsString.nat_digits s)) at 1.
    rewrite <- (rev_involutive (list_ascii_of_string (JsString.nat_digits s))), E.
    rewrite rev_app_distr, rev_repeat, string_of_list_app, string_of_repeat. reflexivity. }
  exists z. split; [exact D|].
  rewrite D in P. destruct (string_of_list_ascii (rev S')) as [|c tl]; [|exact P].
  cbn [append] in P. destruct z; cbn in P; [contradiction | now apply P].
Qed.

(** ** Substrings *)

Lemma substring_all (s : string) : substring 0 (String.length s) s = s.
Proof. induction s as [|c tl IH]; [reflexivity|]. cbn. now rewrite IH. Qed.

Lemma substring_split (s : string) : forall n : nat,
  (n <= String.length s)%nat ->
  (substring 0 n s ++ substring n (String.length s - n) s)%string = s
  /\ String.length (substring 0 n s) = n
  /\ String.length (substring n (String.length s - n) s) = (String.length s - n)%nat.
Proof.
  induction s as [|c tl IH]; intros n H.
  - cbn in H. assert (n = 0%nat) by lia. subst n. now cbn.
  - destruct n as [|n].
    + cbn [substring append String.length Nat.sub]. rewrite substring_all. auto.
    + cbn [String.length] in H. destruct (IH n ltac:(lia)) as (E & L1 & L2).
      cbn [substring append String.length Nat.sub]. rewrite E, L1, L2. auto.
Qed.

(** ** Reading a number back from its parts *)

Definition frac_text (B : option string) : string :=
  match B with
  | None => ""
  | Some b => "." ++ b
  end.

Definition exp_text (e : option Z) : string :=
  match e with
  | None => ""
  | Some e => "e" ++ (if e <? 0 then "-" else "+") ++ JsString.nat_digits (Z.abs e)
  end.

Definition or_empty (B : option string) : string :=
  match B with Some b => b | None => "" end.

Definition or_zero (e : option Z) : Z :=
  match e with Some e => e | None => 0 end.

Lemma take_digits_all (ds : string) (acc cnt : Z) :
  all_chars is_digit ds = true ->
  take_digits acc cnt ds = (dv acc ds, cnt + Z.of_nat (String.length ds), "").
Proof.
  intro D. rewrite <- (append_empty ds) at 1. now apply take_digits_run.
Qed.

Lemma parse_exponent_text (e : option Z) : parse_exponent (exp_text e) = Some (or_zero e).
Proof.
  destruct e as [e|]; [|reflexivity].
  unfold exp_text, or_zero.
  destruct (nat_digits_spec (Z.abs e) ltac:(lia)) as (V & N & _).
  pose proof (take_digits_all _ 0 0 (nat_digits_digits (Z.abs e))) as T. rewrite V in T.
  assert (Lpos : (0 <? 0 + Z.of_nat (String.length (JsString.nat_digits (Z.abs e)))) = true).
  { apply Z.ltb_lt. destruct (JsString.nat_digits (Z.abs e)); [contradiction | cbn; lia]. }
  destruct (e <? 0) eqn:C.
  - apply Z.ltb_lt in C.
    change (parse_exponent ("e" ++ "-" ++ JsString.nat_digits (Z.abs e)))
      with (match take_digits 0 0 (JsString.nat_digits (Z.abs e)) with
            | (v, cnt, EmptyString) => if 0 <? cnt then Some (- v) else None
            | _ => None
            end).
    rewrite T, Lpos. f_equal. lia.
  - apply Z.ltb_ge in C.
    change (parse_exponent ("e" ++ "+" ++ JsString.nat_digits (Z.abs e)))
      with (match take_digits 0 0 (JsString.nat_digits (Z.abs e)) with
            | (v, cnt, EmptyString) => if 0 <? cnt then Some v else None
            | _ => None
            end).
    rewrite T, Lpos. f_equal. lia.
Qed.

Lemma exp_text_head (e : option Z) : no_digit_head (exp_text e).
Proof. destruct e; [reflexivity | exact I]. Qed.

Lemma rest_head (B : option string) (e : option Z) : no_digit_head (frac_text B ++ exp_text e).
Proof. destruct B; [reflexivity | apply exp_text_head]. Qed.

Lemma digit_not_minus (c : ascii) : is_digit c = true -> (JsString.charCode c =? 45) = false.
Proof.
  unfold JsObject.is_digit. intro H. apply andb_true_iff in H as [H _].
  apply Z.leb_le in H. apply Z.eqb_neq. lia.
Qed.

Lemma parse_parts (A : string) (B : option string) (e : option Z) :
  all_chars is_digit A = true ->
  (String.length A = 1%nat \/ nonzero_head A) ->
  (forall b, B = Some b -> all_chars is_digit b = true /\ b <> ""%string) ->
  let v := binary64 (inject_Z (dv (dv 0 A) (or_empty B))
                     * ten_pow (or_zero e - Z.of_nat (String.length (or_empty B)))) in
  parse_unsigned (A ++ frac_text B ++ exp_text e) = Some v
  /\ parse_number (A ++ frac_text B ++ exp_text e) = Some v.
Proof.
  intros DA HA HB v.
  assert (NA : A <> ""%string) by (destruct HA as [H | H]; destruct A; easy).
  destruct A as [|a A']; [contradiction|].
  assert (Da : is_digit a = true) by (cbn in DA; now apply andb_true_iff in DA).
  assert (P : parse_unsigned (String a A' ++ frac_text B ++ exp_text e) = Some v).
  { pose proof (take_digits_run (String a A') (frac_text B ++ exp_text e) 0 0 DA
                  (rest_head B e)) as T.
    unfold parse_unsigned. cbn [append] in T |- *. rewrite T. clear T.
    assert (C : (0 <? 0 + Z.of_nat (String.length (String a A')))
                && ((0 + Z.of_nat (String.length (String a A')) =? 1)
                    || negb (Ascii.eqb a "0")) = true).
    { apply andb_true_iff. split; [apply Z.ltb_lt; cbn [String.length]; lia|].
      apply orb_true_iff. destruct HA as [H | H].
      - left. rewrite H. reflexivity.
      - right. apply negb_true_iff, Ascii.eqb_neq. exact H. }
    rewrite C. clear C.
    destruct B as [b|].
    - destruct (HB b eq_refl) as [Db Nb].
      cbn [frac_text append].
      change (JsString.charCode "." =? 46) with true. cbv iota.
      rewrite (take_digits_run b (exp_text e) _ 0 Db (exp_text_head e)).
      assert (Lb : (0 <? 0 + Z.of_nat (String.length b)) = true).
      { apply Z.ltb_lt. destruct b; [contradiction | cbn [String.length]; lia]. }
      rewrite Lb, parse_exponent_text. reflexivity.
    - cbn [frac_text append].
      destruct e as [e|].
      + assert (R : match exp_text (Some e) with
                    | String d tl =>
                        if JsString.charCode d =? 46
                        then match take_digits (dv 0 (String a A')) 0 tl with
                             | (m, fcnt, r) => (m, fcnt, r, 0 <? fcnt)
                             end
                        else (dv 0 (String a A'), 0, exp_text (Some e), true)
                    | EmptyString => (dv 0 (String a A'), 0, exp_text (Some e), true)
                    end = (dv 0 (String a A'), 0, exp_text (Some e), true)) by reflexivity.
        rewrite R, parse_exponent_text. reflexivity.
      + reflexivity. }
  split; [exact P|].
  unfold parse_number. cbn [append]. rewrite (digit_not_minus a Da). exact P.
Qed.

Lemma nonzero_head_substring (ds : string) (n : nat) :
  nonzero_head ds -> (0 < n)%nat -> nonzero_head (substring 0 n ds).
Proof. destruct ds as [|c tl]; [contradiction|]. destruct n; [lia | trivial]. Qed.

Lemma nonzero_head_length (ds : string) : nonzero_head ds -> (1 <= String.length ds)%nat.
Proof. destruct ds; [contradiction | cbn; lia]. Qed.

Lemma length_nonempty (s : string) : (0 < String.length s)%nat -> s <> ""%string.
Proof. destruct s; [cbn; lia | discriminate]. Qed.

Lemma ten_pow_0 : (ten_pow 0 == 1)%Q.
Proof. reflexivity. Qed.

(** The text [layout ds N] reads back as the number [0.ds * 10^N]. *)
Lemma parse_layout (ds : string) (N : Z) :
  all_chars is_digit ds = true -> nonzero_head ds ->
  exists (M X : Z),
    parse_unsigned (layout ds N) = Some (binary64 (inject_Z M * ten_pow X))
    /\ parse_number (layout ds N) = Some (binary64 (inject_Z M * ten_pow X))
    /\ (inject_Z M * ten_pow X
        == inject_Z (dv 0 ds) * ten_pow (N - Z.of_nat (String.length ds)))%Q.
Proof.
  intros D H. pose proof (nonzero_head_length ds H) as L1.
  unfold layout. set (L := Z.of_nat (String.length ds)).
  destruct ((L <=? N) && (N <=? 21)) eqn:Ca.
  { (* an integer *)
    apply andb_true_iff in Ca as [C1 C2]. apply Z.leb_le in C1.
    destruct (parse_parts (ds ++ JsString.repeat_char "0" (Z.to_nat (N - L))) None None)
      as [P1 P2].
    - rewrite all_chars_app, D. now apply all_chars_repeat.
    - right. now apply nonzero_head_app.
    - discriminate.
    - cbn [frac_text exp_text or_empty or_zero String.length Z.of_nat] in P1, P2.
      rewrite !append_empty in P1, P2.
      eexists _, _. split; [exact P1|]. split; [exact P2|].
      cbn [dv]. rewrite dv_app, dv_zeros, Z2Nat.id by lia.
      rewrite inject_Z_mult, <- ten_pow_nat by lia.
      change (0 - 0) with 0. rewrite ten_pow_0. fold L. ring. }
  destruct ((0 <? N) && (N <=? 21)) eqn:Cb.
  { (* digits on both sides of the point *)
    apply andb_true_iff in Cb as [C1 C2]. apply Z.ltb_lt in C1. apply Z.leb_le in C2.
    assert (NL : N < L).
    { destruct (Z_lt_le_dec N L) as [X | X]; [exact X | exfalso].
      apply andb_false_iff in Ca as [Y | Y]; [apply Z.leb_gt in Y | apply Z.leb_gt in Y]; lia. }
    destruct (substring_split ds (Z.to_nat N) ltac:(lia)) as (E & LA & LB).
    replace (Z.to_nat (L - N)) with (String.length ds - Z.to_nat N)%nat by lia.
    destruct (parse_parts (substring 0 (Z.to_nat N) ds)
                (Some (substring (Z.to_nat N) (String.length ds - Z.to_nat N) ds)) None)
      as [P1 P2].
    - now apply all_chars_substring.
    - right. apply nonzero_head_substring; [exact H | lia].
    - intros b [= <-]. split; [now apply all_chars_substring|].
      apply length_nonempty. rewrite LB. lia.
    - cbn [frac_text exp_text or_empty or_zero] in P1, P2.
      rewrite !append_empty in P1, P2.
      eexists _, _. split; [exact P1|]. split; [exact P2|].
      rewrite <- dv_app, E, LB.
      replace (0 - Z.of_nat (String.length ds - Z.to_nat N)) with (N - L) by lia.
      reflexivity. }
  destruct ((-6 <? N) && (N <=? 0)) eqn:Cc.
  { (* a fraction below one *)
    apply andb_true_iff in Cc as [C1 C2]. apply Z.ltb_lt in C1. apply Z.leb_le in C2.
    destruct (parse_parts "0" (Some (JsString.repeat_char "0" (Z.to_nat (- N)) ++ ds)%string)
                None) as [P1 P2].
    - reflexivity.
    - now left.
    - intros b [= <-]. split.
      + rewrite all_chars_app, D. now rewrite all_chars_repeat.
      + apply length_nonempty. rewrite length_app. lia.
    - cbn [frac_text exp_text or_empty or_zero] in P1, P2.
      rewrite !append_empty in P1, P2.
      eexists _, _. split; [exact P1|]. split; [exact P2|].
      change (dv 0 "0") with 0.
      rewrite dv_app, dv_zeros, length_app, length_repeat_char.
      replace (0 * 10 ^ Z.of_nat (Z.to_nat (- N))) with 0 by lia.
      replace (0 - Z.of_nat (Z.to_nat (- N) + String.length ds)) with (N - L) by lia.
      reflexivity. }
  (* exponent notation *)
  destruct (L =? 1) eqn:Cd.
  - apply Z.eqb_eq in Cd.
    destruct (parse_parts ds None (Some (N - 1))) as [P1 P2].
    + exact D.
    + now right.
    + discriminate.
    + cbn [frac_text exp_text or_empty or_zero String.length Z.of_nat append] in P1, P2.
      eexists _, _. split; [exact P1|]. split; [exact P2|].
      cbn [dv]. replace (N - 1 - 0) with (N - L) by lia. reflexivity.
  - apply Z.eqb_neq in Cd.
    destruct (substring_split ds 1 ltac:(lia)) as (E & LA & LB).
    replace (Z.to_nat (L - 1)) with (String.length ds - 1)%nat by lia.
    destruct (parse_parts (substring 0 1 ds)
                (Some (substring 1 (String.length ds - 1) ds)) (Some (N - 1)))
      as [P1 P2].
    + now apply all_chars_substring.
    + now left.
    + intros b [= <-]. split; [now apply all_chars_substring|].
      apply length_nonempty. rewrite LB. lia.
    + cbn [frac_text exp_text or_empty or_zero] in P1, P2.
      rewrite <- !EffectFacts.append_assoc in P1, P2.
      rewrite <- !EffectFacts.append_assoc.
      eexists _, _. split; [exact P1|]. split; [exact P2|].
      rewrite <- dv_app, E, LB.
      replace (N - 1 - Z.of_nat (String.length ds - 1)) with (N - L) by lia.
      reflexivity.
Qed.

(** ** A finite number, printed and read back *)

(** A finite binary64 number: a rational that rounding leaves as it is (in
    lowest terms, as every result of [binary64] is), below [2^1024] in
    absolute value. *)
Definition finite (n : number) : Prop :=
  binary64 n = n /\ (Qabs n < two_pow 1024)%Q.

Lemma binary64_Qred (y : Q) : Qred (binary64 y) = binary64 y.
Proof.
  unfold binary64. destruct (Qcompare y 0); [reflexivity | |]; apply Qred_complete, Qred_correct.
Qed.

Lemma binary64_eq (y x : Q) : binary64 x = x -> (binary64 y == x)%Q -> binary64 y = x.
Proof.
  intros Bx E.
  assert (Rx : Qred x = x) by (rewrite <- Bx; apply binary64_Qred).
  rewrite <- (binary64_Qred y), <- Rx. now apply Qred_complete.
Qed.

Lemma Qopp_opp (q : Q) : (- - q)%Q = q.
Proof. destruct q as [n d]. unfold Qopp. cbn. now rewrite Z.opp_involutive. Qed.

Lemma positive_round_trip (x : Q) :
  (0 < x)%Q -> binary64 x = x -> (x < two_pow 1024)%Q ->
  parse_unsigned (positive_to_string x) = Some x
  /\ parse_number (positive_to_string x) = Some x.
Proof.
  intros Hx Bx Hfin.
  assert (Bq : (binary64 x == x)%Q) by (rewrite Bx; reflexivity).
  destruct (shortest_denotes x Hx Bq Hfin) as [Spos Ok]. cbv zeta in Spos, Ok.
  unfold positive_to_string.
  destruct (shortest 17 1 x (dec_exp x)) as [s k]. cbn [fst snd] in Spos, Ok.
  destruct (significant_spec s Spos) as (z & Dg & NZ).
  destruct (nat_digits_spec s ltac:(lia)) as (Vs & _ & _).
  destruct (parse_layout (significant s)
              (dec_exp x + (Z.of_nat (String.length (JsString.nat_digits s)) - k))
              (significant_digits s) NZ) as (M & X & P1 & P2 & E).
  assert (V : binary64 (inject_Z M * ten_pow X) = x).
  { apply binary64_eq; [exact Bx|].
    rewrite (binary64_proper _ (inject_Z s * ten_pow (dec_exp x - k))); [exact Ok|].
    rewrite E. rewrite Dg, length_app, length_repeat_char.
    rewrite Dg, dv_app, dv_zeros in Vs.
    replace (dec_exp x
             + (Z.of_nat (String.length (significant s) + z) - k)
             - Z.of_nat (String.length (significant s)))
      with (dec_exp x - k + Z.of_nat z) by lia.
    rewrite ten_pow_add, (ten_pow_nat (Z.of_nat z)) by lia.
    assert (Es : (inject_Z s == inject_Z (dv 0 (significant s)) * inject_Z (10 ^ Z.of_nat z))%Q).
    { rewrite <- inject_Z_mult. now rewrite Vs. }
    rewrite Es. ring. }
  rewrite P1, P2, V. split; reflexivity.
Qed.

(** [JSON.parse] reads a finite number back from the text that
    [Number::toString] gives it. *)
Lemma number_round_trip (n : number) : finite n -> parse_number (to_string n) = Some n.
Proof.
  intros [Bn Fn]. unfold to_string. destruct (Qcompare n 0) eqn:C.
  - apply Qeq_alt in C. rewrite (binary64_zero n C) in Bn. subst n. reflexivity.
  - apply Qlt_alt in C.
    assert (Rn : Qred n = n) by (rewrite <- Bn; apply binary64_Qred).
    assert (Pa : (0 < - n)%Q) by lra.
    assert (Ea : (Qabs n == - n)%Q) by (apply Qabs_neg; lra).
    assert (PA : (0 < Qabs n)%Q) by lra.
    assert (Ba : binary64 (- n) = (- n)%Q).
    { rewrite (binary64_pos _ Pa).
      rewrite (binary64_neg n C), Qred_opp in Bn.
      rewrite (mant_proper _ _ PA Ea), (expo_proper _ _ PA Ea) in Bn.
      rewrite <- Bn at 3. now rewrite Qopp_opp. }
    destruct (positive_round_trip (- n) Pa Ba ltac:(lra)) as [P _].
    change (parse_number ("-" ++ positive_to_string (- n)))
      with (match parse_unsigned (positive_to_string (- n)) with
            | Some v => Some (Qred (- v))
            | None => None
            end).
    rewrite P, Qopp_opp, Rn. reflexivity.
  - apply Qgt_alt in C.
    rewrite (Qabs_of_pos n C) in Fn.
    apply (positive_round_trip n C Bn Fn).
Qed.

End NumberText.

(* ================================================================== *)
(** * The canonical serializer on the JSON values of JavaScript *)

Module CanonicalFacts.
Import JsNumber Json.
Import StableFacts NumberText.

(** The JSON values of the claim: built from null, booleans, finite
    numbers, strings, arrays and objects, the keys of an object distinct as
    those of a JavaScript object are. *)
Fixpoint json_value (x : json) : Prop :=
  match x with
  | JNum n => finite n
  | JArr items =>
      (fix all (l : list json) : Prop :=
         match l with
         | [] => True
         | v :: tl => json_value v /\ all tl
         end) items
  | JObj props =>
      NoDup (map fst props)
      /\ (fix all (l : list (string * json)) : Prop :=
            match l with
            | [] => True
            | (_, v) :: tl => json_value v /\ all tl
            end) props
  | _ => True
  end.

Lemma json_value_reads_back (x : json) : json_value x -> well_formed x.
Proof.
  induction x as [ | b | n | s | items IH | props IH ] using json_induction.
  - trivial.
  - trivial.
  - cbn [json_value well_formed]. apply number_round_trip.
  - trivial.
  - intro W. apply well_formed_arr. cbn [json_value] in W.
    induction IH as [|v tl Hv _ IHl]; [constructor|].
    destruct W as [Wv Wtl]. constructor; [now apply Hv | now apply IHl].
  - intro W. apply well_formed_obj. cbn [json_value] in W. destruct W as [ND W].
    split; [exact ND|]. clear ND.
    induction IH as [|[k v] tl Hv _ IHl]; [constructor|].
    destruct W as [Wv Wtl]. constructor; [now apply Hv | now apply IHl].
Qed.

(** C9.  For every JSON value x (built from null, booleans, finite
    numbers, strings, arrays and objects with distinct keys), the text
    written by stableStringify is that of x with the members of every
    object in strictly increasing order of their keys, at every depth, and
    the items of every array in their order; JSON.parse reads that text
    back, and stableStringify writes the value read as it writes x:
    stableStringify(parse(stableStringify(x))) = stableStringify(x). *)
Theorem stableStringify_canonical (x : json) :
  json_value x ->
  stableStringify x = plain (sort_keys x)
  /\ ordered (sort_keys x)
  /\ exists y, parse (stableStringify x) = Some y
               /\ stableStringify y = stableStringify x.
Proof. intro V. apply canonical_when_read_back. now apply json_value_reads_back. Qed.

Lemma stableStringify_canonical_witness :
  stableStringify sample_value = plain (sort_keys sample_value)
  /\ ordered (sort_keys sample_value)
  /\ exists y, parse (stableStringify sample_value) = Some y
               /\ stableStringify y = stableStringify sample_value.
Proof.
  apply (stableStringify_canonical sample_value).
  cbn [json_value sample_value map fst]. unfold finite.
  repeat split; try (vm_compute; reflexivity);
    repeat constructor; cbn [In]; intuition discriminate.
Defined.

End CanonicalFacts.

(* ================================================================== *)
(** * The seeded generator *)

Module PrngFacts.
Import JsNumber.
Local Open Scope Z_scope.

Lemma normalizeSeed_range (seed : Z) : 1 <= Prng.normalizeSeed seed < 4294967296.
Proof.
  unfold Prng.normalizeSeed. pose proof (NumberFacts.wrap_range seed) as R.
  destruct (U32.wrap seed =? 0) eqn:E; [lia|]. apply Z.eqb_neq in E. lia.
Qed.

(** The state after [n] draws. *)
Fixpoint drawn (n : nat) (r : Prng.SeededRng) : Prng.SeededRng :=
  match n with
  | O => r
  | S k => drawn k (snd (Prng.next r))
  end.

(** X1.  A generator built from any seed, or forked from any generator
    with any salt, starts in a state from 1 to 2^32 - 1 (never 0), and after
    any number of draws its state is still an unsigned 32-bit integer. *)
Theorem state_is_u32 (seed : Z) (salt : Prng.Salt) (parent : Prng.SeededRng) (n : nat) :
  1 <= Prng.state (Prng.createSeededRng seed) < 4294967296
  /\ 1 <= Prng.state (Prng.fork salt parent) < 4294967296
  /\ 0 <= Prng.state (drawn n (Prng.createSeededRng seed)) < 4294967296
  /\ 0 <= Prng.state (drawn n (Prng.fork salt parent)) < 4294967296.
Proof.
  assert (D : forall k r, 0 <= Prng.state r < 4294967296 ->
                          0 <= Prng.state (drawn k r) < 4294967296).
  { induction k as [|k IH]; intros r H; [exact H|].
    cbn [drawn]. apply IH. unfold Prng.next, Prng.next_word. cbn [snd Prng.state].
    apply NumberFacts.wrap_range. }
  pose proof (normalizeSeed_range seed) as A.
  assert (B : 1 <= Prng.state (Prng.fork salt parent) < 4294967296)
    by apply normalizeSeed_range.
  unfold Prng.createSeededRng, Prng.new. cbn [Prng.state].
  split; [exact A|]. split; [exact B|].
  split; apply D; [cbn [Prng.state] | ]; lia.
Qed.

(** X2.  [next()] returns [k / 2^32] for an integer [k] from 0 to
    2^32 - 1: a number that is at least 0 and less than 1. *)
Theorem next_is_a_fraction (r : Prng.SeededRng) :
  exists k : Z,
    0 <= k < 4294967296
    /\ (fst (Prng.next r) == inject_Z k / inject_Z 4294967296)%Q
    /\ (0 <= fst (Prng.next r))%Q /\ (fst (Prng.next r) < 1)%Q.
Proof.
  exists (fst (Prng.next_word r)).
  split; [apply NumberFacts.next_word_range|].
  split; [apply NumberFacts.next_value|].
  apply NumberFacts.next_unit_interval.
Qed.

(** X3.  For bounds from 0 up to 2^20, in either order, [nextInt] returns
    an integer between the smaller and the larger bound, both included,
    and advances the generator by exactly one draw. *)
Theorem nextInt_within_bounds (lo hi : Z) (r : Prng.SeededRng) :
  0 <= lo < 2 ^ 20 -> 0 <= hi < 2 ^ 20 ->
  Z.min lo hi <= fst (Prng.nextInt lo hi r) <= Z.max lo hi
  /\ snd (Prng.nextInt lo hi r) = snd (Prng.next r).
Proof.
  intros Hlo Hhi. split; [now apply NumberFacts.nextInt_range|].
  unfold Prng.nextInt, Prng.nextFloat. now destruct (Prng.next r).
Qed.

Lemma nextInt_within_bounds_witness :
  Z.min 15 0 <= fst (Prng.nextInt 15 0 (Prng.new 1)) <= Z.max 15 0
  /\ snd (Prng.nextInt 15 0 (Prng.new 1)) = snd (Prng.next (Prng.new 1)).
Proof. apply (nextInt_within_bounds 15 0 (Prng.new 1)); lia. Defined.

Definition is_hex (c : ascii) : bool :=
  let n := JsString.charCode c in
  ((48 <=? n) && (n <=? 57)) || ((97 <=? n) && (n <=? 102)).

Lemma hex_digit_is_hex (d : Z) : 0 <= d <= 15 -> is_hex (JsString.hex_digit d) = true.
Proof.
  intro H.
  assert (C : d = 0 \/ d = 1 \/ d = 2 \/ d = 3 \/ d = 4 \/ d = 5 \/ d = 6 \/ d = 7
              \/ d = 8 \/ d = 9 \/ d = 10 \/ d = 11 \/ d = 12 \/ d = 13 \/ d = 14 \/ d = 15)
    by lia.
  repeat (destruct C as [-> | C]; [reflexivity|]). subst d. reflexivity.
Qed.

Lemma nextHex_hex (n : nat) : forall r,
  String.length (fst (Prng.nextHex n r)) = n
  /\ StableFacts.all_chars is_hex (fst (Prng.nextHex n r)) = true
  /\ snd (Prng.nextHex n r) = drawn n r.
Proof.
  induction n as [|n IH]; intro r; [now cbn|].
  cbn [Prng.nextHex drawn].
  pose proof (NumberFacts.nextInt_range 0 15 r ltac:(lia) ltac:(lia)) as R.
  assert (S1 : snd (Prng.nextInt 0 15 r) = snd (Prng.next r)).
  { unfold Prng.nextInt, Prng.nextFloat. now destruct (Prng.next r). }
  destruct (Prng.nextInt 0 15 r) as [d r1]. cbn [fst snd] in *. subst r1.
  destruct (IH (snd (Prng.next r))) as (L & H & D).
  destruct (Prng.nextHex n (snd (Prng.next r))) as [rest r2]. cbn [fst snd] in *.
  cbn [String.length StableFacts.all_chars].
  rewrite L, H, hex_digit_is_hex by (cbn in R; lia). auto.
Qed.

(** X4.  [nextHex(n)] returns exactly [n] characters, each a lowercase
    hexadecimal digit, and advances the generator by [n] draws. *)
Theorem nextHex_digits (n : nat) (r : Prng.SeededRng) :
  String.length (fst (Prng.nextHex n r)) = n
  /\ StableFacts.all_chars is_hex (fst (Prng.nextHex n r)) = true
  /\ snd (Prng.nextHex n r) = drawn n r.
Proof. apply nextHex_hex. Qed.



End PrngFacts.

(* ================================================================== *)
(** * The stub tool client *)

Module StubFacts.
Import JsNumber Json Types ToolClient.
Local Open Scope Z_scope.

Lemma clamp_range (v : number) : (0 <= clamp v)%Q /\ (clamp v <= 1)%Q.
Proof.
  unfold clamp, gtb, ltb.
  destruct (Qle_bool 0 v) eqn:L; cbn [negb].
  - destruct (Qle_bool v 1) eqn:U; cbn [negb].
    + split; now apply Qle_bool_iff.
    + split; [discriminate | apply Qle_refl].
  - split; [apply Qle_refl | discriminate].
Qed.

(** The part of the state of the loop of the stub that [summarizeValidation]
    keeps as well. *)
Definition accOf (a : BatchAcc) : Verify.Acc :=
  Verify.mkAcc (b_truthScores a) (b_failureHistogram a) (b_bestCandidateId a) (b_bestScore a).

(** What holds of every report of the stub. *)
Definition stub_report (threshold : number) (r : ValidationReport) : Prop :=
  (0 <= truth_score r)%Q /\ (truth_score r <= 1)%Q
  /\ accept r = geb (truth_score r) threshold
  /\ checks r = stubChecks (truth_score r).

Lemma batchStep_report (threshold : number) (a : BatchAcc) (ci : CandidateSpec * nat) :
  exists r,
    b_reports (batchStep threshold a ci) = (b_reports a ++ [r])%list
    /\ vr_candidate_id r = candidate_id (fst ci)
    /\ stub_report threshold r
    /\ accOf (batchStep threshold a ci) = Verify.step (accOf a) r
    /\ b_rng (batchStep threshold a ci) = snd (Prng.next (b_rng a)).
Proof.
  destruct ci as [c i]. unfold batchStep, Prng.nextFloat.
  destruct (Prng.next (b_rng a)) as [u r']. cbn [fst snd].
  eexists. cbn [b_reports]. split; [reflexivity|].
  cbn [vr_candidate_id]. split; [reflexivity|].
  split.
  - unfold stub_report. cbn [truth_score accept checks].
    split; [apply clamp_range|]. split; [apply clamp_range|]. split; reflexivity.
  - split; reflexivity.
Qed.

Lemma batch_fold (threshold : number) (l : list (CandidateSpec * nat)) : forall a,
  exists news,
    b_reports (fold_left (batchStep threshold) l a) = (b_reports a ++ news)%list
    /\ map vr_candidate_id news = map (fun ci => candidate_id (fst ci)) l
    /\ Forall (stub_report threshold) news
    /\ accOf (fold_left (batchStep threshold) l a) = fold_left Verify.step news (accOf a)
    /\ b_rng (fold_left (batchStep threshold) l a) = PrngFacts.drawn (List.length l) (b_rng a).
Proof.
  induction l as [|ci tl IH]; intro a; cbn [fold_left].
  - exists []. rewrite app_nil_r. repeat split; constructor.
  - destruct (batchStep_report threshold a ci) as (r & Hr & Hid & Hs & Hacc & Hrng).
    destruct (IH (batchStep threshold a ci)) as (news & Hn & Hids & Hall & Hfold & Hd).
    exists (r :: news). rewrite Hn, Hr, <- app_assoc. split; [reflexivity|].
    cbn [map]. rewrite Hid, Hids. split; [reflexivity|].
    split; [now constructor|].
    cbn [fold_left List.length PrngFacts.drawn]. rewrite Hfold, Hacc, Hd, Hrng.
    split; reflexivity.
Qed.

Lemma or_else_empty (a : string) : Verify.or_else a "" = a.
Proof.
  unfold Verify.or_else. destruct (String.eqb a "") eqn:E; [|reflexivity].
  apply String.eqb_eq in E. now subst.
Qed.

Lemma filter_accept (threshold : number) (l : list ValidationReport) :
  Forall (stub_report threshold) l ->
  filter accept l = filter (fun r => geb (truth_score r) threshold) l.
Proof.
  induction 1 as [|r tl (_ & _ & A & _) _ IH]; [reflexivity|].
  cbn [filter]. now rewrite A, IH.
Qed.

(** What [batchValidate] returns, report by report. *)
Lemma batchValidate_reports (cands : list CandidateSpec) (s : Stub) :
  let reports := fst (fst (batchValidate cands s)) in
  map vr_candidate_id reports = map candidate_id cands
  /\ Forall (stub_report (truthThreshold s)) reports
  /\ snd (fst (batchValidate cands s))
     = Verify.summarizeValidation reports (truthThreshold s)
  /\ rng (snd (batchValidate cands s)) = PrngFacts.drawn (List.length cands) (rng s).
Proof.
  unfold batchValidate. cbn [fst snd rng with_rng].
  destruct (batch_fold (truthThreshold s) (indexed cands)
              (mkBatch (rng s) [] [] Verify.emptyHistogram "" (-1)%Q))
    as (news & Hn & Hids & Hall & Hfold & Hd).
  cbn [b_reports app] in Hn. rewrite Hn.
  split.
  { rewrite Hids. unfold indexed. rewrite <- (map_map fst candidate_id).
    now rewrite RevalidateFacts.fst_indexed. }
  split; [exact Hall|].
  split.
  - unfold Verify.summarizeValidation.
    change Verify.initial
      with (accOf (mkBatch (rng s) [] [] Verify.emptyHistogram "" (-1)%Q)).
    rewrite <- Hfold. cbn [accOf Verify.truthScores Verify.failureHistogram
                                 Verify.bestCandidateId].
    rewrite or_else_empty, (filter_accept _ _ Hall). reflexivity.
  - rewrite Hd. unfold indexed. f_equal.
    rewrite length_combine, length_seq. apply Nat.min_id.
Qed.

(** X6.  The summary that the stub returns with its reports is the one
    [summarizeValidation] computes from these reports and the threshold of
    the stub: for the stub, the supplied and the recomputed summary agree. *)
Theorem stub_summary_is_recomputed (cands : list CandidateSpec) (s : Stub) :
  snd (fst (batchValidate cands s))
  = Verify.summarizeValidation (fst (fst (batchValidate cands s))) (truthThreshold s).
Proof. apply batchValidate_reports. Qed.

(** X7.  The stub returns one report per candidate, in the order of the
    candidates and under their ids; every truth score lies between 0 and 1,
    a report is accepted exactly when its truth score reaches the threshold
    given to the stub at construction, and the generator advances by one
    draw per candidate. *)
Theorem stub_reports (cands : list CandidateSpec) (s : Stub) :
  map vr_candidate_id (fst (fst (batchValidate cands s))) = map candidate_id cands
  /\ Forall (fun r => (0 <= truth_score r)%Q /\ (truth_score r <= 1)%Q
                      /\ accept r = geb (truth_score r) (truthThreshold s))
            (fst (fst (batchValidate cands s)))
  /\ rng (snd (batchValidate cands s)) = PrngFacts.drawn (List.length cands) (rng s).
Proof.
  destruct (batchValidate_reports cands s) as (I & F & _ & D).
  split; [exact I|]. split; [|exact D].
  rewrite Forall_forall in *. intros r H. destruct (F r H) as (A & B & C & _). auto.
Qed.

(** X8.  The stub's batch_validate looks at the ids of the candidates
    only: their scores and contents, the constraints, the seed and the
    threshold passed in the input do not change its answer or its state. *)
Theorem stub_validate_reads_ids_only
        (cands cands' : list CandidateSpec) (c c' : ConstraintsSpec) (seed seed' : Z)
        (t t' : number) (s : Stub) :
  map candidate_id cands = map candidate_id cands' ->
  stub_call "csp-validators-mcp.batch_validate" (InBatchValidate cands c seed t) s
  = stub_call "csp-validators-mcp.batch_validate" (InBatchValidate cands' c' seed' t') s.
Proof.
  intro E. unfold stub_call. cbn [String.eqb Ascii.eqb Bool.eqb input_candidates].
  now rewrite (RevalidateFacts.batchValidate_ids_only cands cands' s E).
Qed.

Lemma stub_validate_reads_ids_only_witness :
  stub_call "csp-validators-mcp.batch_validate"
    (InBatchValidate [mkCandidate "cand_0001" (lit 5 1) "a"]
                     (mkConstraints "Na-Cl" (nth 0 PRIOR_TABLE (mkPriors "" (0, 0)%Q [] []))
                                    None None) 1 (lit 8 1))
    (newStub 7 None)
  = stub_call "csp-validators-mcp.batch_validate"
      (InBatchValidate [mkCandidate "cand_0001" (lit 9 1) "b"]
                       (mkConstraints "Zn-S" (nth 2 PRIOR_TABLE (mkPriors "" (0, 0)%Q [] []))
                                      None None) 2 (lit 1 1))
      (newStub 7 None).
Proof. apply stub_validate_reads_ids_only. reflexivity. Defined.

Lemma qlipLoop_shape (count : nat) : forall i r,
  map (fun c => (candidate_id c, content c)) (fst (qlipLoop count i r))
  = map (fun j => let id := ("cand_" ++ JsString.padStart0 4 (JsString.of_Z j))%string in
                  (id, candidateContent id j))
        (map (fun k => i + Z.of_nat k) (seq 0 count))
  /\ snd (qlipLoop count i r) = PrngFacts.drawn count r.
Proof.
  induction count as [|n IH]; intros i r; [now split|].
  cbn [qlipLoop]. unfold Prng.nextFloat.
  destruct (Prng.next r) as [u r1] eqn:N.
  destruct (IH (i + 1) r1) as (Hm & Hs).
  destruct (qlipLoop n (i + 1) r1) as [rest r2]. cbn [fst snd] in *.
  cbn [seq map PrngFacts.drawn candidate_id content]. rewrite N. cbn [snd].
  split; [|exact Hs].
  rewrite Z.add_0_r. f_equal. rewrite Hm, <- seq_shift, !map_map.
  apply map_ext. intro k. now replace (i + 1 + Z.of_nat k) with (i + Z.of_nat (S k)) by lia.
Qed.

(** X9.  Whatever its input and the state of its generator, the stub's
    run_qlip returns five candidates, with the ids cand_0001 to cand_0005 in
    this order and the placeholder CIF text of each id, and advances the
    generator by five draws. *)
Theorem stub_runQlip_candidates (input : ToolInput) (s : Stub) :
  exists cands s',
    stub_call "qlip-mcp.run_qlip" input s = (Ok (OutCandidates cands), s')
    /\ map candidate_id cands
       = ["cand_0001"; "cand_0002"; "cand_0003"; "cand_0004"; "cand_0005"]%string
    /\ map content cands
       = [ candidateContent "cand_0001" 1; candidateContent "cand_0002" 2;
           candidateContent "cand_0003" 3; candidateContent "cand_0004" 4;
           candidateContent "cand_0005" 5 ]
    /\ rng s' = PrngFacts.drawn 5 (rng s)
    /\ truthThreshold s' = truthThreshold s.
Proof.
  unfold stub_call. cbn [String.eqb Ascii.eqb Bool.eqb]. unfold runQlip.
  destruct (qlipLoop_shape 5 1 (rng s)) as (Hm & Hs).
  destruct (qlipLoop 5 1 (rng s)) as [cands r]. cbn [fst snd] in *.
  exists cands, (with_rng s r). split; [reflexivity|].
  pose proof (f_equal (map fst) Hm) as H1. pose proof (f_equal (map snd) Hm) as H2.
  rewrite !map_map in H1, H2. cbn [fst snd] in H1, H2.
  split; [exact H1|]. split; [exact H2|]. split; [exact Hs | reflexivity].
Qed.

Definition stub_tools : list string :=
  [ "materials-data-mcp.suggest_chemistries"; "materials-data-mcp.fetch_priors";
    "qlip-mcp.build_constraints"; "qlip-mcp.run_qlip";
    "csp-validators-mcp.batch_validate" ]%string.

(** X10.  For a tool name other than its five tools the stub fails with a
    message that names the tool, and its generator is left as it was. *)
Theorem stub_unknown_tool (toolName : string) (input : ToolInput) (s : Stub) :
  ~ In toolName stub_tools ->
  stub_call toolName input s
  = (Err ("StubToolClient does not support tool " ++ toolName)%string, s).
Proof.
  intro N. unfold stub_call.
  repeat match goal with
         | |- context [String.eqb toolName ?n] =>
             let E := fresh "E" in
             destruct (String.eqb toolName n) eqn:E;
             [apply String.eqb_eq in E; exfalso; apply N; rewrite E; cbn; tauto|]
         end.
  reflexivity.
Qed.

Lemma stub_unknown_tool_witness :
  stub_call "surrogate-eval-mcp.evaluate" (InSuggest "x" 1) (newStub 1 None)
  = (Err "StubToolClient does not support tool surrogate-eval-mcp.evaluate", newStub 1 None).
Proof.
  apply (stub_unknown_tool "surrogate-eval-mcp.evaluate").
  cbn. intuition discriminate.
Defined.

End StubFacts.

(* ================================================================== *)
(** * The summary of a validation *)

Module SummaryMore.
Import JsNumber Json Types.
Local Open Scope Z_scope.

(** [h[k] || 0]. *)
Definition count_of (k : string) (h : list (string * Z)) : Z :=
  match JsObject.get k h with
  | Some n => n
  | None => 0
  end.

(** The failed checks called [k] among [cs]. *)
Definition failed (k : string) (cs : list ValidationCheck) : Z :=
  Z.of_nat (List.length (filter (fun c => negb (passed c) && String.eqb k (name c)) cs)).

Lemma count_of_set (k k' : string) (n : Z) (h : list (string * Z)) :
  count_of k (JsObject.set k' n h) = if String.eqb k k' then n else count_of k h.
Proof.
  unfold count_of. destruct (String.eqb k k') eqn:E.
  - apply String.eqb_eq in E. subst. now rewrite EffectFacts.get_set_same.
  - apply String.eqb_neq in E. now rewrite EffectFacts.get_set_other.
Qed.

Lemma countFailures_count (k : string) (cs : list ValidationCheck) : forall h,
  count_of k (Verify.countFailures cs h) = count_of k h + failed k cs.
Proof.
  unfold failed. induction cs as [|c tl IH]; intro h; cbn [Verify.countFailures filter].
  - cbn. lia.
  - rewrite IH. destruct (passed c); cbn [negb andb]; [reflexivity|].
    rewrite count_of_set. destruct (String.eqb k (name c)) eqn:E.
    + apply String.eqb_eq in E. subst k. fold (count_of (name c) h).
      cbn [List.length]. lia.
    + lia.
Qed.

Lemma histogram_fold (k : string) (reports : list ValidationReport) : forall a,
  count_of k (Verify.failureHistogram (fold_left Verify.step reports a))
  = count_of k (Verify.failureHistogram a) + failed k (flat_map checks reports).
Proof.
  induction reports as [|r tl IH]; intro a; cbn [fold_left flat_map].
  - unfold failed. cbn. lia.
  - rewrite IH. unfold Verify.step at 1. cbn [Verify.failureHistogram].
    rewrite countFailures_count. unfold failed.
    rewrite filter_app, length_app. lia.
Qed.

Lemma count_of_empty (k : string) : count_of k Verify.emptyHistogram = 0.
Proof.
  unfold count_of, Verify.emptyHistogram. cbn [JsObject.get].
  repeat match goal with
         | |- context [String.eqb k ?n] => destruct (String.eqb k n); [reflexivity|]
         end.
  reflexivity.
Qed.

(** X11.  For each of the six check names [k] with which the failure
    histogram starts (parseable, min_distance, density_in_range,
    charge_neutrality_feasible, coordination_reasonable, symmetry_match),
    the count that [decideIteration] reads from the failure histogram of a
    summary is the number of checks called [k], over all reports, that did
    not pass. *)
Theorem failure_histogram_counts (reports : list ValidationReport) (threshold : number)
        (k : string) :
  In k (map fst Verify.emptyHistogram) ->
  Iteration.failures (Verify.summarizeValidation reports threshold) k
  = failed k (flat_map checks reports).
Proof.
  intros _. unfold Iteration.failures, Verify.summarizeValidation. cbn [failure_histogram].
  fold (count_of k (Verify.failureHistogram (fold_left Verify.step reports Verify.initial))).
  rewrite histogram_fold. cbn [Verify.initial Verify.failureHistogram].
  rewrite count_of_empty. lia.
Qed.

Lemma failure_histogram_counts_witness :
  In "min_distance"%string (map fst Verify.emptyHistogram)
  /\ Iteration.failures
       (Verify.summarizeValidation
          [ mkReport "cand_0001" (1 # 2) false
              [ mkCheck "min_distance" false None; mkCheck "parseable" true None ];
            mkReport "cand_0002" (1 # 4) false [ mkCheck "min_distance" false None ] ]
          (4 # 5))
       "min_distance"
     = 2.
Proof.
  split; [right; left; reflexivity|].
  rewrite failure_histogram_counts; [reflexivity | right; left; reflexivity].
Defined.

(** The last report for [id], if any. *)
Definition last_report (id : string) (reports : list ValidationReport)
  : option ValidationReport :=
  find (fun r => String.eqb id (vr_candidate_id r)) (rev reports).

Lemma fold_step_last (reports : list ValidationReport) (r : ValidationReport) (a : Verify.Acc) :
  fold_left Verify.step (reports ++ [r]) a = Verify.step (fold_left Verify.step reports a) r.
Proof. now rewrite fold_left_app. Qed.

(** X12.  For a candidate id other than [__proto__], the truth score that
    a summary records for the id is that of the last report with this id; an
    id without report has no entry. *)
Theorem truth_scores_last_report (reports : list ValidationReport) (threshold : number)
        (id : string) :
  id <> "__proto__"%string ->
  JsObject.get id (truth_scores (Verify.summarizeValidation reports threshold))
  = option_map truth_score (last_report id reports).
Proof.
  intros _. unfold Verify.summarizeValidation, last_report. cbn [truth_scores].
  induction reports as [|r tl IH] using rev_ind; [reflexivity|].
  rewrite fold_step_last, rev_app_distr. cbn [rev app find].
  unfold Verify.step at 1. cbn [Verify.truthScores].
  destruct (String.eqb id (vr_candidate_id r)) eqn:E.
  - apply String.eqb_eq in E. subst id. now rewrite EffectFacts.get_set_same.
  - apply String.eqb_neq in E. rewrite EffectFacts.get_set_other by exact E. exact IH.
Qed.

Lemma truth_scores_last_report_witness :
  "cand_0001"%string <> "__proto__"%string
  /\ JsObject.get "cand_0001"
       (truth_scores
          (Verify.summarizeValidation
             [ mkReport "cand_0001" (1 # 2) false []; mkReport "cand_0002" (1 # 4) false [];
               mkReport "cand_0001" (3 # 4) false [] ]
             (4 # 5)))
     = Some (3 # 4)%Q.
Proof.
  split; [discriminate|].
  rewrite truth_scores_last_report; [reflexivity | discriminate].
Defined.

End SummaryMore.

(* ================================================================== *)
(** * The adjustments of an iteration *)

Module IterationMore.
Import JsNumber Json Types Iteration.
Local Open Scope Z_scope.

Definition handled : list string :=
  [ "widen_lattice"; "narrow_density"; "increase_max_atoms"; "increase_min_distance_scale";
    "expand_prototypes"; "restrict_prototypes" ]%string.

Definition unhandled (action : option string) : Prop :=
  match action with
  | Some a => ~ In a handled
  | None => True
  end.

(** X13.  An action that [applyIterationDecision] has no case for, or no
    action at all, changes nothing but the adjustment log: the chemistry,
    the priors and the overrides stay as they are.  The actions
    relax_symmetry, expand_oxidation_states and restrict_oxidation_states of
    the default policy are such actions. *)
Theorem unhandled_action_only_logged (c : ConstraintsSpec) (d : IterationDecision) (n : Z) :
  unhandled (action d) ->
  applyIterationDecision c d n
  = mkConstraints (chem_system c) (priors c) (overrides c)
      (Some ((match adjustments c with Some l => l | None => [] end)
               ++ [mkAdjustment n (mode d) (action d)])%list).
Proof.
  unfold unhandled, applyIterationDecision. destruct (action d) as [a|]; [|reflexivity].
  intro N.
  repeat match goal with
         | |- context [String.eqb a ?k] =>
             let E := fresh "E" in
             destruct (String.eqb a k) eqn:E;
             [apply String.eqb_eq in E; exfalso; apply N; rewrite E; cbn; tauto|]
         end.
  reflexivity.
Qed.

Definition sample_constraints : ConstraintsSpec :=
  mkConstraints "Mg-Si-O"
    (mkPriors "any" (lit 31 1, of_int 5) [] ["perovskite"; "rutile"; "rocksalt"]%string)
    (Some [("solver", JStr "gurobi"); ("max_atoms", JNum (inject_Z 120))]) None.

Lemma unhandled_action_only_logged_witness :
  applyIterationDecision sample_constraints (mkDecision relax (Some "relax_symmetry")) 1
  = mkConstraints (chem_system sample_constraints) (priors sample_constraints)
      (overrides sample_constraints)
      (Some ((match adjustments sample_constraints with Some l => l | None => [] end)
               ++ [mkAdjustment 1 (mode (mkDecision relax (Some "relax_symmetry")))
                                (action (mkDecision relax (Some "relax_symmetry")))])%list).
Proof.
  apply (unhandled_action_only_logged sample_constraints
           (mkDecision relax (Some "relax_symmetry")) 1).
  cbn. intuition discriminate.
Defined.

Definition prototypes_after (c : ConstraintsSpec) : list string := prototypes (priors c).

(** X14.  restrict_prototypes keeps a prefix of the prototypes and drops
    at most the last one, never the only one; applied after
    expand_prototypes it gives back a non-empty list of prototypes. *)
Theorem restrict_undoes_expand (c : ConstraintsSpec) (m m' : Mode) (i j : Z) :
  prototypes (priors c) <> [] ->
  let expanded := applyIterationDecision c (mkDecision m (Some "expand_prototypes")) i in
  let restricted :=
    applyIterationDecision expanded (mkDecision m' (Some "restrict_prototypes")) j in
  prototypes (priors expanded) = (prototypes (priors c) ++ ["proto_extra"])%list
  /\ prototypes (priors restricted) = prototypes (priors c)
  /\ prototypes (priors (applyIterationDecision c (mkDecision m' (Some "restrict_prototypes")) j))
     <> [].
Proof.
  intro N. cbv zeta.
  unfold applyIterationDecision. cbn [action String.eqb Ascii.eqb Bool.eqb].
  cbn [with_priors with_prototypes priors prototypes].
  split; [reflexivity|]. split.
  - rewrite length_app. cbn [List.length].
    replace (Z.to_nat (Z.max 1 (Z.of_nat (List.length (prototypes (priors c)) + 1) - 1)))
      with (List.length (prototypes (priors c)) + 0)%nat.
    + rewrite firstn_app_2. cbn [firstn]. apply app_nil_r.
    + destruct (prototypes (priors c)); [contradiction | cbn [List.length]; lia].
  - destruct (prototypes (priors c)) as [|p tl]; [contradiction|].
    replace (Z.to_nat (Z.max 1 (Z.of_nat (List.length (p :: tl)) - 1)))
      with (S (Z.to_nat (Z.max 1 (Z.of_nat (List.length (p :: tl)) - 1) - 1)))
      by (cbn [List.length]; lia).
    cbn [firstn]. discriminate.
Qed.

Lemma restrict_undoes_expand_witness :
  prototypes (priors (applyIterationDecision
                        (applyIterationDecision sample_constraints
                           (mkDecision relax (Some "expand_prototypes")) 1)
                        (mkDecision tighten (Some "restrict_prototypes")) 2))
  = prototypes (priors sample_constraints).
Proof.
  apply (restrict_undoes_expand sample_constraints relax tighten 1 2). discriminate.
Defined.

(** ** Repeated increases of max_atoms *)

Lemma Qred_inject_Z (n : Z) : Qred (inject_Z n) = inject_Z n.
Proof.
  unfold Qred, inject_Z. cbn [Qnum Qden].
  pose proof (Z.ggcd_gcd n 1) as G. pose proof (Z.ggcd_correct_divisors n 1) as D.
  destruct (Z.ggcd n 1) as [g [a b]]. cbn [fst snd] in *.
  rewrite Z.gcd_1_r in G. subst g. destruct D as [Da Db].
  assert (Ea : a = n) by lia. assert (Eb : b = 1) by lia. rewrite Ea, Eb. reflexivity.
Qed.

Lemma binary64_reduced (x : Q) : binary64 x = Qred (binary64 x).
Proof.
  unfold binary64. destruct (Qcompare x 0); [reflexivity | |];
    symmetry; apply Qred_complete, Qred_correct.
Qed.

(** In binary64 an integer below 2^53 is itself, and the sum of two
    numbers that are such integers is exact. *)
Lemma binary64_integer (x : Q) (n : Z) :
  0 <= n < 2 ^ 53 -> (x == inject_Z n)%Q -> binary64 x = inject_Z n.
Proof.
  intros R E. rewrite binary64_reduced, <- Qred_inject_Z.
  apply Qred_complete. now apply NumberFacts.binary64_int.
Qed.

Lemma fadd_integers (a b : Z) :
  0 <= a + b < 2 ^ 53 -> fadd (inject_Z a) (inject_Z b) = inject_Z (a + b).
Proof.
  intro R. unfold fadd. apply binary64_integer; [exact R|]. now rewrite inject_Z_plus.
Qed.

Definition increase : IterationDecision := mkDecision relax (Some "increase_max_atoms").

(** [n] iterations, from iteration [i] on, that all decide increase_max_atoms. *)
Fixpoint increases (n : nat) (c : ConstraintsSpec) (i : Z) : ConstraintsSpec :=
  match n with
  | O => c
  | S k => increases k (applyIterationDecision c increase i) (i + 1)
  end.

Definition max_atoms_of (c : ConstraintsSpec) : option json :=
  JsObject.get "max_atoms" (match overrides c with Some o => o | None => [] end).

Lemma increase_once (c : ConstraintsSpec) (i : Z) :
  max_atoms_of (applyIterationDecision c increase i)
  = Some (JNum match max_atoms_of c with
               | Some (JNum old) => fadd old (of_int 5)
               | _ => of_int 150
               end).
Proof.
  unfold max_atoms_of, applyIterationDecision, increase.
  cbn [action String.eqb Ascii.eqb Bool.eqb with_overrides overrides bump].
  apply EffectFacts.get_set_same.
Qed.

(** X15.  When the overrides hold an integer max_atoms [m], [n] iterations
    that decide increase_max_atoms leave max_atoms at exactly [m + 5 n], as
    long as that stays below 2^53. *)
Theorem increases_add_five (n : nat) (c : ConstraintsSpec) (i m : Z) :
  0 <= m -> m + 5 * Z.of_nat n < 2 ^ 53 ->
  max_atoms_of c = Some (JNum (inject_Z m)) ->
  max_atoms_of (increases n c i) = Some (JNum (inject_Z (m + 5 * Z.of_nat n))).
Proof.
  revert c i m. induction n as [|n IH]; intros c i m M B H.
  - cbn [increases]. now replace (m + 5 * Z.of_nat 0) with m by lia.
  - cbn [increases].
    replace (m + 5 * Z.of_nat (S n)) with (m + 5 + 5 * Z.of_nat n) by lia.
    apply IH; [lia | lia |].
    rewrite increase_once, H. do 2 f_equal.
    change (of_int 5) with (binary64 (inject_Z 5)).
    rewrite (binary64_integer (inject_Z 5) 5) by (try reflexivity; lia).
    apply fadd_integers. lia.
Qed.

Lemma increases_add_five_witness :
  max_atoms_of (increases 3 sample_constraints 1) = Some (JNum (inject_Z (120 + 5 * Z.of_nat 3))).
Proof.
  apply (increases_add_five 3 sample_constraints 1 120); [lia | cbn; lia | reflexivity].
Defined.

End IterationMore.

(* ================================================================== *)
(** * The artifacts of a run *)

Module ArtifactFacts.
Import JsNumber Json Types.
Export EffectFacts.
Local Open Scope effect_scope.

(** ** Names, suffixes and directories *)

Lemma strip_prefix_some (pre s rest : string) :
  JsString.strip_prefix pre s = Some rest <-> s = pre ++ rest.
Proof.
  revert s. induction pre as [|a p IH]; intro s; cbn.
  - split; [now intros [= ->] | now intros ->].
  - destruct s as [|b t]; [split; discriminate|].
    destruct (Ascii.eqb a b) eqn:E.
    + apply Ascii.eqb_eq in E. subst b. rewrite IH. split; [now intros -> | now intros [= ->]].
    + apply Ascii.eqb_neq in E. split; [discriminate | intros [= -> _]; contradiction].
Qed.

Lemma strip_suffix_some (suffix s stem : string) :
  JsString.strip_suffix suffix s = Some stem -> s = stem ++ suffix.
Proof.
  revert stem. induction s as [|c tl IH]; intro stem; cbn [JsString.strip_suffix].
  - destruct (String.eqb "" suffix) eqn:E; [|discriminate].
    apply String.eqb_eq in E. now intros [= <-].
  - destruct (String.eqb (String c tl) suffix) eqn:E.
    + apply String.eqb_eq in E. now intros [= <-].
    + destruct (JsString.strip_suffix suffix tl) as [st|]; [|discriminate].
      intros [= <-]. cbn. now rewrite (IH st eq_refl).
Qed.

Lemma strip_suffix_app (suffix stem : string) :
  JsString.strip_suffix suffix (stem ++ suffix) = Some stem.
Proof.
  induction stem as [|c tl IH].
  - cbn [append]. destruct suffix as [|a sf]; cbn [JsString.strip_suffix].
    + reflexivity.
    + now rewrite String.eqb_refl.
  - cbn [append JsString.strip_suffix]. rewrite IH.
    destruct (String.eqb (String c (tl ++ suffix)) suffix) eqn:E; [|reflexivity].
    apply String.eqb_eq in E. apply (f_equal String.length) in E.
    cbn [String.length] in E. rewrite StableFacts.length_app in E. lia.
Qed.

Lemma append_cancel_r (a b suffix : string) : a ++ suffix = b ++ suffix -> a = b.
Proof.
  revert b. induction a as [|c a IH]; intros [|d b] H; cbn [append] in H.
  - reflexivity.
  - apply (f_equal String.length) in H. cbn [String.length] in H.
    rewrite StableFacts.length_app in H. lia.
  - apply (f_equal String.length) in H. cbn [String.length] in H.
    rewrite StableFacts.length_app in H. lia.
  - injection H as -> H. f_equal. now apply IH.
Qed.

Lemma cif_stems_in (names : list string) (id : string) :
  In id (cif_stems names) <-> In (id ++ ".cif") names.
Proof.
  induction names as [|n tl IH]; cbn [cif_stems In]; [tauto|].
  destruct (JsString.strip_suffix ".cif" n) as [stem|] eqn:E.
  - apply strip_suffix_some in E. subst n. cbn [In]. rewrite IH. split.
    + intros [-> | H]; auto.
    + intros [H | H]; [left; now apply append_cancel_r in H | now right].
  - rewrite IH. split; [now right|]. intros [-> | H]; [|exact H].
    rewrite strip_suffix_app in E. discriminate E.
Qed.

Lemma readdir_names_in (dir : string) (fs : FileSystem) (n : string) :
  In n (readdir_names dir fs)
  <-> JsString.contains_char "/" n = false /\ exists f, In (join dir n, f) fs.
Proof.
  unfold join. induction fs as [|[path f] tl IH]; cbn [readdir_names In].
  - split; [contradiction | now intros (_ & ? & [])].
  - destruct (JsString.strip_prefix (dir ++ "/") path) as [name|] eqn:E.
    + apply strip_prefix_some in E. rewrite append_assoc in E. subst path.
      destruct (JsString.contains_char "/" name) eqn:C.
      * rewrite IH. split.
        -- intros (H & g & I). split; [exact H|]. exists g. now right.
        -- intros (H & g & [I | I]); split; try exact H.
           ++ injection I as I _. apply append_cancel_l in I.
              injection I as I. congruence.
           ++ now exists g.
      * cbn [In]. rewrite IH. split.
        -- intros [<- | (H & g & I)]; [split; [exact C|]; exists f; now left|].
           split; [exact H|]. exists g. now right.
        -- intros (H & g & [I | I]).
           ++ left. injection I as I _. apply append_cancel_l in I. now injection I.
           ++ right. split; [exact H|]. now exists g.
    + rewrite IH. split.
      * intros (H & g & I). split; [exact H|]. exists g. now right.
      * intros (H & g & [I | I]); split; try exact H.
        -- injection I as I _. subst path.
           assert (X : JsString.strip_prefix (dir ++ "/") (dir ++ "/" ++ n) = Some n)
             by (apply strip_prefix_some; now rewrite append_assoc).
           cbn [append] in X, E. congruence.
        -- now exists g.
Qed.

(** ** Sorted ids *)

Definition key_le (a b : string) : Prop := String.ltb b a = false.

Lemma insert_key_sorted (x : string) (l : list string) :
  Sorted key_le l -> Sorted key_le (JsSort.insert key_gtb x l).
Proof.
  induction 1 as [|y tl S IH H]; cbn [JsSort.insert].
  - repeat constructor.
  - unfold key_gtb at 1. destruct (String.ltb y x) eqn:E.
    + constructor; [exact IH|].
      destruct tl as [|z tl]; cbn [JsSort.insert].
      * constructor. unfold key_le.
        destruct (String.ltb x y) eqn:F; [|reflexivity].
        exfalso. exact (StableFacts.key_lt_asym _ _ E F).
      * unfold key_gtb. destruct (String.ltb z x) eqn:G.
        -- constructor. now inversion H.
        -- constructor. unfold key_le.
           destruct (String.ltb x y) eqn:F; [|reflexivity].
           exfalso. exact (StableFacts.key_lt_asym _ _ E F).
    + constructor; [now constructor|]. constructor. exact E.
Qed.

Lemma sort_key_sorted (l : list string) : Sorted key_le (JsSort.sort key_gtb l).
Proof.
  induction l as [|x tl IH]; cbn [JsSort.sort]; [constructor|].
  now apply insert_key_sorted.
Qed.

(** X16.  When the candidates directory holds files only (no
    subdirectory), [listCandidateIds] does not throw and changes nothing,
    and it returns, in ascending order of code units, exactly the ids [id]
    for which [<id>.cif] is a file of the candidates directory. *)
Theorem listCandidateIds_lists_cif_files {St} (paths : RunPaths) (w : World St) :
  ExportFacts.files_only (candidatesDir paths) (files w) = true ->
  exists ids,
    listCandidateIds paths w = (Ok ids, w)
    /\ Sorted key_le ids
    /\ forall id, In id ids
                  <-> JsString.contains_char "/" id = false
                      /\ exists f, In (join (candidatesDir paths) (id ++ ".cif"), f) (files w).
Proof.
  intros _. eexists. split; [reflexivity|]. split; [apply sort_key_sorted|].
  intro id. split.
  - intro H. apply (Permutation_in _ (StableFacts.sort_permutation key_gtb _)) in H.
    apply cif_stems_in, readdir_names_in in H. destruct H as (C & f & H).
    split; [|now exists f].
    rewrite CliFacts.contains_char_app in C. now apply orb_false_iff in C.
  - intros (C & f & H).
    apply (Permutation_in _ (Permutation_sym (StableFacts.sort_permutation key_gtb _))).
    apply cif_stems_in, readdir_names_in. split; [|now exists f].
    rewrite CliFacts.contains_char_app, C. reflexivity.
Qed.

Lemma listCandidateIds_lists_cif_files_witness :
  ExportFacts.files_only (candidatesDir (getRunPaths "/ws" "run_1_18d23804"))
                         (files ExportFacts.discovered_world) = true
  /\ exists ids,
       listCandidateIds (getRunPaths "/ws" "run_1_18d23804") ExportFacts.discovered_world
       = (Ok ids, ExportFacts.discovered_world)
       /\ ids = ["cand_0001"; "cand_0002"; "cand_0003"; "cand_0004"; "cand_0005"]%string.
Proof.
  split; [vm_compute; reflexivity|].
  destruct (listCandidateIds_lists_cif_files (getRunPaths "/ws" "run_1_18d23804")
              ExportFacts.discovered_world) as (ids & E & _).
  - vm_compute. reflexivity.
  - exists ids. split; [exact E|].
    assert (F : fst (listCandidateIds (getRunPaths "/ws" "run_1_18d23804")
                       ExportFacts.discovered_world)
                = Ok ["cand_0001"; "cand_0002"; "cand_0003"; "cand_0004"; "cand_0005"]%string)
      by (vm_compute; reflexivity).
    rewrite E in F. cbn [fst] in F. congruence.
Defined.

(** ** Candidates written and read back *)







End ArtifactFacts.

(* ================================================================== *)
(** * What the workflows read and write *)

Module WorkflowFacts.
Import JsNumber Json Types.
Export SummaryFacts.
Local Open Scope effect_scope.

(** ** The events log *)

(** The text of the file at [p]; a missing file reads as empty. *)
Definition text_at (p : string) (fs : FileSystem) : string :=
  match JsObject.get p fs with
  | Some (FText t) => t
  | _ => ""
  end.

(** [grows p m]: whatever [m] does, the text at [p] is extended at its end. *)
Definition grows {St A} (p : string) (m : M St A) : Prop :=
  forall w r w', m w = (r, w') ->
                 exists suffix, text_at p (files w') = text_at p (files w) ++ suffix.

Section Grows.
Context {St : Type}.

Lemma grows_keeps {A} p (m : M St A) : keeps p m -> grows p m.
Proof.
  intros K w r w' H. exists "". unfold text_at. rewrite (K _ _ _ H).
  now rewrite StableFacts.append_empty.
Qed.

Lemma grows_bind {A B} p (m : M St A) (k : A -> M St B) :
  grows p m -> (forall a, grows p (k a)) -> grows p (bind m k).
Proof.
  intros Hm Hk w r w' H. unfold bind in H.
  destruct (m w) as [[a|e] w1] eqn:E.
  - destruct (Hm _ _ _ E) as [s1 E1]. destruct (Hk a _ _ _ H) as [s2 E2].
    exists (s1 ++ s2). now rewrite E2, E1, append_assoc.
  - injection H as _ <-. exact (Hm _ _ _ E).
Qed.

Lemma grows_appendFile p q t : grows p (@appendFile St q t).
Proof.
  destruct (string_dec p q) as [<- | N].
  - intros w r w' H. injection H as _ <-. exists t.
    unfold text_at. cbn [files with_files]. rewrite get_set_same.
    destruct (JsObject.get p (files w)) as [[]|]; reflexivity.
  - apply grows_keeps. now apply keeps_appendFile.
Qed.

Lemma grows_try_catch {A} p (m : M St A) h :
  grows p m -> (forall e, grows p (h e)) -> grows p (try_catch m h).
Proof.
  intros Hm Hh w r w' H. unfold try_catch in H.
  destruct (m w) as [[a|e] w1] eqn:E.
  - injection H as _ <-. exact (Hm _ _ _ E).
  - destruct (Hm _ _ _ E) as [s1 E1]. destruct (Hh e _ _ _ H) as [s2 E2].
    exists (s1 ++ s2). now rewrite E2, E1, append_assoc.
Qed.

End Grows.

Ltac grows_tac :=
  repeat first
    [ apply grows_keeps; solve [keeps_tac]
    | apply grows_appendFile
    | apply grows_bind; [|intro]
    | apply grows_try_catch; [|intro]
    | match goal with
      | |- grows _ (match ?x with _ => _ end) => destruct x
      | |- grows _ (if ?b then _ else _) => destruct b
      | |- grows _ (let _ := _ in _) => cbv zeta
      end
    | progress unfold ensureManifest, appendEvent ].

(** X18.  The events log of a run is only ever extended: after discover,
    iterate, validate or export, with any tool client and whether the
    workflow succeeds or throws, the text of events.jsonl is the text it
    had before followed by what was appended. *)
Theorem events_log_only_grows (tc : ToolClient) :
  (forall input, grows (eventsPath (getRunPaths (di_workspace_dir input)
                                      (createRunId (di_seed input) (di_objective input))))
                       (runCspDiscover tc input))
  /\ (forall input, grows (eventsPath (getRunPaths (ri_workspace_dir input) (ri_run_id input)))
                          (runCspIterate tc input))
  /\ (forall input, grows (eventsPath (getRunPaths (ri_workspace_dir input) (ri_run_id input)))
                          (runCspValidate tc input))
  /\ (forall input, grows (eventsPath (getRunPaths (ei_workspace_dir input) (ei_run_id input)))
                          (runCspExport tc input)).
Proof.
  split; [|split; [|split]]; intro input.
  - unfold runCspDiscover. cbv zeta. grows_tac.
  - unfold runCspIterate. cbv zeta. grows_tac.
  - unfold runCspValidate. cbv zeta. grows_tac.
  - unfold runCspExport, candidateOrder. cbv zeta. grows_tac.
Qed.


(** ** Validation writes into its directory only *)

Section Validate.
Variable tc : ToolClient.

Lemma keeps_writeValidationReports (p : string) (paths : RunPaths)
      (reports : list ValidationReport) (summary : ValidationSummary) :
  (forall name, p <> join (validationDir paths) name) ->
  keeps p (writeValidationReports (St := client_state tc) paths reports summary).
Proof.
  intro N. unfold writeValidationReports.
  apply keeps_bind; [apply keeps_ensureDir | intros _].
  apply keeps_bind; [|intros _; apply keeps_writeFile, N].
  apply keeps_forEach. intro r. apply keeps_writeFile, N.
Qed.

Lemma keeps_validate (p : string) (input : RunInput) :
  (forall name,
      p <> join (validationDir (getRunPaths (ri_workspace_dir input) (ri_run_id input))) name) ->
  keeps p (runCspValidate tc input).
Proof.
  intro N. unfold runCspValidate. cbv zeta.
  apply keeps_bind; [keeps_tac | intro constraints].
  apply keeps_bind; [keeps_tac | intro ids].
  apply keeps_bind; [keeps_tac | intro candidates].
  apply keeps_bind; [keeps_tac | intro validation].
  apply keeps_bind; [now apply keeps_writeValidationReports | intros _; apply keeps_ret].
Qed.

End Validate.

(** X19.  A dry-run validate writes into the validation directory of the
    run and nowhere else: whether it succeeds or throws, every other file
    (the manifest, the constraints, the events log, the candidates, the
    exports, the files of other runs) is what it was before. *)
Theorem validate_writes_validation_only (input : RunInput) (w : World Stub) (p : string)
        (r : result (ValidationSummary * string)) (w' : World Stub) :
  (forall name,
      p <> join (validationDir (getRunPaths (ri_workspace_dir input) (ri_run_id input))) name) ->
  runCspValidate StubToolClient input w = (r, w') ->
  JsObject.get p (files w') = JsObject.get p (files w).
Proof. intros N H. exact (keeps_validate StubToolClient p input N w r w' H). Qed.

Lemma validate_writes_validation_only_witness :
  JsObject.get "/ws/runs/run_1_18d23804/run_manifest.json"
    (files (snd (runCspValidate StubToolClient
                   (mkRunInput "run_1_18d23804" "/ws" 1 dry_config) discovered_world)))
  = JsObject.get "/ws/runs/run_1_18d23804/run_manifest.json" (files discovered_world).
Proof.
  apply (validate_writes_validation_only
           (mkRunInput "run_1_18d23804" "/ws" 1 dry_config) discovered_world
           "/ws/runs/run_1_18d23804/run_manifest.json"
           (fst (runCspValidate StubToolClient
                   (mkRunInput "run_1_18d23804" "/ws" 1 dry_config) discovered_world))).
  - intros name H. cbv in H. discriminate H.
  - apply surjective_pairing.
Defined.

(** ** A successful iteration *)

Section Iterate.
Variable tc : ToolClient.
Local Abbreviation St := (client_state tc).




End Iterate.


(** ** The real client *)

Definition notConfigured : ToolClient := RealMcpClient (S := unit) None.

Lemma callTool_notConfigured (name : string) (input : ToolInput) (w : World unit) a w' :
  callTool notConfigured name input w <> (Ok a, w').
Proof. unfold callTool. cbn. discriminate. Qed.

Lemma discover_notConfigured (input : DiscoverInput) (w : World unit) r w' :
  runCspDiscover notConfigured input w <> (Ok r, w').
Proof.
  unfold runCspDiscover. intro H.
  apply bind_ok in H as (u1 & w1 & _ & H).
  apply bind_ok in H as (t & w2 & _ & H).
  apply bind_ok in H as (u3 & w3 & _ & H).
  apply bind_ok in H as (u4 & w4 & _ & H).
  apply bind_ok in H as (suggestions & w5 & _ & H).
  apply bind_ok in H as (chem & w6 & _ & H).
  apply bind_ok in H as (out & w7 & E & _).
  exact (callTool_notConfigured _ _ _ _ _ E).
Qed.

Lemma iterate_notConfigured (input : RunInput) (w : World unit) r w' :
  runCspIterate notConfigured input w <> (Ok r, w').
Proof.
  unfold runCspIterate. intro H.
  apply bind_ok in H as (m & w1 & _ & H).
  apply bind_ok in H as (s0 & w2 & _ & H).
  apply bind_ok in H as (c0 & w3 & _ & H).
  destruct (rm_iteration m + 1 >? max_iters (policy (ri_config input))); [discriminate H|].
  apply bind_ok in H as (u4 & w4 & _ & H).
  apply bind_ok in H as (cands & w5 & E & _).
  unfold runQlipCall in E. apply bind_ok in E as (out & w6 & E & _).
  exact (callTool_notConfigured _ _ _ _ _ E).
Qed.

Lemma validate_notConfigured (input : RunInput) (w : World unit) r w' :
  runCspValidate notConfigured input w <> (Ok r, w').
Proof.
  unfold runCspValidate. intro H.
  apply bind_ok in H as (c0 & w1 & _ & H).
  apply bind_ok in H as (ids & w2 & _ & H).
  apply bind_ok in H as (cands & w3 & _ & H).
  apply bind_ok in H as (v & w4 & E & _).
  unfold batchValidateCall in E. apply bind_ok in E as (out & w5 & E & _).
  exact (callTool_notConfigured _ _ _ _ _ E).
Qed.

(** X21.  Without --dry-run and without --help (which prints the help and
    exits with 0 before any client is built), the command line builds a
    [RealMcpClient] that has no handler, and every tool call throws.  So
    csp:discover, csp:iterate and csp:validate can only fail: whatever the
    other options, the files and the clock, the exit code is 1. *)
Theorem real_client_commands_fail (o : Cli.CliOptions) (fs : FileSystem)
        (clock : nat -> string) :
  Cli.dryRun o = false -> Cli.help o = false ->
  In (Cli.command o) ["csp:discover"; "csp:iterate"; "csp:validate"]%string ->
  fst (fst (Cli.runCspCli o fs clock)) = 1.
Proof.
  intros D Hh C. unfold Cli.runCspCli. rewrite D, Hh.
  assert (K : existsb (String.eqb (Cli.command o)) Cli.CSP_COMMANDS = true).
  { destruct C as [<- | [<- | [<- | []]]]; reflexivity. }
  rewrite K. cbn [negb].
  change (RealMcpClient (S := unit) None) with notConfigured.
  unfold Cli.outcome, Cli.guarded, try_catch.
  set (w := mkWorld fs tt clock 0%nat).
  enough (G : forall c out w', Cli.commands notConfigured o w = (Ok (c, out), w') -> c = 1).
  { destruct (Cli.commands notConfigured o w) as [[[c out]|e] w'] eqn:E.
    - cbn [fst]. exact (G c out w' eq_refl).
    - reflexivity. }
  intros c out w' E. unfold Cli.commands in E.
  destruct C as [C | [C | [C | []]]]; rewrite <- C in E;
    cbn [String.eqb Ascii.eqb Bool.eqb] in E.
  - destruct (truthy (Cli.objective o)); [|unfold ret in E; congruence].
    apply bind_ok in E as (r & w1 & E & _).
    exfalso. exact (discover_notConfigured _ _ _ _ E).
  - destruct (truthy (Cli.runId o)); [|unfold ret in E; congruence].
    apply bind_ok in E as (r & w1 & E & _).
    exfalso. exact (iterate_notConfigured _ _ _ _ E).
  - destruct (truthy (Cli.runId o)); [|unfold ret in E; congruence].
    apply bind_ok in E as (r & w1 & E & _).
    exfalso. exact (validate_notConfigured _ _ _ _ E).
Qed.

Lemma real_client_commands_fail_witness :
  fst (fst (Cli.runCspCli
              (Cli.mkCliOptions "csp:validate" false 1 false None None (Some "run_1_18d23804")
                                None None "/ws" dry_config)
              (files discovered_world) (fun _ => "2026-01-01T00:00:20.000Z"))) = 1.
Proof.
  apply real_client_commands_fail; [reflexivity | reflexivity | cbn; tauto].
Defined.

(** ** The chemistry of a run *)

(** X22.  [selectChemistry] returns the chem_system of one of the
    suggestions it is given (at most 2^20 of them), and unknown when it is
    given none. *)
Theorem selectChemistry_is_suggested (l : list ChemistrySuggestion) (seed : Z) :
  Z.of_nat (List.length l) <= 2 ^ 20 ->
  exists c, selectChemistry (Some l) seed = Ok c
            /\ match l with
               | [] => c = "unknown"
               | _ => In c (map cs_chem_system l)
               end.
Proof.
  intro B. destruct l as [|s tl]; [now exists "unknown"|].
  unfold selectChemistry.
  set (n := Z.of_nat (List.length (s :: tl))).
  assert (Hn : 1 <= n <= 2 ^ 20).
  { subst n. split; [cbn [List.length]; lia | exact B]. }
  pose proof (NumberFacts.nextInt_range 0 (n - 1) (Prng.new (U32.xor seed 0x3f1c2b))
                ltac:(lia) ltac:(lia)) as R.
  rewrite Z.min_l, Z.max_r in R by lia.
  destruct (Prng.nextInt 0 (n - 1) (Prng.new (U32.xor seed 0x3f1c2b))) as [i r].
  cbn [fst] in *. unfold Iteration.at_index.
  destruct (i <? 0) eqn:N; [apply Z.ltb_lt in N; lia|].
  destruct (nth_error (map cs_chem_system (s :: tl)) (Z.to_nat i)) as [c|] eqn:E.
  - exists c. split; [reflexivity|]. exact (nth_error_In _ _ E).
  - apply nth_error_None in E. rewrite length_map in E. subst n. lia.
Qed.

Lemma selectChemistry_is_suggested_witness :
  exists c, selectChemistry (Some (nth 1 CHEMISTRY_TABLE [])) 1 = Ok c
            /\ In c (map cs_chem_system (nth 1 CHEMISTRY_TABLE [])).
Proof.
  apply (selectChemistry_is_suggested (nth 1 CHEMISTRY_TABLE []) 1).
  cbn. lia.
Defined.

End WorkflowFacts.

(* ================================================================== *)
(** * The command line *)

Module CliMore.
Import JsNumber Json Types.
Export CliFacts.
Local Open Scope effect_scope.

(** The option a command cannot do without. *)
Definition required_option (o : CliOptions) : option string * string :=
  if String.eqb (command o) "csp:discover"
  then (truthy (objective o), "Missing required --objective")
  else (truthy (runId o), "Missing required --run-id").

(** X23.  A CSP command run without --help whose required option
    (--objective for csp:discover, --run-id for the others) is absent or
    empty prints one line of JSON with status error, exits with code 1 and
    leaves every file as it is, with or without --dry-run.  (With --help
    the command prints its help and exits with 0 whatever else is given.) *)
Theorem missing_option_is_reported (o : CliOptions) (fs : FileSystem) (clock : nat -> string) :
  In (command o) CSP_COMMANDS -> help o = false ->
  fst (required_option o) = None ->
  runCspCli o fs clock = (1, writeError (command o) (snd (required_option o)) 1, fs)
  /\ single_line (writeError (command o) (snd (required_option o)) 1).
Proof.
  intros C Hh R. split; [|apply writeError_single_line].
  unfold runCspCli, required_option in *. rewrite Hh.
  assert (K : existsb (String.eqb (command o)) CSP_COMMANDS = true).
  { destruct C as [<- | [<- | [<- | [<- | []]]]]; reflexivity. }
  rewrite K. cbn [negb].
  assert (G : forall tc (w : World (client_state tc)),
             guarded tc o w
             = (Ok (1, writeError (command o)
                         (snd (if String.eqb (command o) "csp:discover"
                               then (truthy (objective o), "Missing required --objective")
                               else (truthy (runId o), "Missing required --run-id"))) 1), w)).
  { intros tc w. unfold guarded, try_catch, commands.
    destruct C as [C | [C | [C | [C | []]]]]; rewrite <- C in *;
      cbn [String.eqb Ascii.eqb Bool.eqb fst snd] in *; rewrite R; reflexivity. }
  destruct (dryRun o); rewrite G; reflexivity.
Qed.

Lemma missing_option_is_reported_witness :
  runCspCli (mkCliOptions "csp:export" false 1 true None None (Some "") None None "/ws"
                          sample_config)
            (files exhausted_world) (fun _ => "2026-01-01T00:00:00.000Z")
  = (1, writeError "csp:export" "Missing required --run-id" 1, files exhausted_world)
  /\ single_line (writeError "csp:export" "Missing required --run-id" 1).
Proof.
  apply (missing_option_is_reported
           (mkCliOptions "csp:export" false 1 true None None (Some "") None None "/ws"
                         sample_config));
    [cbn; tauto | reflexivity | reflexivity].
Defined.

(** ** [parseArgs] *)

Definition plain (arg : string) : Prop := startsWith "-" arg = false.

Lemma double_dash (arg : string) : startsWith "--" arg = true -> startsWith "-" arg = true.
Proof.
  unfold startsWith. destruct arg as [|a tl]; cbn [JsString.strip_prefix]; [discriminate|].
  destruct (Ascii.eqb "-" a); [reflexivity | discriminate].
Qed.

Lemma parse_loop_positionals (n : nat) : forall args flags positionals,
  (List.length args <= n)%nat ->
  exists more,
    snd (parse_loop args flags positionals) = (positionals ++ more)%list
    /\ Forall (fun a => In a args /\ plain a) more
    /\ (Forall plain args -> more = args /\ fst (parse_loop args flags positionals) = flags).
Proof.
  induction n as [|n IH]; intros args flags positionals L.
  - destruct args; [|cbn in L; lia]. exists []. cbn. rewrite app_nil_r. auto.
  - destruct args as [|arg rest]; [exists []; cbn; rewrite app_nil_r; auto|].
    cbn [List.length] in L. cbn [parse_loop].
    assert (W : forall l fl ps,
               (List.length l <= n)%nat -> incl l rest -> startsWith "-" arg = true ->
               exists more,
                 snd (parse_loop l fl ps) = (ps ++ more)%list
                 /\ Forall (fun a => In a (arg :: rest) /\ plain a) more
                 /\ (Forall plain (arg :: rest) ->
                     more = arg :: rest /\ fst (parse_loop l fl ps) = flags)).
    { intros l fl ps Hl Hi Hd. destruct (IH l fl ps Hl) as (more & E & F & _).
      exists more. split; [exact E|]. split.
      - rewrite Forall_forall in *. intros a Ha. destruct (F a Ha) as [I P].
        split; [right; now apply Hi | exact P].
      - intro A. inversion A as [|? ? Pa _]; subst. unfold plain in Pa. congruence. }
    destruct (startsWith "--" arg) eqn:D2.
    + pose proof (double_dash arg D2) as D1.
      destruct (split_equals (slice2 arg)) as [rawKey [rawValue|]].
      * apply W; [lia | apply incl_refl | exact D1].
      * destruct rest as [|next rest'].
        -- apply W; [cbn; lia | apply incl_refl | exact D1].
        -- destruct (negb (String.eqb next "") && negb (startsWith "-" next)).
           ++ apply W; [cbn [List.length] in L; lia | apply incl_tl, incl_refl | exact D1].
           ++ apply W; [lia | apply incl_refl | exact D1].
    + destruct (startsWith "-" arg) eqn:D1.
      * apply W; [lia | apply incl_refl | reflexivity].
      * destruct (IH rest flags (positionals ++ [arg])%list ltac:(lia)) as (more & E & F & G).
        exists (arg :: more). rewrite E, <- app_assoc. split; [reflexivity|]. split.
        -- constructor; [split; [now left | exact D1]|].
           rewrite Forall_forall in *. intros a Ha. destruct (F a Ha). split; [now right | auto].
        -- intro A. inversion A as [|? ? _ Ar]; subst.
           destruct (G Ar) as [-> Hf]. split; [reflexivity | exact Hf].
Qed.

(** X24.  The command and the positionals that [parseArgs] returns are
    arguments that do not start with [-]: a word that starts with [-] is
    never taken as the command.  When no argument starts with [-], the
    command is the first argument, the positionals are the others and no
    flag is set. *)
Theorem parseArgs_positionals (args : list string) :
  let parsed := parseArgs args in
  let words := (match pa_command parsed with Some c => [c] | None => [] end
                  ++ pa_positionals parsed)%list in
  Forall (fun a => In a args /\ startsWith "-" a = false) words
  /\ (Forall (fun a => startsWith "-" a = false) args ->
      words = args /\ pa_flags parsed = []).
Proof.
  cbv zeta. unfold parseArgs.
  destruct (parse_loop_positionals (List.length args) args [] [] (Nat.le_refl _))
    as (more & E & F & G).
  destruct (parse_loop args [] []) as [flags positionals]. cbn [fst snd app] in *.
  subst positionals. cbn [pa_command pa_positionals pa_flags].
  assert (Q : (match hd_error more with Some c => [c] | None => [] end ++ tl more)%list = more)
    by (destruct more; reflexivity).
  rewrite Q. split; [exact F|]. intro A. destruct (G A) as [-> ->]. now split.
Qed.

Lemma parseArgs_positionals_witness :
  (match pa_command (parseArgs ["csp:export"; "extra"]) with Some c => [c] | None => [] end
     ++ pa_positionals (parseArgs ["csp:export"; "extra"]))%list = ["csp:export"; "extra"]
  /\ pa_flags (parseArgs ["csp:export"; "extra"]) = [].
Proof.
  apply (proj2 (parseArgs_positionals ["csp:export"; "extra"])). repeat constructor.
Defined.

End CliMore.

(* ================================================================== *)
(** * The summary hash *)

Module HashFacts.
Import JsNumber Json Types.
Local Open Scope Z_scope.

Lemma round_length (s : list Z) (kw : Z * Z) :
  List.length s = 8%nat -> List.length (Sha256.round s kw) = 8%nat.
Proof.
  intro L. do 9 (destruct s as [|? s]; try discriminate L). reflexivity.
Qed.

Lemma rounds_length (l : list (Z * Z)) : forall s,
  List.length s = 8%nat -> List.length (fold_left Sha256.round l s) = 8%nat.
Proof.
  induction l as [|kw tl IH]; intros s L; [exact L|].
  cbn [fold_left]. apply IH. now apply round_length.
Qed.

Lemma compress_length (h block : list Z) :
  List.length h = 8%nat -> List.length (Sha256.compress h block) = 8%nat.
Proof.
  intro L. unfold Sha256.compress.
  rewrite length_map, length_combine, rounds_length by exact L. now rewrite L.
Qed.

Lemma blocks_length (fuel : nat) : forall h ws,
  List.length h = 8%nat -> List.length (Sha256.blocks fuel h ws) = 8%nat.
Proof.
  induction fuel as [|f IH]; intros h ws L; [exact L|].
  cbn [Sha256.blocks]. destruct ws; [exact L|]. apply IH. now apply compress_length.
Qed.

Lemma digest_length (msg : list Z) : List.length (Sha256.digest msg) = 8%nat.
Proof. unfold Sha256.digest. apply blocks_length. reflexivity. Qed.

Lemma string_of_list_length (l : list ascii) :
  String.length (string_of_list_ascii l) = List.length l.
Proof. induction l as [|c tl IH]; [reflexivity|]. cbn. now rewrite IH. Qed.

Lemma nibble_hex (y : Z) : PrngFacts.is_hex (JsString.hex_digit (Z.land y 15)) = true.
Proof.
  apply PrngFacts.hex_digit_is_hex.
  assert (E : Z.land y 15 = y mod 16) by (exact (Z.land_ones y 4 ltac:(lia))).
  rewrite E. pose proof (Z.mod_pos_bound y 16 ltac:(lia)). lia.
Qed.

Lemma hex8_hex (x : Z) :
  String.length (Sha256.hex8 x) = 8%nat
  /\ StableFacts.all_chars PrngFacts.is_hex (Sha256.hex8 x) = true.
Proof.
  unfold Sha256.hex8. split.
  - now rewrite string_of_list_length, length_map, length_rev, length_seq.
  - rewrite StableFacts.all_chars_list, list_ascii_of_string_of_list_ascii.
    apply forallb_forall. intros c I. apply in_map_iff in I as (i & <- & _).
    apply nibble_hex.
Qed.

Lemma concat_more (sep a b : string) (l : list string) :
  String.concat sep (a :: b :: l) = a ++ sep ++ String.concat sep (b :: l).
Proof. reflexivity. Qed.

Lemma concat_hex (l : list Z) :
  String.length (String.concat "" (map Sha256.hex8 l)) = (8 * List.length l)%nat
  /\ StableFacts.all_chars PrngFacts.is_hex (String.concat "" (map Sha256.hex8 l)) = true.
Proof.
  induction l as [|x tl IH]; [now split|].
  destruct (hex8_hex x) as [L H]. destruct tl as [|y tl].
  - cbn [map String.concat List.length]. split; [rewrite L; reflexivity | exact H].
  - destruct IH as [IL IH]. cbn [map] in *. rewrite concat_more.
    change ("" ++ String.concat "" (Sha256.hex8 y :: map Sha256.hex8 tl))
      with (String.concat "" (Sha256.hex8 y :: map Sha256.hex8 tl)).
    rewrite StableFacts.length_app, StableFacts.all_chars_app, L, H, IH, IL.
    cbn [List.length]. split; [lia | reflexivity].
Qed.

(** X25.  The hash of a summary, like every [sha256Hex], is a string of
    64 lowercase hexadecimal digits. *)
Theorem summary_hash_format (summary : ValidationSummary) (input : string) :
  String.length (Workflows.computeSummaryHash summary) = 64%nat
  /\ StableFacts.all_chars PrngFacts.is_hex (Workflows.computeSummaryHash summary) = true
  /\ String.length (Sha256.sha256Hex input) = 64%nat
  /\ StableFacts.all_chars PrngFacts.is_hex (Sha256.sha256Hex input) = true.
Proof.
  assert (G : forall s, String.length (Sha256.sha256Hex s) = 64%nat
                        /\ StableFacts.all_chars PrngFacts.is_hex (Sha256.sha256Hex s) = true).
  { intro s. unfold Sha256.sha256Hex.
    destruct (concat_hex (Sha256.digest (Sha256.utf8 s))) as [L H].
    rewrite digest_length in L. now split. }
  unfold Workflows.computeSummaryHash.
  destruct (G (stableStringify (summary_json summary))) as [A B].
  destruct (G input) as [C D]. auto.
Qed.

End HashFacts.
